(** * requre.helpers.files: capture and replay of files through the persistent storage

    A shallow embedding of [requre/helpers/files.py] (class [StoreFiles]) and
    of the parts of the Python runtime it drives.

    - Python code is a function from the process ([World]: filesystem,
      working directory, recording flag, the storage singleton) to an outcome
      (a value or an exception) and the process afterwards; [try/finally] and
      [try/except] are combinators of that monad.
    - The filesystem is a tree of regular files and directories.  Paths are
      Python strings; [os.path] is posixpath, and a path is resolved as the
      kernel does it, component by component.  There are no symbolic links
      and no permissions; [os.makedirs] follows the names of its path.
    - A tar archive is the list of its members (name, type, bytes; no
      ownership, mode or time stamps).  The [xz] container is an opaque codec
      [TarCodec]; the theorems that decode what was encoded assume it
      [lossless].
    - The storage, the recording predicate and the output-capture primitive
      are collaborators whose modules are not among the sources: the first
      two are modelled from the specification, the third is a parameter.

    Layout: definitions first (Python strings and paths, the filesystem, the
    exception monad, the tar archive, the storage, [StoreFiles]), then the
    lemmas and the theorems about [StoreFiles]. *)

From Stdlib Require Import String Ascii List ZArith Lia Bool Permutation.
Import ListNotations.
Local Open Scope string_scope.
Local Open Scope list_scope.

Set Implicit Arguments.
Local Set Warnings "-register-all".

(* ================================================================== *)
(** * Python strings and [os.path] (posixpath) *)
(* ================================================================== *)

Module OsPath.

(** [os.path.sep] on POSIX. *)
Definition sep : ascii := "/"%char.

Definition is_sep (c : ascii) : bool := Ascii.eqb c sep.

(** [s.split(os.path.sep)]: every separator cuts; never the empty list. *)
Fixpoint split (s : string) : list string :=
  match s with
  | EmptyString => [EmptyString]
  | String c s' =>
      if is_sep c then EmptyString :: split s'
      else match split s' with
           | [] => [String c EmptyString]
           | h :: t => String c h :: t
           end
  end.

(** [s.partition(os.path.sep)] when a separator occurs: the text before the
    first separator and the text after it. *)
Fixpoint partition (s : string) : option (string * string) :=
  match s with
  | EmptyString => None
  | String c s' =>
      if is_sep c then Some (EmptyString, s')
      else match partition s' with
           | Some (h, t) => Some (String c h, t)
           | None => None
           end
  end.

(** [s.split(os.path.sep, 1)]: at most one cut, at the first separator. *)
Definition split1 (s : string) : list string :=
  match partition s with
  | Some (h, t) => [h; t]
  | None => [s]
  end.

(** [i = p.rfind(sep) + 1; (p[:i], p[i:])], the first step of
    [posixpath.split], [basename] and [dirname]. *)
Fixpoint rcut (p : string) : string * string :=
  match p with
  | EmptyString => (EmptyString, EmptyString)
  | String c p' =>
      match rcut p' with
      | (EmptyString, t) =>
          if is_sep c then (String c EmptyString, t)
          else (EmptyString, String c t)
      | (h, t) => (String c h, t)
      end
  end.

(** [s.rstrip(sep)]. *)
Fixpoint rstrip (s : string) : string :=
  match s with
  | EmptyString => EmptyString
  | String c s' =>
      match rstrip s' with
      | EmptyString => if is_sep c then EmptyString else String c EmptyString
      | r => String c r
      end
  end.

(** [s == sep * len(s)]. *)
Fixpoint all_sep (s : string) : bool :=
  match s with
  | EmptyString => true
  | String c s' => is_sep c && all_sep s'
  end.

Definition nonempty (s : string) : bool :=
  match s with EmptyString => false | _ => true end.

Definition startswith_sep (s : string) : bool :=
  match s with String c _ => is_sep c | EmptyString => false end.

Fixpoint endswith_sep (s : string) : bool :=
  match s with
  | EmptyString => false
  | String c EmptyString => is_sep c
  | String _ s' => endswith_sep s'
  end.

(** [os.path.basename]. *)
Definition basename (p : string) : string := snd (rcut p).

(** [os.path.dirname]: the head, with its trailing separators removed
    unless it consists of separators only. *)
Definition dirname (p : string) : string :=
  let head := fst (rcut p) in
  if nonempty head && negb (all_sep head) then rstrip head else head.

(** [os.path.join(a, b)]. *)
Definition join (a b : string) : string :=
  if startswith_sep b then b
  else if negb (nonempty a) || endswith_sep a then a ++ b
  else a ++ String sep b.

(** Resolution of the components of a path against a directory given by
    its absolute list of names: empty components and ["."] stay, [".."]
    goes to the parent (the root is its own parent), a name descends.
    The filesystem has no symbolic links, so the resolution is lexical. *)
Definition step (base : list string) (c : string) : list string :=
  if String.eqb c "" || String.eqb c "." then base
  else if String.eqb c ".." then removelast base
  else base ++ [c].

Definition walk (base : list string) (cs : list string) : list string :=
  fold_left step cs base.

(** The directory a path starts from: the root, or the working directory
    [cwd]. *)
Definition base (cwd : list string) (p : string) : list string :=
  if startswith_sep p then [] else cwd.

(** The absolute names of path [p] for a process whose working directory
    is [cwd]. *)
Definition absolute (cwd : list string) (p : string) : list string :=
  walk (base cwd p) (split p).

(** What [join] puts before a second part that is relative. *)
Definition prefix (t : string) : string :=
  if negb (nonempty t) || endswith_sep t then t else t ++ String sep "".

(** The text of an absolute list of names, as [os.getcwd] returns it. *)
Fixpoint render_rel (l : list string) : string :=
  match l with
  | [] => EmptyString
  | c :: l' => String sep (c ++ render_rel l')
  end.

Definition render (l : list string) : string :=
  match l with
  | [] => String sep EmptyString
  | _ => render_rel l
  end.

Fixpoint has_sep (s : string) : bool :=
  match s with
  | EmptyString => false
  | String c s' => is_sep c || has_sep s'
  end.

(** The names a directory entry can have. *)
Definition valid_name (s : string) : bool :=
  nonempty s && negb (has_sep s)
  && negb (String.eqb s ".") && negb (String.eqb s "..").

(** [c1/c2/.../cn], the relative path through the given names. *)
Fixpoint relpath (l : list string) : string :=
  match l with
  | [] => EmptyString
  | [c] => c
  | c :: l' => c ++ String sep (relpath l')
  end.

End OsPath.

(* ================================================================== *)
(** * Exceptions and outcomes *)
(* ================================================================== *)

(** The exception classes the module can meet.  [PersistentStorageException]
    is [requre.exceptions.PersistentStorageException]; [ReadError] is
    [tarfile.ReadError]; [UserError] stands for whatever else a wrapped
    function raises. *)
Inductive exception : Type :=
| PersistentStorageException
| FileNotFoundError
| NotADirectoryError
| IsADirectoryError
| FileExistsError
| IndexError
| TypeError
| ReadError
| UserError (what : string).

Inductive outcome (A : Type) : Type :=
| Returned (a : A)
| Raised (e : exception).
Arguments Returned {A} a.
Arguments Raised {A} e.

(* ================================================================== *)
(** * The filesystem: regular files and directories *)
(* ================================================================== *)

Definition bytes := list Byte.byte.

(** A directory keeps its entries in the order [os.listdir] reports them. *)
Inductive node : Type :=
| File (data : bytes)
| Dir (entries : list (string * node)).

(** What [os.lstat] tells about a path: a regular file with its bytes, or a
    directory. *)
Inductive kind : Type :=
| KFile (data : bytes)
| KDir.

Module Fs.

Section Entries.
Variable A : Type.

Fixpoint assoc (k : string) (l : list (string * A)) : option A :=
  match l with
  | [] => None
  | (k', v) :: l' => if String.eqb k k' then Some v else assoc k l'
  end.

(** Replace the entry of [k], or add it at the end. *)
Fixpoint set (k : string) (v : A) (l : list (string * A))
  : list (string * A) :=
  match l with
  | [] => [(k, v)]
  | (k', v') :: l' =>
      if String.eqb k k' then (k, v) :: l' else (k', v') :: set k v l'
  end.
End Entries.

Fixpoint lookup (p : list string) (n : node) : option node :=
  match p with
  | [] => Some n
  | c :: p' =>
      match n with
      | File _ => None
      | Dir es =>
          match assoc c es with
          | Some child => lookup p' child
          | None => None
          end
      end
  end.

Definition kind_of (n : node) : kind :=
  match n with File d => KFile d | Dir _ => KDir end.

Definition stat (p : list string) (n : node) : option kind :=
  option_map kind_of (lookup p n).

(** Change the node at [p]: [f] sees what is there, or [None] when only
    the last name is missing; a missing or non-directory parent fails as
    the system calls do. *)
Fixpoint alter (p : list string) (f : option node -> outcome node)
  (n : node) : outcome node :=
  match p with
  | [] => f (Some n)
  | c :: p' =>
      match n with
      | File _ => Raised NotADirectoryError
      | Dir es =>
          match assoc c es, p' with
          | Some child, _ =>
              match alter p' f child with
              | Returned child' => Returned (Dir (set c child' es))
              | Raised e => Raised e
              end
          | None, [] =>
              match f None with
              | Returned new => Returned (Dir (set c new es))
              | Raised e => Raised e
              end
          | None, _ :: _ => Raised FileNotFoundError
          end
      end
  end.

(** [open(p, "wb").write(data)]: creates or truncates a regular file. *)
Definition write_file (p : list string) (data : bytes) : node -> outcome node :=
  alter p (fun o => match o with
                    | Some (Dir _) => Raised IsADirectoryError
                    | _ => Returned (File data)
                    end).

(** [os.mkdir(p)]. *)
Definition mkdir (p : list string) : node -> outcome node :=
  alter p (fun o => match o with
                    | Some _ => Raised FileExistsError
                    | None => Returned (Dir [])
                    end).

(** The chain of fresh directories [c1/c2/...]. *)
Fixpoint chain (p : list string) : node :=
  match p with
  | [] => Dir []
  | c :: p' => Dir [(c, chain p')]
  end.

(** [os.makedirs(p)] with [exist_ok=False]: every missing directory on the
    way is created; the last one must be missing. *)
Fixpoint makedirs (p : list string) (n : node) : outcome node :=
  match p with
  | [] => Raised FileExistsError
  | c :: p' =>
      match n with
      | File _ => Raised NotADirectoryError
      | Dir es =>
          match assoc c es with
          | Some child =>
              match makedirs p' child with
              | Returned child' => Returned (Dir (set c child' es))
              | Raised e => Raised e
              end
          | None => Returned (Dir (set c (chain p') es))
          end
      end
  end.

(** [Some r] when [q] is [p] followed by [r]. *)
Fixpoint strip_prefix (p q : list string) : option (list string) :=
  match p, q with
  | [], _ => Some q
  | c :: p', c' :: q' => if String.eqb c c' then strip_prefix p' q' else None
  | _ :: _, [] => None
  end.

Definition path_eq_dec : forall p q : list string, {p = q} + {p <> q} :=
  list_eq_dec string_dec.

(** A directory holds every name once, and only names that a directory
    entry can have. *)
Fixpoint names_ok (ns : list string) : bool :=
  match ns with
  | [] => true
  | c :: ns' =>
      OsPath.valid_name c && negb (existsb (String.eqb c) ns') && names_ok ns'
  end.

Fixpoint wf (n : node) : bool :=
  match n with
  | File _ => true
  | Dir es => names_ok (map fst es) && forallb (fun e => wf (snd e)) es
  end.

End Fs.

(* ================================================================== *)
(** * Tar archives *)
(* ================================================================== *)

(** [tarfile.TarInfo], reduced to what [StoreFiles] looks at: the member's
    name, whether it is a regular file or a directory, and its bytes.
    Ownership, mode and time stamps are not modelled. *)
Inductive tartype : Type := REGTYPE | DIRTYPE.

Record TarInfo : Type := mkTarInfo {
  name : string;
  type : tartype;
  payload : bytes
}.

Definition isfile (m : TarInfo) : bool :=
  match type m with REGTYPE => true | DIRTYPE => false end.

(** The container format: [tarfile] with the [xz] filter, taken as an opaque
    pair of functions between member lists and the bytes kept in the storage.
    [tar_read] is [None] on bytes that [tarfile.open] rejects. *)
Class TarCodec : Type := {
  blob : Type;
  tar_write : list TarInfo -> blob;
  tar_read : blob -> option (list TarInfo)
}.

(** What a reader must get back from a writer's bytes. *)
Definition lossless (codec : TarCodec) : Prop :=
  forall members : list TarInfo, tar_read (tar_write members) = Some members.

(** The codec that keeps the member list as it is. *)
Definition plain_codec : TarCodec :=
  {| blob := list TarInfo; tar_write := fun ms => ms; tar_read := fun b => Some b |}.

Module Tar.

(** Insertion into a list ordered by name: [sorted(os.listdir(name))]. *)
Fixpoint insert (A : Type) (e : string * A) (l : list (string * A))
  : list (string * A) :=
  match l with
  | [] => [e]
  | e' :: l' =>
      if String.leb (fst e) (fst e') then e :: e' :: l' else e' :: insert e l'
  end.

Fixpoint sorted (A : Type) (l : list (string * A)) : list (string * A) :=
  match l with
  | [] => []
  | e :: l' => insert e (sorted l')
  end.

(** [TarFile.add(name)] on the node found at [name]: the member itself,
    then for a directory the members of every entry, entries taken in
    sorted order and named [os.path.join(arcname, entry)]. *)
Fixpoint members (arcname : string) (n : node) : list TarInfo :=
  match n with
  | File d => [mkTarInfo arcname REGTYPE d]
  | Dir es =>
      mkTarInfo arcname DIRTYPE [] ::
      concat (map snd (sorted
        (map (fun e => (fst e, members (OsPath.join arcname (fst e)) (snd e)))
             es)))
  end.

(** The name [TarFile.add] gives to the member at the names [rs] below the
    artifact [top]. *)
Definition arcname (top : string) (rs : list string) : string :=
  match rs with
  | [] => top
  | _ => (top ++ String OsPath.sep (OsPath.relpath rs))%string
  end.

(** The name of the member at the names [rs] below the artifact, once
    the read branch has removed the top directory. *)
Definition relname (rs : list string) : string :=
  match rs with
  | [] => "."
  | _ => OsPath.relpath rs
  end.

(** The members of the node found at [rs] below the artifact, under the
    names the read branch gives them. *)
Fixpoint relmembers (rs : list string) (n : node) : list TarInfo :=
  match n with
  | File d => [mkTarInfo (relname rs) REGTYPE d]
  | Dir es =>
      mkTarInfo (relname rs) DIRTYPE [] ::
      concat (map snd (sorted
        (map (fun e => (fst e, relmembers (rs ++ [fst e]) (snd e))) es)))
  end.

End Tar.

(* ================================================================== *)
(** * Python values, the persistent storage and the process *)
(* ================================================================== *)

Section Process.
Context {codec : TarCodec}.

(** The Python values that reach [StoreFiles]: arguments and results of
    the wrapped functions, and what the storage holds. *)
Inductive value : Type :=
| VNone
| VBool (b : bool)
| VInt (z : Z)
| VStr (s : string)
| VBytes (b : blob)
| VObject (id : nat).

(** A component of a key sequence: a string or an integer. *)
Inductive key : Type :=
| KStr (s : string)
| KInt (z : Z).

Definition key_eqb (a b : key) : bool :=
  match a, b with
  | KStr x, KStr y => String.eqb x y
  | KInt x, KInt y => Z.eqb x y
  | _, _ => false
  end.

Fixpoint keys_eqb (a b : list key) : bool :=
  match a, b with
  | [], [] => true
  | x :: a', y :: b' => key_eqb x y && keys_eqb a' b'
  | _, _ => false
  end.

(** A call received by the storage, as a spy on it would record it. *)
Inductive call : Type :=
| CallStore (keys : list key) (values : value)
| CallRead (keys : list key).

(** Modelled from the spec: the store collaborator
    [requre.storage.PersistentObjectStorage] (its module is not part of
    the sources at hand).  It exposes the flag [is_write_mode], the path
    [storage_file] and the two operations [store] and [read] below, over
    one value per key sequence.  [calls] is the record of a spy: the
    calls received so far, oldest first. *)
Record PersistentObjectStorage : Type := mkStorage {
  is_write_mode : bool;
  storage_file : string;
  storage_object : list (list key * value);
  calls : list call
}.

Fixpoint storage_get (ks : list key) (l : list (list key * value))
  : option value :=
  match l with
  | [] => None
  | (ks', v) :: l' => if keys_eqb ks ks' then Some v else storage_get ks l'
  end.

Fixpoint storage_set (ks : list key) (v : value)
  (l : list (list key * value)) : list (list key * value) :=
  match l with
  | [] => [(ks, v)]
  | (ks', v') :: l' =>
      if keys_eqb ks ks' then (ks, v) :: l' else (ks', v') :: storage_set ks v l'
  end.

(** The process: the filesystem, the working directory, the process-wide
    recording flag, and the storage singleton [requre.utils.STORAGE]. *)
Record World : Type := mkWorld {
  fs : node;
  cwd : list string;
  recording : bool;
  STORAGE : PersistentObjectStorage
}.

(** ** The monad of Python code: state and exceptions *)

Definition Py (A : Type) : Type := World -> outcome A * World.

Definition ret {A} (a : A) : Py A := fun w => (Returned a, w).

Definition raise {A} (e : exception) : Py A := fun w => (Raised e, w).

Definition bind {A B} (m : Py A) (k : A -> Py B) : Py B :=
  fun w => match m w with
           | (Returned a, w') => k a w'
           | (Raised e, w') => (Raised e, w')
           end.

(** [try: body finally: final].  The final block runs whatever the body
    did; when it raises itself, its exception replaces the body's outcome. *)
Definition try_finally {A} (body : Py A) (final : Py unit) : Py A :=
  fun w => match body w with
           | (r, w') =>
               match final w' with
               | (Returned _, w'') => (r, w'')
               | (Raised e, w'') => (Raised e, w'')
               end
           end.

(** [try: body except PersistentStorageException: pass]. *)
Definition try_except_pass (body : Py unit) : Py unit :=
  fun w => match body w with
           | (Raised PersistentStorageException, w') => (Returned tt, w')
           | r => r
           end.

(** [for x in l: body(x)]. *)
Fixpoint for_each {A} (l : list A) (body : A -> Py unit) : Py unit :=
  match l with
  | [] => ret tt
  | x :: l' => bind (body x) (fun _ => for_each l' body)
  end.

End Process.

Declare Scope py_scope.
Delimit Scope py_scope with py.
Notation "x <- m ;; k" := (bind m (fun x => k))
  (at level 61, m at next level, right associativity) : py_scope.
Notation "m ;; k" := (bind m (fun _ => k))
  (at level 61, right associativity) : py_scope.

Local Open Scope py_scope.

(** ** Python's built-in operations used by the module *)

Module Py_.

(** [l[i]] on a list: negative indices count from the end, anything out
    of range raises [IndexError]. *)
Definition getitem {A} (l : list A) (i : Z) : outcome A :=
  let n := Z.of_nat (length l) in
  let j := if (i <? 0)%Z then (n + i)%Z else i in
  if ((0 <=? j) && (j <? n))%Z
  then match nth_error l (Z.to_nat j) with
       | Some a => Returned a
       | None => Raised IndexError
       end
  else Raised IndexError.

(** [enumerate(l)], as [for position in range(len(args))] visits it. *)
Fixpoint enumerate_from {A} (i : Z) (l : list A) : list (Z * A) :=
  match l with
  | [] => []
  | a :: l' => (i, a) :: enumerate_from (i + 1) l'
  end.

Definition enumerate {A} (l : list A) : list (Z * A) := enumerate_from 0 l.

End Py_.

(** ** The [os] module *)

Module Os.
Section WithCodec.
Context {codec : TarCodec}.

Definition set_fs (n : node) (w : World) : World :=
  mkWorld n (cwd w) (recording w) (STORAGE w).

Definition set_cwd (d : list string) (w : World) : World :=
  mkWorld (fs w) d (recording w) (STORAGE w).

(** [w'] differs from [w] in the filesystem at most. *)
Definition same_process (w w' : World) : Prop :=
  cwd w' = cwd w /\ recording w' = recording w /\ STORAGE w' = STORAGE w.

(** Code that changes the filesystem at most. *)
Definition fs_only {A} (m : Py A) : Prop :=
  forall w, same_process w (snd (m w)).

(** Path resolution as the kernel does it, from directory [cur] through
    the components [cs]: an empty component is skipped; before any other
    component is followed, the place reached so far must be a directory.
    The place reached at the end need not exist. *)
Fixpoint descend (n : node) (cur : list string) (cs : list string)
  : outcome (list string) :=
  match cs with
  | [] => Returned cur
  | c :: cs' =>
      if String.eqb c "" then descend n cur cs'
      else match Fs.stat cur n with
           | Some KDir => descend n (OsPath.step cur c) cs'
           | Some (KFile _) => Raised NotADirectoryError
           | None => Raised FileNotFoundError
           end
  end.

(** The place path [p] names; the empty path names nothing. *)
Definition resolve (p : string) (w : World) : outcome (list string) :=
  if OsPath.nonempty p
  then descend (fs w) (OsPath.base (cwd w) p) (OsPath.split p)
  else Raised FileNotFoundError.

(** The target [t] handed to [tarfile] names the place [ts]: as [resolve],
    but the empty target stands for the working directory, as it does in
    [os.path.join]. *)
Definition lands (t : string) (w : World) (ts : list string) : Prop :=
  descend (fs w) (OsPath.base (cwd w) t) (OsPath.split t) = Returned ts.

(** [os.lstat(p)], or [None] where it raises.  A path that ends with a
    separator names a directory only. *)
Definition lstat (p : string) (w : World) : option kind :=
  match resolve p w with
  | Returned q =>
      match Fs.stat q (fs w) with
      | Some (KFile d) =>
          if OsPath.endswith_sep p then None else Some (KFile d)
      | k => k
      end
  | Raised _ => None
  end.

(** Run a change of the filesystem at the place path [p] names. *)
Definition at_path (p : string)
  (op : list string -> node -> outcome node) : Py unit :=
  fun w =>
    match resolve p w with
    | Returned q =>
        match op q (fs w) with
        | Returned n => (Returned tt, set_fs n w)
        | Raised e => (Raised e, w)
        end
    | Raised e => (Raised e, w)
    end.

(** [os.getcwd()]. *)
Definition getcwd : Py string :=
  fun w => (Returned (OsPath.render (cwd w)), w).

(** [os.chdir(p)]. *)
Definition chdir (p : string) : Py unit :=
  fun w =>
    match resolve p w with
    | Returned q =>
        match Fs.stat q (fs w) with
        | Some KDir => (Returned tt, set_cwd q w)
        | Some (KFile _) => (Raised NotADirectoryError, w)
        | None => (Raised FileNotFoundError, w)
        end
    | Raised e => (Raised e, w)
    end.

(** [os.path.exists(p)]. *)
Definition path_exists (p : string) : Py bool :=
  fun w => (Returned (match lstat p w with Some _ => true | None => false end), w).

(** [with open(p, mode="wb") as f: f.write(data)]. *)
Definition open_wb (p : string) (data : bytes) : Py unit :=
  at_path p (fun q n =>
    if OsPath.endswith_sep p then Raised IsADirectoryError
    else Fs.write_file q data n).

(** [os.mkdir(p)]. *)
Definition mkdir (p : string) : Py unit := at_path p Fs.mkdir.

(** [os.makedirs(p)]: the missing directories along the names of [p]
    are made, outermost first.  ([os.makedirs] works on the text of the
    path, head by head; so does this, through [OsPath.absolute].) *)
Definition makedirs (p : string) : Py unit :=
  fun w =>
    if OsPath.nonempty p then
      match Fs.makedirs (OsPath.absolute (cwd w) p) (fs w) with
      | Returned n => (Returned tt, set_fs n w)
      | Raised e => (Raised e, w)
      end
    else (Raised FileNotFoundError, w).

End WithCodec.
End Os.

(** ** The [tarfile] module *)

Module TarFile.
Section WithCodec.
Context {codec : TarCodec}.

(** [tar_store.add(name=name)] in a fresh archive: the members that the
    archive holds afterwards.  [name] is looked up from the working
    directory; a missing path raises as [os.lstat] does. *)
Definition add (name : string) : Py (list TarInfo) :=
  fun w =>
    match Os.resolve name w with
    | Returned q =>
        match Fs.lookup q (fs w) with
        | Some n => (Returned (Tar.members name n), w)
        | None => (Raised FileNotFoundError, w)
        end
    | Raised e => (Raised e, w)
    end.

(** [tarfile.open(mode="r:xz", fileobj=BytesIO(b)).getmembers()]. *)
Definition open_r (b : blob) : Py (list TarInfo) :=
  match tar_read b with
  | Some ms => ret ms
  | None => raise ReadError
  end.

(** [TarFile.makedir]: [os.mkdir], with [FileExistsError] passed over (the
    [tarfile] of the Python versions the source was written for). *)
Definition makedir (targetpath : string) : Py unit :=
  fun w => match Os.mkdir targetpath w with
           | (Raised FileExistsError, w') => (Returned tt, w')
           | r => r
           end.

(** [tar_store.extract(m, path=path)]: the member goes to
    [os.path.join(path, m.name)]; missing upper directories are made
    first. *)
Definition extract (m : TarInfo) (path : string) : Py unit :=
  let targetpath := OsPath.rstrip (OsPath.join path (name m)) in
  let upperdirs := OsPath.dirname targetpath in
  present <- Os.path_exists upperdirs ;;
  (if OsPath.nonempty upperdirs && negb present
   then Os.makedirs upperdirs else ret tt) ;;
  match type m with
  | REGTYPE => Os.open_wb targetpath (payload m)
  | DIRTYPE => makedir targetpath
  end.

(** [for tar_item in members: tar_store.extract(tar_item, path=t)]. *)
Definition extractall (t : string) (ms : list TarInfo) : Py unit :=
  for_each ms (fun m => extract m t).

(** What the extraction of the renamed members of [T] achieves at the names
    [rs ++ [f]] below the target [t]: [T] appears there, the rest stays. *)
Definition planted (t : string) (T : node) : Prop :=
  Fs.wf T = true ->
  forall rs f w ts,
    Os.lands t w ts ->
    forallb OsPath.valid_name rs = true -> OsPath.valid_name f = true ->
    Fs.stat (ts ++ rs) (fs w) = Some KDir ->
    Fs.stat ((ts ++ rs) ++ [f]) (fs w) = None ->
    exists n',
      extractall t (Tar.relmembers (rs ++ [f]) T) w = (Returned tt, Os.set_fs n' w)
      /\ forall q, Fs.stat q n'
           = match Fs.strip_prefix ((ts ++ rs) ++ [f]) q with
             | Some r => Fs.stat r T
             | None => Fs.stat q (fs w)
             end.

End WithCodec.
End TarFile.

(** ** The storage operations *)

Module Storage.
Section WithCodec.
Context {codec : TarCodec}.

Definition set_storage (s : PersistentObjectStorage) (w : World) : World :=
  mkWorld (fs w) (cwd w) (recording w) s.

Definition record (c : call) (s : PersistentObjectStorage)
  : PersistentObjectStorage :=
  mkStorage (is_write_mode s) (storage_file s) (storage_object s)
            (calls s ++ [c]).

Definition put (ks : list key) (v : value) (s : PersistentObjectStorage)
  : PersistentObjectStorage :=
  mkStorage (is_write_mode s) (storage_file s)
            (storage_set ks v (storage_object s)) (calls s).

(** The world once the storage has received call [c]. *)
Definition heard (c : call) (w : World) : World :=
  set_storage (record c (STORAGE w)) w.

(** Worlds that differ in the calls the storage has received at most. *)
Definition alike (w w' : World) : Prop :=
  fs w = fs w' /\ cwd w = cwd w' /\ recording w = recording w'
  /\ is_write_mode (STORAGE w) = is_write_mode (STORAGE w')
  /\ storage_file (STORAGE w) = storage_file (STORAGE w')
  /\ storage_object (STORAGE w) = storage_object (STORAGE w').

(** Code that does not look at the calls received. *)
Definition blind {A} (m : Py A) : Prop :=
  forall w w', alike w w' ->
    fst (m w) = fst (m w') /\ alike (snd (m w)) (snd (m w')).

Definition is_read (c : call) : bool :=
  match c with CallRead _ => true | CallStore _ _ => false end.

(** From [w] to [w'] the storage was asked, not told: its content, mode
    and file are the same, the calls it received since are [read]s; the
    working directory and the recording flag are the same too. *)
Definition reads_only (w w' : World) : Prop :=
  cwd w' = cwd w /\ recording w' = recording w
  /\ is_write_mode (STORAGE w') = is_write_mode (STORAGE w)
  /\ storage_file (STORAGE w') = storage_file (STORAGE w)
  /\ storage_object (STORAGE w') = storage_object (STORAGE w)
  /\ exists new, calls (STORAGE w') = calls (STORAGE w) ++ new
                 /\ forallb is_read new = true.

(** Modelled from the spec: [store(keys, values)] of the store
    collaborator; it files [values] under [keys] and fails when called
    outside write mode. *)
Definition store (keys : list key) (values : value) : Py unit :=
  fun w =>
    let s := record (CallStore keys values) (STORAGE w) in
    if is_write_mode s
    then (Returned tt, set_storage (put keys values s) w)
    else (Raised PersistentStorageException, set_storage s w).

(** Modelled from the spec: [read(keys)] of the store collaborator; it
    fails with a [PersistentStorageException] when no value exists under
    the key sequence. *)
Definition read (keys : list key) : Py value :=
  fun w =>
    let s := record (CallRead keys) (STORAGE w) in
    match storage_get keys (storage_object s) with
    | Some v => (Returned v, set_storage s w)
    | None => (Raised PersistentStorageException, set_storage s w)
    end.

End WithCodec.
End Storage.

(** Modelled from the spec: [requre.utils.get_if_recording], the zero-argument
    process-wide query that tells whether capture and replay engage at all. *)
Definition get_if_recording {codec : TarCodec} : Py bool :=
  fun w => (Returned (recording w), w).

(** A process in good order: a well-formed filesystem, and a working
    directory that exists. *)
Definition World_ok {codec : TarCodec} (w : World) : Prop :=
  Fs.wf (fs w) = true
  /\ forallb OsPath.valid_name (cwd w) = true
  /\ Fs.stat (cwd w) (fs w) = Some KDir.

(* ================================================================== *)
(** * [requre.helpers.files.StoreFiles] *)
(* ================================================================== *)

(** A Python callable: positional arguments, keyword arguments (in call
    order), and the process it runs in. *)
Definition callable {codec : TarCodec} : Type :=
  list value -> list (string * value) -> Py value.

Module StoreFiles.
Section WithCollaborators.
Context {codec : TarCodec}.

(** [requre.helpers.function_output.store_function_output], the generic
    output-capture primitive: a wrapper of callables whose module is not
    part of the sources at hand; any wrapper may stand for it. *)
Variable store_function_output : callable -> callable.

Definition dir_suffix : string := "file_storage".
Definition tar_compression : string := "xz".
Definition basic_ps_keys : list key := [KStr "X"; KStr "file"; KStr "tar"].

(** [cls.__name__]. *)
Definition __name__ : string := "StoreFiles".

(** [os.path.basename(STORAGE.storage_file)]. *)
Definition _test_identifier : Py string :=
  fun w => (Returned (OsPath.basename (storage_file (STORAGE w))), w).

(** A value used where [os.path] and [open] want a path. *)
Definition as_path (v : value) : Py string :=
  match v with
  | VStr s => ret s
  | _ => raise TypeError
  end.

(** [BytesIO(value)]. *)
Definition BytesIO (v : value) : Py blob :=
  match v with
  | VBytes b => ret b
  | _ => raise TypeError
  end.

(** The body of the [try] of the write branch. *)
Definition pack (pathname : value) (keys : list key) : Py unit :=
  p <- as_path pathname ;;
  let artifact_name := OsPath.basename p in
  let artifact_path := OsPath.dirname p in
  Os.chdir artifact_path ;;
  tar_store <- TarFile.add artifact_name ;;
  Storage.store (basic_ps_keys ++ keys) (VBytes (tar_write tar_store)).

(** The new name given to [tar_item] before it is extracted. *)
Definition strip_topdir (tar_item : TarInfo) : TarInfo :=
  match OsPath.split1 (name tar_item) with
  | _ :: rest :: _ => mkTarInfo rest (type tar_item) (payload tar_item)
  | _ => mkTarInfo "." (type tar_item) (payload tar_item)
  end.

(** The read branch. *)
Definition unpack (pathname : value) (keys : list key) : Py unit :=
  value <- Storage.read (basic_ps_keys ++ keys) ;;
  fileobj <- BytesIO value ;;
  members <- TarFile.open_r fileobj ;;
  tarinfo_1st_member <- (fun w => (Py_.getitem members 0, w)) ;;
  if isfile tarinfo_1st_member then
    p <- as_path pathname ;;
    Os.open_wb p (payload tarinfo_1st_member)
  else
    for_each members (fun tar_item =>
      p <- as_path pathname ;;
      TarFile.extract (strip_topdir tar_item) p).

(** [StoreFiles._copy_logic(pers_storage, pathname, keys)], with
    [pers_storage] the singleton [STORAGE] as at every call site. *)
Definition _copy_logic (pathname : value) (keys : list key) : Py unit :=
  original_cwd <- Os.getcwd ;;
  fun w =>
    if is_write_mode (STORAGE w)
    then try_finally (pack pathname keys) (Os.chdir original_cwd) w
    else unpack pathname keys w.

(** [StoreFiles.return_value(func)]. *)
Definition return_value (func : callable) : callable :=
  fun args kwargs =>
    rec <- get_if_recording ;;
    if negb rec then func args kwargs
    else
      output <- store_function_output func args kwargs ;;
      test_id <- _test_identifier ;;
      _copy_logic output [KStr __name__; KStr test_id] ;;
      ret output.

(** One candidate of [guess_args]: the body run for a string argument
    [arg] filed under [keys]. *)
Definition guess_one (arg : string) (keys : list key) : Py unit :=
  fun w =>
    if is_write_mode (STORAGE w)
    then (present <- Os.path_exists arg ;;
          if present then _copy_logic (VStr arg) keys else ret tt) w
    else try_except_pass (_copy_logic (VStr arg) keys) w.

(** [StoreFiles.guess_args(func)]. *)
Definition guess_args (func : callable) : callable :=
  fun args kwargs =>
    test_id <- _test_identifier ;;
    let class_test_id_list := [KStr __name__; KStr test_id] in
    rec <- get_if_recording ;;
    if negb rec then func args kwargs
    else
      output <- store_function_output func args kwargs ;;
      for_each (Py_.enumerate args) (fun '(position, arg) =>
        match arg with
        | VStr s => guess_one s (class_test_id_list ++ [KInt position])
        | _ => ret tt
        end) ;;
      for_each kwargs (fun '(k, v) =>
        match v with
        | VStr s => guess_one s (class_test_id_list ++ [KStr k])
        | _ => ret tt
        end) ;;
      ret output.

(** The arguments [guess_args] takes for paths: the positional strings with
    their positions, then the keyword strings with their names. *)
Definition candidates (args : list value) (kwargs : list (string * value))
  : list (key * string) :=
  flat_map (fun '(position, arg) =>
              match arg with VStr s => [(KInt position, s)] | _ => [] end)
           (Py_.enumerate args)
  ++ flat_map (fun '(k, v) =>
                 match v with VStr s => [(KStr k, s)] | _ => [] end)
              kwargs.

(** The candidates of [cs] for which the storage content [so] holds an
    artifact under the key sequence [guess_args] builds. *)
Definition recorded_candidates (ctl : list key)
  (so : list (list key * value)) (cs : list (key * string))
  : list (key * string) :=
  filter (fun '(key, _) =>
            match storage_get (basic_ps_keys ++ ctl ++ [key]) so with
            | Some _ => true
            | None => false
            end) cs.

(** [isinstance(arg, str)]. *)
Definition is_str (v : value) : bool :=
  match v with VStr _ => true | _ => false end.

(** A [store] call for one of the candidates [cs] whose path exists in
    world [w], under the candidate's key sequence. *)
Definition stores_of (ctl : list key) (cs : list (key * string)) (w : World)
  (c : call) : Prop :=
  exists key s v,
    In (key, s) cs /\ Os.lstat s w <> None
    /\ c = CallStore (basic_ps_keys ++ ctl ++ [key]) v.

(** [param = kwargs[key] if key in kwargs else args[position]]. *)
Definition param_of (args : list value) (kwargs : list (string * value))
  (key : string) (position : Z) : Py value :=
  match Fs.assoc key kwargs with
  | Some v => ret v
  | None => fun w => (Py_.getitem args position, w)
  end.

(** One entry of [files_params]: the body of the loop of
    [arg_references]. *)
Definition reference_one (args : list value) (kwargs : list (string * value))
  (class_test_id_list : list key) (key : string) (position : Z) : Py unit :=
  param <- param_of args kwargs key position ;;
  _copy_logic param (class_test_id_list ++ [KStr key]).

(** [StoreFiles.arg_references(files_params)(func)]. *)
Definition arg_references (files_params : list (string * Z))
  (func : callable) : callable :=
  fun args kwargs =>
    test_id <- _test_identifier ;;
    let class_test_id_list := [KStr __name__; KStr test_id] in
    rec <- get_if_recording ;;
    if negb rec then func args kwargs
    else
      output <- store_function_output func args kwargs ;;
      for_each files_params (fun '(key, position) =>
        reference_one args kwargs class_test_id_list key position) ;;
      ret output.

(** The reading of the replay of [return_value] as passive: the decorated
    call leaves the calls received by the storage and the filesystem as the
    capture primitive left them. *)
Definition replay_without_unpack (func : callable) (args : list value)
  (kwargs : list (string * value)) (w : World) : Prop :=
  let captured := snd (store_function_output func args kwargs w) in
  let w' := snd (return_value func args kwargs w) in
  calls (STORAGE w') = calls (STORAGE captured) /\ fs w' = fs captured.

(** The reading of the record pass of the scenario: afterwards the storage
    holds one entry, under the class name, the test identifier and the
    argument. *)
Definition recorded_under_argument (w' : World) : Prop :=
  exists v,
    storage_object (STORAGE w')
    = [([KStr "StoreFiles"; KStr "test1"; KStr "src_dir"], v)].

End WithCollaborators.
End StoreFiles.

(* ================================================================== *)
(** * Worlds used as concrete inputs *)
(* ================================================================== *)

Module Scenario.

Definition text (s : string) : bytes := list_byte_of_string s.

(** The directory of the record pass: [a.txt] and [b/c.txt]. *)
Definition src_dir (a c : bytes) : node :=
  Dir [("b", Dir [("c.txt", File c)]); ("a.txt", File a)].

(** [/data] keeps the storage file, [/w] is the working directory and
    holds [src_dir] and a single file [note.txt]. *)
Definition root : node :=
  Dir [("data", Dir []);
       ("w", Dir [("src_dir", src_dir (text "alpha") (text "gamma"));
                  ("note.txt", File (text "hello"))])].

Definition storage (write : bool) (content : list (list key * @value plain_codec))
  : @PersistentObjectStorage plain_codec :=
  mkStorage write "/data/test1" content [].

(** A process in the record pass ([write = true]) or the replay pass. *)
Definition world (rec write : bool) (content : list (list key * @value plain_codec))
  : @World plain_codec :=
  mkWorld root ["w"] rec (storage write content).

(** A wrapped function that returns [v] and touches nothing. *)
Definition returns (v : @value plain_codec) : @callable plain_codec :=
  fun _ _ => ret v.

(** The capture primitive as a plain pass-through. *)
Definition passthrough : @callable plain_codec -> @callable plain_codec :=
  fun func => func.

(** An archive of one regular file. *)
Definition note_archive : @value plain_codec :=
  VBytes (@tar_write plain_codec [mkTarInfo "note.txt" REGTYPE (text "hello")]).

(** The key sequence [return_value] builds for test [test1]. *)
Definition note_keys : list key := [KStr "StoreFiles"; KStr "test1"].

(** The replay pass with [note_archive] recorded for [return_value]. *)
Definition replay_world : @World plain_codec :=
  world true false
    [([KStr "X"; KStr "file"; KStr "tar"] ++ note_keys, note_archive)].

(** The archive of [src_dir] as the record pass makes it. *)
Definition src_archive : @value plain_codec :=
  VBytes (@tar_write plain_codec
            (Tar.members "src_dir" (src_dir (text "alpha") (text "gamma")))).

(** The replay pass with the value [v] recorded under [ks]. *)
Definition replay_with (ks : list key) (v : @value plain_codec)
  : @World plain_codec :=
  world true false [([KStr "X"; KStr "file"; KStr "tar"] ++ ks, v)].

(** A codec with bytes that are no archive: [None]. *)
Definition partial_codec : TarCodec :=
  {| blob := option (list TarInfo);
     tar_write := fun ms => Some ms;
     tar_read := fun b => b |}.

(** The replay pass with bytes that are no archive recorded for
    [return_value]. *)
Definition garbage_world : @World partial_codec :=
  mkWorld root ["w"] true
    (mkStorage false "/data/test1"
       [([KStr "X"; KStr "file"; KStr "tar"] ++ note_keys,
         @VBytes partial_codec None)] []).

End Scenario.

(* ================================================================== *)
(** * Lemmas and theorems *)
(* ================================================================== *)

Unset Implicit Arguments.

(** ** The path functions on examples *)

Example split_ex : OsPath.split "a//b/" = ["a"; ""; "b"; ""].
Proof. reflexivity. Qed.
Example split1_ex : OsPath.split1 "top/b/c.txt" = ["top"; "b/c.txt"].
Proof. reflexivity. Qed.
Example split1_ex2 : OsPath.split1 "top" = ["top"].
Proof. reflexivity. Qed.
Example dirname_ex : OsPath.dirname "/tmp/x/src_dir" = "/tmp/x".
Proof. reflexivity. Qed.
Example dirname_ex2 : OsPath.dirname "src_dir" = "".
Proof. reflexivity. Qed.
Example dirname_ex3 : OsPath.dirname "/src_dir" = "/".
Proof. reflexivity. Qed.
Example dirname_ex4 : OsPath.dirname "a//b" = "a".
Proof. reflexivity. Qed.
Example basename_ex : OsPath.basename "/tmp/x/src_dir" = "src_dir".
Proof. reflexivity. Qed.
Example basename_ex2 : OsPath.basename "/tmp/x/" = "".
Proof. reflexivity. Qed.
Example join_ex : OsPath.join "/t" "b/c" = "/t/b/c".
Proof. reflexivity. Qed.
Example join_ex2 : OsPath.join "/t/" "." = "/t/.".
Proof. reflexivity. Qed.
Example abs_ex : OsPath.absolute ["w"] "a/./b/../c" = ["w"; "a"; "c"].
Proof. reflexivity. Qed.
Example abs_ex2 : OsPath.absolute ["w"] "/a//b/" = ["a"; "b"].
Proof. reflexivity. Qed.
Example render_ex : OsPath.render ["w"; "a"] = "/w/a".
Proof. reflexivity. Qed.

(** ** The system calls on examples

    The process of [Scenario.world]: working directory [/w], which holds the
    directory [src_dir] (with [a.txt] and [b/c.txt]) and the file
    [note.txt]. *)

Example chdir_empty :
  fst (Os.chdir "" (Scenario.world true true [])) = Raised FileNotFoundError.
Proof. reflexivity. Qed.
Example chdir_file :
  fst (Os.chdir "note.txt" (Scenario.world true true []))
  = Raised NotADirectoryError.
Proof. reflexivity. Qed.
Example chdir_up :
  cwd (snd (Os.chdir "src_dir/b/../.." (Scenario.world true true []))) = ["w"].
Proof. reflexivity. Qed.
Example exists_through_file :
  map (fun p => fst (Os.path_exists p (Scenario.world true true [])))
      ["src_dir"; "src_dir/."; "note.txt"; "note.txt/"; "note.txt/.";
       "nodir/.."; ""]
  = map Returned [true; true; true; false; false; false; false].
Proof. reflexivity. Qed.
Example open_wb_errors :
  map (fun p => fst (Os.open_wb p [] (Scenario.world true true [])))
      ["src_dir"; "nodir/x"; "note.txt/x"; "new/"; "src_dir/b/../new.txt"]
  = [Raised IsADirectoryError; Raised FileNotFoundError;
     Raised NotADirectoryError; Raised IsADirectoryError; Returned tt].
Proof. reflexivity. Qed.
Example mkdir_errors :
  map (fun p => fst (Os.mkdir p (Scenario.world true true [])))
      ["new/"; "src_dir"; "note.txt"; "new/."; "note.txt/.."; "nodir/new"]
  = [Returned tt; Raised FileExistsError; Raised FileExistsError;
     Raised FileNotFoundError; Raised NotADirectoryError;
     Raised FileNotFoundError].
Proof. reflexivity. Qed.
Example members_ex :
  map name (Tar.members "src_dir"
              (Scenario.src_dir (Scenario.text "alpha") (Scenario.text "gamma")))
  = ["src_dir"; "src_dir/a.txt"; "src_dir/b"; "src_dir/b/c.txt"].
Proof. reflexivity. Qed.
Example strip_topdir_ex :
  map (fun n => name (StoreFiles.strip_topdir (mkTarInfo n DIRTYPE [])))
      ["src_dir"; "src_dir/b"; "src_dir/b/c.txt"; "src_dir/"]
  = ["."; "b"; "b/c.txt"; ""].
Proof. reflexivity. Qed.

(** ** The monad *)

Section MonadFacts.
Context {codec : TarCodec}.

Lemma for_each_app {A} (l1 l2 : list A) (body : A -> Py unit) w :
  for_each (l1 ++ l2) body w
  = bind (for_each l1 body) (fun _ => for_each l2 body) w.
Proof.
  revert w. induction l1 as [|x l1 IH]; intros w; simpl.
  - reflexivity.
  - unfold bind in *. destruct (body x w) as [[[]|e] w1].
    + apply IH.
    + reflexivity.
Qed.

End MonadFacts.

(** ** Path strings *)

Module OsPathFacts.
Import OsPath.

Local Notation "a +++ b" := (String.append a b) (at level 60, right associativity).

Lemma append_assoc (a b c : string) : (a +++ b) +++ c = a +++ (b +++ c).
Proof. induction a; simpl; congruence. Qed.

Lemma append_empty_r (a : string) : a +++ "" = a.
Proof. induction a; simpl; congruence. Qed.

(** *** [split] *)

Lemma split_not_nil s : split s <> [].
Proof.
  destruct s as [|c s]; simpl; [discriminate|].
  destruct (is_sep c); [discriminate|]. destruct (split s); discriminate.
Qed.

Lemma split_app_sep a b : split (a +++ String sep b) = split a ++ split b.
Proof.
  induction a as [|c a IH]; simpl.
  - reflexivity.
  - destruct (is_sep c).
    + now rewrite IH.
    + rewrite IH. destruct (split a) eqn:E; [now apply split_not_nil in E|].
      reflexivity.
Qed.

Lemma split_nosep s : has_sep s = false -> split s = [s].
Proof.
  induction s as [|c s IH]; simpl; intros H; [reflexivity|].
  apply orb_false_elim in H as [Hc Hs]. rewrite Hc, (IH Hs). reflexivity.
Qed.

(** *** [partition] *)

Lemma partition_sep a b :
  has_sep a = false -> partition (a +++ String sep b) = Some (a, b).
Proof.
  induction a as [|c a IH]; simpl; intros H.
  - reflexivity.
  - apply orb_false_elim in H as [Hc Hs]. now rewrite Hc, (IH Hs).
Qed.

Lemma partition_nosep s : has_sep s = false -> partition s = None.
Proof.
  induction s as [|c s IH]; simpl; intros H; [reflexivity|].
  apply orb_false_elim in H as [Hc Hs]. now rewrite Hc, (IH Hs).
Qed.

(** *** [rcut], [basename], [dirname] *)

Lemma rcut_nosep f : has_sep f = false -> rcut f = ("", f).
Proof.
  induction f as [|c f IH]; simpl; intros H; [reflexivity|].
  apply orb_false_elim in H as [Hc Hs]. now rewrite (IH Hs), Hc.
Qed.

Lemma rcut_sep y f :
  has_sep f = false -> rcut (y +++ String sep f) = (y +++ String sep "", f).
Proof.
  intros Hf. induction y as [|c y IH]; simpl.
  - now rewrite (rcut_nosep _ Hf).
  - rewrite IH. destruct y; reflexivity.
Qed.

(** *** [rstrip] *)

Lemma rstrip_id s : endswith_sep s = false -> rstrip s = s.
Proof.
  induction s as [|c s IH]; simpl; intros H; [reflexivity|].
  destruct s as [|c' s].
  - simpl. now rewrite H.
  - rewrite (IH H). reflexivity.
Qed.

Lemma rstrip_cons_nonsep c y :
  is_sep c = false -> rstrip (String c y) = String c (rstrip y).
Proof. intros H. simpl. rewrite H. now destruct (rstrip y). Qed.

Lemma rstrip_split y :
  exists k, split y = split (rstrip y) ++ repeat "" k.
Proof.
  induction y as [|c y [k IH]].
  - exists 0. reflexivity.
  - destruct (is_sep c) eqn:Hc.
    + simpl. rewrite Hc. destruct (rstrip y) as [|c' r] eqn:Hr.
      * exists (S k). rewrite IH. reflexivity.
      * exists k. rewrite IH. simpl. rewrite Hc. reflexivity.
    + exists k. rewrite (rstrip_cons_nonsep _ _ Hc). simpl. rewrite Hc, IH.
      destruct (split (rstrip y)) eqn:Es; [now apply split_not_nil in Es|].
      reflexivity.
Qed.

Lemma rstrip_all_sep y : all_sep y = false -> nonempty (rstrip y) = true
  /\ startswith_sep (rstrip y) = startswith_sep y.
Proof.
  induction y as [|c y IH]; simpl; intros H; [discriminate|].
  destruct (is_sep c) eqn:Hc; simpl in H.
  - destruct (IH H) as [Hn _]. destruct (rstrip y); [discriminate|].
    simpl. auto.
  - destruct (rstrip y); simpl; auto.
Qed.

(** *** [walk] *)

Lemma step_valid b c : valid_name c = true -> step b c = b ++ [c].
Proof.
  unfold valid_name, step. intros H.
  apply andb_prop in H as [H H3]. apply andb_prop in H as [H H2].
  apply andb_prop in H as [H0 H1].
  destruct c; [discriminate|].
  apply negb_true_iff in H2, H3. rewrite H2, H3. reflexivity.
Qed.

(** *** Names *)

Lemma valid_name_nosep c : valid_name c = true -> has_sep c = false.
Proof.
  unfold valid_name. intros H.
  apply andb_prop in H as [H _]. apply andb_prop in H as [H _].
  apply andb_prop in H as [_ H]. now apply negb_true_iff in H.
Qed.

Lemma valid_name_nonempty c : valid_name c = true -> nonempty c = true.
Proof.
  unfold valid_name. intros H.
  apply andb_prop in H as [H _]. apply andb_prop in H as [H _].
  now apply andb_prop in H as [H _].
Qed.

Lemma nosep_ends s : has_sep s = false -> endswith_sep s = false.
Proof.
  induction s as [|c s IH]; simpl; intros H; [reflexivity|].
  apply orb_false_elim in H as [Hc Hs]. destruct s; auto.
Qed.

Lemma nosep_starts s : has_sep s = false -> startswith_sep s = false.
Proof. destruct s; simpl; intros H; auto. now apply orb_false_elim in H. Qed.

Lemma endswith_app a b :
  nonempty b = true -> endswith_sep (a +++ b) = endswith_sep b.
Proof.
  intros Hb. induction a as [|c a IH]; simpl; auto.
  destruct (a +++ b) eqn:E; auto.
  destruct a, b; simpl in *; discriminate.
Qed.

Lemma nonempty_app_r a b : nonempty b = true -> nonempty (a +++ b) = true.
Proof. destruct a, b; simpl; auto. Qed.

Lemma nonempty_app_l a b : nonempty a = true -> nonempty (a +++ b) = true.
Proof. destruct a; simpl; auto. discriminate. Qed.

Lemma startswith_app a b :
  nonempty a = true -> startswith_sep (a +++ b) = startswith_sep a.
Proof. destruct a; simpl; auto. discriminate. Qed.

Lemma endswith_cut t :
  endswith_sep t = true -> exists y, t = y +++ String sep "".
Proof.
  induction t as [|c t IH]; simpl; intros H; [discriminate|].
  destruct t as [|c' t].
  - exists "". simpl. apply Ascii.eqb_eq in H. now subst.
  - destruct (IH H) as [y Hy]. exists (String c y). simpl. now rewrite <- Hy.
Qed.

Lemma all_sep_app a b : all_sep (a +++ b) = all_sep a && all_sep b.
Proof. induction a; simpl; auto. rewrite IHa. now rewrite andb_assoc. Qed.

Lemma rstrip_app_sep y : rstrip (y +++ String sep "") = rstrip y.
Proof.
  induction y as [|c y IH]; simpl; [reflexivity|]. now rewrite IH.
Qed.

(** *** [relpath] *)

Lemma relpath_snoc rs f :
  rs <> [] -> relpath (rs ++ [f]) = relpath rs +++ String sep f.
Proof.
  induction rs as [|c rs IH]; intros H; [congruence|].
  destruct rs as [|c' rs].
  - reflexivity.
  - change (relpath ((c :: c' :: rs) ++ [f]))
      with (c +++ String sep (relpath ((c' :: rs) ++ [f]))).
    rewrite IH by discriminate.
    change (relpath (c :: c' :: rs)) with (c +++ String sep (relpath (c' :: rs))).
    now rewrite append_assoc.
Qed.

Lemma relpath_cons c rs :
  rs <> [] -> relpath (c :: rs) = c +++ String sep (relpath rs).
Proof. destruct rs; [congruence|reflexivity]. Qed.

Lemma split_relpath rs :
  rs <> [] -> forallb valid_name rs = true -> split (relpath rs) = rs.
Proof.
  induction rs as [|c rs IH]; intros Hne H; [congruence|].
  simpl in H. apply andb_prop in H as [Hc Hrs].
  destruct rs as [|c' rs].
  - simpl. apply split_nosep. now apply valid_name_nosep.
  - rewrite relpath_cons by discriminate. rewrite split_app_sep.
    rewrite IH by (auto; discriminate).
    rewrite split_nosep by now apply valid_name_nosep. reflexivity.
Qed.

Lemma relpath_starts rs :
  forallb valid_name rs = true -> startswith_sep (relpath rs) = false.
Proof.
  destruct rs as [|c rs]; simpl; intros H; [reflexivity|].
  apply andb_prop in H as [Hc _].
  pose proof (nosep_starts _ (valid_name_nosep _ Hc)) as Hs.
  destruct rs; auto.
  rewrite startswith_app; auto using valid_name_nonempty.
Qed.

Lemma relpath_nonempty rs :
  rs <> [] -> forallb valid_name rs = true -> nonempty (relpath rs) = true.
Proof.
  destruct rs as [|c rs]; simpl; intros Hne H; [congruence|].
  apply andb_prop in H as [Hc _]. destruct rs.
  - now apply valid_name_nonempty.
  - apply nonempty_app_l. now apply valid_name_nonempty.
Qed.

Lemma relpath_ends rs :
  forallb valid_name rs = true -> endswith_sep (relpath rs) = false.
Proof.
  induction rs as [|c rs IH]; simpl; intros H; [reflexivity|].
  apply andb_prop in H as [Hc Hrs]. destruct rs as [|c' rs].
  - apply nosep_ends. now apply valid_name_nosep.
  - rewrite endswith_app.
    + change (endswith_sep (String sep (relpath (c' :: rs))))
        with (endswith_sep (String sep "" +++ relpath (c' :: rs))).
      rewrite endswith_app; auto.
      apply relpath_nonempty; [discriminate|auto].
    + reflexivity.
Qed.

End OsPathFacts.

(** ** The filesystem *)

Module FsFacts.
Import Fs.

Lemma assoc_set_eq A c (v : A) es : assoc c (set c v es) = Some v.
Proof.
  induction es as [|[k x] es IH]; simpl.
  - now rewrite String.eqb_refl.
  - destruct (String.eqb c k) eqn:E; simpl.
    + now rewrite String.eqb_refl.
    + now rewrite E.
Qed.

Lemma assoc_set_ne A c c' (v : A) es :
  c <> c' -> assoc c' (set c v es) = assoc c' es.
Proof.
  intros Hne. induction es as [|[k x] es IH]; simpl.
  - destruct (String.eqb_spec c' c); congruence.
  - destruct (String.eqb_spec c k); simpl.
    + subst k. destruct (String.eqb_spec c' c); congruence.
    + destruct (String.eqb c' k); auto.
Qed.

Lemma strip_prefix_app p r : strip_prefix p (p ++ r) = Some r.
Proof. induction p; simpl; auto. now rewrite String.eqb_refl. Qed.

Lemma strip_prefix_Some p q r : strip_prefix p q = Some r -> q = p ++ r.
Proof.
  revert q. induction p as [|c p IH]; intros [|c' q]; simpl; try congruence.
  destruct (String.eqb_spec c c'); try congruence.
  intros H. subst. f_equal. auto.
Qed.

Lemma stat_cons_dir c q es :
  stat (c :: q) (Dir es)
  = match assoc c es with Some child => stat q child | None => None end.
Proof. unfold stat. simpl. now destruct (assoc c es). Qed.

(** What [alter] leaves alone: every path that does not run through [p]. *)
Lemma alter_frame p f : forall n n',
  alter p f n = Returned n' ->
  forall q, strip_prefix p q = None -> stat q n' = stat q n.
Proof.
  induction p as [|c p IH]; intros n n' Ha q Hq; simpl in *.
  - discriminate.
  - destruct n as [d|es]; [discriminate|].
    destruct q as [|c' q].
    + destruct (assoc c es) as [child|].
      * destruct (alter p f child); inversion Ha; reflexivity.
      * destruct p; [|discriminate].
        destruct (f None); inversion Ha; reflexivity.
    + destruct (String.eqb_spec c c') as [->|Hne].
      * destruct (assoc c' es) as [child|] eqn:Hc.
        -- destruct (alter p f child) as [child'|] eqn:Hch; inversion Ha; subst.
           rewrite !stat_cons_dir, assoc_set_eq, Hc. eauto.
        -- destruct p; [discriminate Hq|discriminate Ha].
      * assert (Hs : forall v, stat (c' :: q) (Dir (set c v es)) = stat (c' :: q) (Dir es)).
        { intros v. rewrite !stat_cons_dir, assoc_set_ne; auto. }
        destruct (assoc c es) as [child|].
        -- destruct (alter p f child); inversion Ha; apply Hs.
        -- destruct p; [|discriminate].
           destruct (f None); inversion Ha; apply Hs.
Qed.

(** What [alter] puts at [p]. *)
Lemma alter_at p f : forall n n',
  alter p f n = Returned n' ->
  exists new, f (lookup p n) = Returned new
              /\ forall r, lookup (p ++ r) n' = lookup r new.
Proof.
  induction p as [|c p IH]; intros n n' Ha; simpl in *.
  - exists n'. split; auto.
  - destruct n as [d|es]; [discriminate|].
    destruct (assoc c es) as [child|] eqn:Hc.
    + destruct (alter p f child) as [child'|] eqn:Hch; inversion Ha; subst.
      destruct (IH _ _ Hch) as (new & Hf & Hl).
      exists new. split; auto. intros r. rewrite assoc_set_eq. apply Hl.
    + destruct p; [|discriminate]. simpl.
      destruct (f None) as [new|] eqn:Hf; inversion Ha; subst.
      exists new. split; auto. intros r. now rewrite assoc_set_eq.
Qed.

(** When [alter] goes through: the parent is a directory. *)
Lemma alter_ok par c f new : forall n,
  stat par n = Some KDir ->
  f (lookup (par ++ [c]) n) = Returned new ->
  exists n', alter (par ++ [c]) f n = Returned n'.
Proof.
  induction par as [|a par IH]; intros n Hpar Hf; simpl in *.
  - destruct n as [d|es]; [discriminate|].
    destruct (assoc c es) as [child|] eqn:Hc; simpl in *; rewrite Hf; eauto.
  - destruct n as [d|es]; [discriminate|].
    rewrite stat_cons_dir in Hpar.
    destruct (assoc a es) as [child|] eqn:Hc; [|discriminate].
    destruct (IH child Hpar Hf) as [n' Hn']. rewrite Hn'. eauto.
Qed.

End FsFacts.

(** ** Filesystem operations, seen through [stat] *)

Module FsSpecs.
Import Fs FsFacts.

Lemma lookup_app p : forall r n,
  lookup (p ++ r) n
  = match lookup p n with Some m => lookup r m | None => None end.
Proof.
  induction p as [|c p IH]; intros r n; simpl; [reflexivity|].
  destruct n as [d|es]; [reflexivity|].
  destruct (assoc c es); auto.
Qed.

Lemma stat_below_none p r n : stat p n = None -> stat (p ++ r) n = None.
Proof.
  unfold stat. rewrite lookup_app. now destruct (lookup p n).
Qed.

(** Above something that exists there are directories only. *)
Lemma stat_above p r n k :
  stat (p ++ r) n = Some k -> r <> [] -> stat p n = Some KDir.
Proof.
  unfold stat. rewrite lookup_app.
  destruct (lookup p n) as [[d|es]|]; simpl; try discriminate; auto.
  destruct r; [congruence|discriminate].
Qed.

Lemma alter_raised p f e : forall n m,
  lookup p n = Some m -> f (Some m) = Raised e -> alter p f n = Raised e.
Proof.
  induction p as [|c p IH]; intros n m Hl Hf; simpl in *.
  - inversion Hl; subst. exact Hf.
  - destruct n as [d|es]; [discriminate|].
    destruct (assoc c es) as [child|]; [|discriminate].
    now rewrite (IH _ _ Hl Hf).
Qed.

(** What [alter] did, seen through [stat], when the new node is a leaf
    and replaces nothing that had entries. *)
Lemma alter_stat p f n n' new :
  alter p f n = Returned n' ->
  f (lookup p n) = Returned new ->
  (forall c r, lookup (c :: r) new = None) ->
  (forall c r, stat (p ++ c :: r) n = None) ->
  forall q, stat q n' = if path_eq_dec q p then Some (kind_of new) else stat q n.
Proof.
  intros Ha Hf Hleaf Hold q.
  destruct (strip_prefix p q) as [r|] eqn:Hs.
  - apply strip_prefix_Some in Hs. subst q.
    destruct (alter_at _ _ _ _ Ha) as (new' & Hf' & Hl).
    rewrite Hf in Hf'. inversion Hf'; subst new'.
    unfold stat at 1. rewrite Hl.
    destruct r as [|c r].
    + rewrite app_nil_r. destruct (path_eq_dec p p); [reflexivity|congruence].
    + rewrite Hleaf. simpl.
      destruct (path_eq_dec (p ++ c :: r) p) as [E|_].
      * exfalso. apply (f_equal (@length _)) in E.
        rewrite length_app in E. simpl in E. lia.
      * now rewrite Hold.
  - rewrite (alter_frame _ _ _ _ Ha _ Hs).
    destruct (path_eq_dec q p) as [->|_]; [|reflexivity].
    rewrite <- (app_nil_r p) in Hs at 2. rewrite strip_prefix_app in Hs.
    discriminate.
Qed.

(** [open(p, "wb").write(d)]: afterwards [p] is a regular file with bytes
    [d]; nothing else has changed. *)
Lemma write_file_stat p d n n' :
  write_file p d n = Returned n' ->
  forall q, stat q n' = if path_eq_dec q p then Some (KFile d) else stat q n.
Proof.
  intros Ha. unfold write_file in Ha.
  destruct (alter_at _ _ _ _ Ha) as (new & Hf & _).
  assert (new = File d)
    by (destruct (lookup p n) as [[?|?]|]; inversion Hf; reflexivity).
  subst new.
  apply (alter_stat _ _ _ _ _ Ha Hf).
  - reflexivity.
  - intros c r. unfold stat. rewrite lookup_app.
    destruct (lookup p n) as [[?|?]|]; try discriminate; reflexivity.
Qed.

Lemma write_file_ok par c d n :
  stat par n = Some KDir ->
  stat (par ++ [c]) n <> Some KDir ->
  exists n', write_file (par ++ [c]) d n = Returned n'.
Proof.
  intros Hpar Hp. unfold write_file.
  apply alter_ok with (new := File d); auto.
  unfold stat in Hp. destruct (lookup (par ++ [c]) n) as [[?|?]|]; simpl in *;
    congruence.
Qed.

(** [os.mkdir(p)]: afterwards [p] is a directory; nothing else has changed. *)
Lemma mkdir_stat p n n' :
  mkdir p n = Returned n' ->
  forall q, stat q n' = if path_eq_dec q p then Some KDir else stat q n.
Proof.
  intros Ha. unfold mkdir in Ha.
  destruct (alter_at _ _ _ _ Ha) as (new & Hf & _).
  destruct (lookup p n) as [m|] eqn:Hl; [discriminate|].
  inversion Hf; subst new.
  apply (alter_stat _ _ _ _ (Dir []) Ha); auto.
  - now rewrite Hl.
  - intros c r. unfold stat. now rewrite lookup_app, Hl.
Qed.

Lemma mkdir_ok par c n :
  stat par n = Some KDir ->
  stat (par ++ [c]) n = None ->
  exists n', mkdir (par ++ [c]) n = Returned n'.
Proof.
  intros Hpar Hp. unfold mkdir.
  apply alter_ok with (new := Dir []); auto.
  unfold stat in Hp. now destruct (lookup (par ++ [c]) n).
Qed.

Lemma mkdir_exists p n k :
  stat p n = Some k -> mkdir p n = Raised FileExistsError.
Proof.
  unfold stat, mkdir. destruct (lookup p n) as [m|] eqn:Hl; [|discriminate].
  intros _. now apply alter_raised with (m := m).
Qed.

(** Under an existing parent [os.makedirs] is [os.mkdir]. *)
Lemma makedirs_mkdir par c : forall n,
  stat par n = Some KDir ->
  stat (par ++ [c]) n = None ->
  makedirs (par ++ [c]) n = mkdir (par ++ [c]) n.
Proof.
  unfold mkdir.
  induction par as [|a par IH]; intros n Hpar Hp; simpl in *.
  - destruct n as [d|es]; [reflexivity|].
    rewrite stat_cons_dir in Hp.
    destruct (assoc c es) as [child|]; [discriminate|]. reflexivity.
  - destruct n as [d|es]; [reflexivity|].
    rewrite stat_cons_dir in Hpar, Hp.
    destruct (assoc a es) as [child|]; [|discriminate].
    now rewrite (IH child Hpar Hp).
Qed.

(** *** Paths below paths *)

Lemma strip_prefix_snoc p c : forall q,
  strip_prefix (p ++ [c]) q
  = match strip_prefix p q with
    | Some (c' :: r) => if String.eqb c c' then Some r else None
    | _ => None
    end.
Proof.
  induction p as [|a p IH]; intros q; simpl.
  - destruct q as [|c' r]; [reflexivity|]. now destruct (String.eqb c c').
  - destruct q as [|a' q]; [reflexivity|].
    destruct (String.eqb a a'); auto.
Qed.

Lemma path_eq_refl {A} p (a b : A) : (if path_eq_dec p p then a else b) = a.
Proof. destruct (path_eq_dec p p); congruence. Qed.

Lemma path_eq_longer {A} p c r (a b : A) :
  (if path_eq_dec (p ++ c :: r) p then a else b) = b.
Proof.
  destruct (path_eq_dec (p ++ c :: r) p) as [E|_]; [|reflexivity].
  apply (f_equal (@length _)) in E. rewrite length_app in E. simpl in E. lia.
Qed.

Lemma strip_prefix_refl p : strip_prefix p p = Some [].
Proof. rewrite <- (app_nil_r p) at 2. apply strip_prefix_app. Qed.

(** *** Well-formed trees *)

Lemma names_ok_spec ns :
  names_ok ns = true <-> (Forall (fun c => OsPath.valid_name c = true) ns /\ NoDup ns).
Proof.
  induction ns as [|c ns IH]; simpl.
  - split; [split; constructor|reflexivity].
  - rewrite !andb_true_iff, IH, negb_true_iff. split.
    + intros [[Hv Hn] [Hf Hd]]. split; constructor; auto.
      intros Hin. assert (existsb (String.eqb c) ns = true).
      { apply existsb_exists. exists c. split; auto. apply String.eqb_refl. }
      congruence.
    + intros [Hf Hd]. inversion Hf; subst. inversion Hd; subst.
      repeat split; auto.
      destruct (existsb (String.eqb c) ns) eqn:E; auto.
      apply existsb_exists in E as (x & Hx & Hc).
      apply String.eqb_eq in Hc. subst x. contradiction.
Qed.

Lemma assoc_In A c (v : A) es : assoc c es = Some v -> In (c, v) es.
Proof.
  induction es as [|[k x] es IH]; simpl; [discriminate|].
  destruct (String.eqb_spec c k) as [->|_].
  - intros H. inversion H. auto.
  - auto.
Qed.

Lemma In_assoc A c (v : A) es :
  NoDup (map fst es) -> In (c, v) es -> assoc c es = Some v.
Proof.
  induction es as [|[k x] es IH]; simpl; intros Hd Hin; [contradiction|].
  inversion Hd; subst.
  destruct Hin as [E|Hin].
  - inversion E; subst. now rewrite String.eqb_refl.
  - destruct (String.eqb_spec c k) as [->|_]; auto.
    exfalso. apply H1. apply in_map_iff. exists (k, v). auto.
Qed.

Lemma assoc_None A c (es : list (string * A)) :
  assoc c es = None <-> ~ In c (map fst es).
Proof.
  induction es as [|[k x] es IH]; simpl.
  - tauto.
  - destruct (String.eqb_spec c k) as [->|Hne].
    + split; [discriminate|]. intros H. exfalso. auto.
    + rewrite IH. split; [intros H [E|Hin]; congruence|tauto].
Qed.

Lemma assoc_perm A c (l l' : list (string * A)) :
  NoDup (map fst l) -> Permutation l l' -> assoc c l = assoc c l'.
Proof.
  intros Hd Hp.
  assert (Hd' : NoDup (map fst l'))
    by (eapply Permutation_NoDup; [apply Permutation_map, Hp|auto]).
  destruct (assoc c l) as [v|] eqn:E.
  - symmetry. apply In_assoc; auto.
    eapply Permutation_in; [exact Hp|]. now apply assoc_In.
  - destruct (assoc c l') as [v|] eqn:E'; auto.
    apply assoc_In in E'. apply Permutation_sym in Hp.
    apply (Permutation_in _ Hp) in E'. apply In_assoc in E'; auto. congruence.
Qed.

Lemma wf_dir es :
  wf (Dir es) = true ->
  Forall (fun c => OsPath.valid_name c = true) (map fst es)
  /\ NoDup (map fst es)
  /\ Forall (fun e => wf (snd e) = true) es.
Proof.
  simpl. intros H. apply andb_prop in H as [Hn Hf].
  apply names_ok_spec in Hn as [Hv Hd]. repeat split; auto.
  apply Forall_forall. now apply forallb_forall.
Qed.

Lemma wf_lookup p : forall n m,
  wf n = true -> lookup p n = Some m -> wf m = true.
Proof.
  induction p as [|c p IH]; intros n m Hwf Hl; simpl in *.
  - now inversion Hl; subst.
  - destruct n as [d|es]; [discriminate|].
    destruct (assoc c es) as [child|] eqn:Hc; [|discriminate].
    apply (IH child); auto.
    apply wf_dir in Hwf as (_ & _ & Hf).
    rewrite Forall_forall in Hf. apply (Hf (c, child)). now apply assoc_In.
Qed.

(** Induction on trees, with the hypothesis for every entry. *)
Lemma node_rect' (P : node -> Prop) :
  (forall d, P (File d)) ->
  (forall es, Forall (fun e => P (snd e)) es -> P (Dir es)) ->
  forall n, P n.
Proof.
  intros HF HD.
  fix IH 1. intros [d|es].
  - apply HF.
  - apply HD. induction es as [|[c n] es IHes]; constructor; auto.
Qed.

End FsSpecs.

(** ** Path resolution *)

Module OsFacts.
Import OsPath OsPathFacts Fs FsFacts FsSpecs.
Local Notation "a +++ b" := (String.append a b) (at level 60, right associativity).

Section WithCodec.
Context {codec : TarCodec}.

(** *** [descend] *)

Lemma descend_app n l1 : forall cur l2,
  Os.descend n cur (l1 ++ l2)
  = match Os.descend n cur l1 with
    | Returned c => Os.descend n c l2
    | Raised e => Raised e
    end.
Proof.
  induction l1 as [|c l1 IH]; intros cur l2; simpl; [reflexivity|].
  destruct (String.eqb c ""); [apply IH|].
  destruct (stat cur n) as [[d|]|]; auto.
Qed.

Lemma descend_walk n l : forall cur r,
  Os.descend n cur l = Returned r -> r = walk cur l.
Proof.
  induction l as [|c l IH]; intros cur r H.
  - now inversion H.
  - change (walk cur (c :: l)) with (walk (step cur c) l).
    simpl in H. destruct (String.eqb c "") eqn:E.
    + apply String.eqb_eq in E. subst c. now apply IH.
    + destruct (stat cur n) as [[d|]|]; try discriminate. now apply IH.
Qed.

Lemma descend_empties n cur k : Os.descend n cur (repeat "" k) = Returned cur.
Proof. induction k; simpl; auto. Qed.

Lemma descend_rstrip n cur y :
  Os.descend n cur (split (rstrip y)) = Os.descend n cur (split y).
Proof.
  destruct (rstrip_split y) as [k Hk]. rewrite Hk.
  rewrite descend_app. destruct (Os.descend n cur (split (rstrip y))); auto.
  now rewrite descend_empties.
Qed.

Lemma descend_snoc_empty n cur l :
  Os.descend n cur (l ++ [""]) = Os.descend n cur l.
Proof.
  rewrite descend_app. now destruct (Os.descend n cur l).
Qed.

(** Through existing directories the resolution follows the names. *)
Lemma descend_dirs n rs : forall cur,
  forallb valid_name rs = true ->
  stat (cur ++ rs) n = Some KDir ->
  Os.descend n cur rs = Returned (cur ++ rs).
Proof.
  induction rs as [|c rs IH]; intros cur Hv Hd; simpl in *.
  - now rewrite app_nil_r.
  - apply andb_prop in Hv as [Hc Hv].
    destruct (String.eqb_spec c "") as [->|_]; [discriminate|].
    rewrite (stat_above cur (c :: rs) n KDir Hd) by discriminate.
    rewrite (step_valid _ _ Hc), IH; auto.
    + now rewrite <- app_assoc.
    + now rewrite <- app_assoc.
Qed.

Lemma descend_last n cur f :
  nonempty f = true ->
  stat cur n = Some KDir ->
  Os.descend n cur [f] = Returned (step cur f).
Proof.
  intros Hf Hd. simpl. destruct f; [discriminate|]. simpl. now rewrite Hd.
Qed.

(** Resolution survives whatever keeps the directories. *)
Lemma descend_mono n n' l : forall cur r,
  (forall q, stat q n = Some KDir -> stat q n' = Some KDir) ->
  Os.descend n cur l = Returned r -> Os.descend n' cur l = Returned r.
Proof.
  induction l as [|c l IH]; intros cur r Hm H; simpl in *; auto.
  destruct (String.eqb c ""); auto.
  destruct (stat cur n) as [[d|]|] eqn:E; try discriminate.
  rewrite (Hm _ E). auto.
Qed.

(** *** Paths that end with a name *)

Lemma startswith_child Y z :
  startswith_sep (Y +++ String sep z) = startswith_sep (Y +++ String sep "").
Proof. now destruct Y. Qed.

Lemma split_child Y f :
  has_sep f = false -> split (Y +++ String sep f) = split Y ++ [f].
Proof. intros Hf. now rewrite split_app_sep, (split_nosep _ Hf). Qed.

Lemma rstrip_child Y f :
  has_sep f = false -> nonempty f = true ->
  rstrip (Y +++ String sep f) = Y +++ String sep f
  /\ endswith_sep (Y +++ String sep f) = false.
Proof.
  intros Hf Hn.
  assert (E : endswith_sep (Y +++ String sep f) = false).
  { rewrite endswith_app by reflexivity.
    change (String sep f) with (String sep "" +++ f).
    rewrite endswith_app by assumption. now apply nosep_ends. }
  split; [now apply rstrip_id|assumption].
Qed.

Lemma resolve_child Y f w :
  has_sep f = false ->
  Os.resolve (Y +++ String sep f) w
  = match Os.descend (fs w) (base (cwd w) (Y +++ String sep "")) (split Y) with
    | Returned c => Os.descend (fs w) c [f]
    | Raised e => Raised e
    end.
Proof.
  intros Hf. unfold Os.resolve, base.
  rewrite nonempty_app_r by reflexivity.
  rewrite startswith_child, (split_child _ _ Hf). apply descend_app.
Qed.

Lemma dirname_child Y f w :
  has_sep f = false ->
  nonempty (dirname (Y +++ String sep f)) = true
  /\ Os.resolve (dirname (Y +++ String sep f)) w
     = Os.descend (fs w) (base (cwd w) (Y +++ String sep "")) (split Y).
Proof.
  intros Hf. unfold dirname. rewrite (rcut_sep _ _ Hf). simpl fst.
  rewrite nonempty_app_r by reflexivity. simpl andb.
  rewrite all_sep_app. simpl all_sep. rewrite andb_true_r.
  destruct (all_sep Y) eqn:Ha; simpl negb; cbv iota.
  - split; [now apply nonempty_app_r|].
    unfold Os.resolve. rewrite nonempty_app_r by reflexivity.
    change (Y +++ String sep "") with (Y +++ String sep EmptyString).
    rewrite split_app_sep. simpl split. apply descend_snoc_empty.
  - rewrite rstrip_app_sep.
    destruct (rstrip_all_sep _ Ha) as [Hn Hs]. split; auto.
    unfold Os.resolve, base. rewrite Hn, Hs, descend_rstrip.
    rewrite startswith_app; auto.
    destruct Y; [discriminate|reflexivity].
Qed.

(** *** The text [os.path.join] puts before the second part *)

Lemma join_prefix t rel :
  startswith_sep rel = false -> join t rel = prefix t +++ rel.
Proof.
  intros H. unfold join, prefix. rewrite H.
  destruct (negb (nonempty t) || endswith_sep t); auto.
  now rewrite append_assoc.
Qed.

Lemma prefix_cases t :
  (t = "" /\ prefix t = "")
  \/ exists y, prefix t = y +++ String sep ""
       /\ (forall cwd, base cwd (y +++ String sep "") = base cwd t)
       /\ (forall n cur, Os.descend n cur (split y) = Os.descend n cur (split t)).
Proof.
  unfold prefix. destruct t as [|c t]; [left; auto|right].
  cbn [nonempty negb orb].
  destruct (endswith_sep (String c t)) eqn:E.
  - destruct (endswith_cut _ E) as [y Hy]. exists y. rewrite Hy.
    split; [reflexivity|split; [reflexivity|]].
    intros n cur. rewrite split_app_sep. simpl split.
    now rewrite descend_snoc_empty.
  - exists (String c t). split; [reflexivity|split; [|reflexivity]].
    intros cwd. unfold base. now rewrite startswith_app.
Qed.

(** Where a member lands.  [t] is the target given to [extract], resolved to
    [ts]; the member has the names [rs] and then [f] below the target. *)
Lemma member_place t rs f w ts :
  Os.descend (fs w) (base (cwd w) t) (split t) = Returned ts ->
  forallb valid_name rs = true ->
  has_sep f = false -> nonempty f = true ->
  stat (ts ++ rs) (fs w) = Some KDir ->
  let x := rstrip (join t (relpath (rs ++ [f]))) in
  Os.resolve x w = Returned (step (ts ++ rs) f)
  /\ endswith_sep x = false
  /\ (nonempty (dirname x) = false \/ Os.lstat (dirname x) w = Some KDir).
Proof.
  intros Hres Hrs Hf Hn Hd x.
  assert (Hstart : startswith_sep (relpath (rs ++ [f])) = false).
  { destruct rs as [|c rs]; simpl app.
    - now apply nosep_starts.
    - simpl in Hrs. apply andb_prop in Hrs as [Hc _].
      rewrite relpath_cons by (destruct rs; discriminate).
      rewrite startswith_app by now apply valid_name_nonempty.
      apply nosep_starts. now apply valid_name_nosep. }
  subst x. rewrite (join_prefix _ _ Hstart).
  destruct rs as [|c rs]; [simpl app; simpl relpath|].
  - (* the member sits right below the target *)
    rewrite app_nil_r in *.
    destruct (prefix_cases t) as [[-> Hp]|(y & Hp & Hb & Hy)]; rewrite Hp.
    + simpl in Hres. inversion Hres; subst ts. simpl String.append.
      rewrite (rstrip_id _ (nosep_ends _ Hf)).
      repeat split.
      * unfold Os.resolve, base. rewrite Hn, (nosep_starts _ Hf), (split_nosep _ Hf).
        now apply descend_last.
      * now apply nosep_ends.
      * left. unfold dirname. now rewrite (rcut_nosep _ Hf).
    + rewrite append_assoc. simpl String.append.
      destruct (rstrip_child y f Hf Hn) as [-> He].
      destruct (dirname_child y f w Hf) as [Hdn Hdr].
      rewrite Hb, Hy, Hres in Hdr.
      repeat split; auto.
      * rewrite (resolve_child _ _ _ Hf), Hb, Hy, Hres.
        now apply descend_last.
      * right. unfold Os.lstat. now rewrite Hdr, Hd.
  - (* the member sits deeper *)
    assert (Hne : c :: rs <> []) by discriminate.
    rewrite relpath_snoc by assumption.
    rewrite <- append_assoc.
    destruct (rstrip_child (prefix t +++ relpath (c :: rs)) f Hf Hn) as [-> He].
    destruct (dirname_child (prefix t +++ relpath (c :: rs)) f w Hf) as [Hdn Hdr].
    assert (HY : Os.descend (fs w)
                   (base (cwd w) ((prefix t +++ relpath (c :: rs)) +++ String sep ""))
                   (split (prefix t +++ relpath (c :: rs)))
                 = Returned (ts ++ c :: rs)).
    { destruct (prefix_cases t) as [[-> Hp]|(y & Hp & Hb & Hy)]; rewrite Hp.
      - simpl in Hres. inversion Hres; subst ts. cbn [String.append].
        unfold base. rewrite startswith_app
          by (apply relpath_nonempty; auto).
        rewrite (relpath_starts _ Hrs), (split_relpath _ Hne Hrs).
        now apply descend_dirs.
      - rewrite !append_assoc. cbn [String.append].
        rewrite split_app_sep, (split_relpath _ Hne Hrs).
        unfold base. rewrite startswith_child. fold (base (cwd w) (y +++ String sep "")).
        rewrite Hb, descend_app, Hy, Hres. now apply descend_dirs. }
    rewrite HY in Hdr.
    repeat split; auto.
    + rewrite (resolve_child _ _ _ Hf), HY. now apply descend_last.
    + right. unfold Os.lstat. now rewrite Hdr, Hd.
Qed.

End WithCodec.
End OsFacts.

(** ** Archive members *)

Module TarFacts.
Import OsPath OsPathFacts Fs FsFacts FsSpecs.
Local Notation "a +++ b" := (String.append a b) (at level 60, right associativity).

(** *** [sorted] *)

Lemma insert_perm A (e : string * A) l : Permutation (Tar.insert e l) (e :: l).
Proof.
  induction l as [|e' l IH]; simpl; [reflexivity|].
  destruct (String.leb (fst e) (fst e')); [reflexivity|].
  rewrite IH. apply perm_swap.
Qed.

Lemma sorted_perm A (l : list (string * A)) : Permutation (Tar.sorted l) l.
Proof.
  induction l as [|e l IH]; simpl; [reflexivity|].
  now rewrite insert_perm, IH.
Qed.

Lemma insert_map A B (h : string * A -> B) e l :
  Tar.insert (fst e, h e) (map (fun x => (fst x, h x)) l)
  = map (fun x => (fst x, h x)) (Tar.insert e l).
Proof.
  induction l as [|e' l IH]; simpl; [reflexivity|].
  destruct (String.leb (fst e) (fst e')); simpl; [reflexivity|].
  now rewrite IH.
Qed.

Lemma sorted_map A B (h : string * A -> B) l :
  Tar.sorted (map (fun x => (fst x, h x)) l)
  = map (fun x => (fst x, h x)) (Tar.sorted l).
Proof.
  induction l as [|e l IH]; simpl; [reflexivity|].
  now rewrite IH, insert_map.
Qed.

Lemma blocks_flat_map A (h : string * A -> list TarInfo) l :
  concat (map snd (Tar.sorted (map (fun x => (fst x, h x)) l)))
  = flat_map h (Tar.sorted l).
Proof.
  rewrite sorted_map, map_map. simpl. now rewrite flat_map_concat_map.
Qed.

(** *** The members of a directory *)

Lemma members_dir arc es :
  Tar.members arc (Dir es)
  = mkTarInfo arc DIRTYPE []
    :: flat_map (fun e => Tar.members (join arc (fst e)) (snd e)) (Tar.sorted es).
Proof.
  simpl. f_equal.
  apply (blocks_flat_map _ (fun e => Tar.members (join arc (fst e)) (snd e))).
Qed.

Lemma relmembers_dir rs es :
  Tar.relmembers rs (Dir es)
  = mkTarInfo (Tar.relname rs) DIRTYPE []
    :: flat_map (fun e => Tar.relmembers (rs ++ [fst e]) (snd e)) (Tar.sorted es).
Proof.
  simpl. f_equal.
  apply (blocks_flat_map _ (fun e => Tar.relmembers (rs ++ [fst e]) (snd e))).
Qed.

(** *** Member names, and what is left of them without the top directory *)

Lemma join_arcname top rs c :
  has_sep top = false -> nonempty top = true ->
  forallb valid_name rs = true -> valid_name c = true ->
  join (Tar.arcname top rs) c = Tar.arcname top (rs ++ [c]).
Proof.
  intros Ht Hn Hrs Hc. unfold join.
  rewrite (nosep_starts _ (valid_name_nosep _ Hc)).
  destruct rs as [|a rs]; cbn [Tar.arcname].
  - rewrite Hn, (nosep_ends _ Ht). reflexivity.
  - rewrite nonempty_app_l by assumption.
    assert (E : endswith_sep (top +++ String sep (relpath (a :: rs))) = false).
    { rewrite endswith_app by reflexivity.
      change (String sep (relpath (a :: rs)))
        with (String sep "" +++ relpath (a :: rs)).
      rewrite endswith_app by (apply relpath_nonempty; [discriminate|assumption]).
      apply (relpath_ends _ Hrs). }
    rewrite E. simpl orb. cbv iota.
    change (Tar.arcname top ((a :: rs) ++ [c]))
      with (top +++ String sep (relpath ((a :: rs) ++ [c]))).
    rewrite relpath_snoc by discriminate.
    now rewrite append_assoc.
Qed.

Lemma strip_arcname top rs ty d :
  has_sep top = false ->
  StoreFiles.strip_topdir (mkTarInfo (Tar.arcname top rs) ty d)
  = mkTarInfo (Tar.relname rs) ty d.
Proof.
  intros Ht. unfold StoreFiles.strip_topdir, split1. simpl name.
  destruct rs as [|a rs]; cbn [Tar.arcname Tar.relname].
  - now rewrite (partition_nosep _ Ht).
  - now rewrite (partition_sep _ _ Ht).
Qed.

(** What the read branch extracts after renaming: the members of the
    artifact, named from the artifact down. *)
Lemma strip_members top :
  has_sep top = false -> nonempty top = true ->
  forall n, wf n = true -> forall rs,
  forallb valid_name rs = true ->
  map StoreFiles.strip_topdir (Tar.members (Tar.arcname top rs) n)
  = Tar.relmembers rs n.
Proof.
  intros Ht Hn n. induction n as [d|es IH] using node_rect'; intros Hwf rs Hrs.
  - simpl. now rewrite strip_arcname.
  - rewrite members_dir, relmembers_dir. simpl map.
    rewrite strip_arcname by assumption. f_equal.
    rewrite !flat_map_concat_map, concat_map, map_map. f_equal.
    apply map_ext_in. intros e He.
    apply (Permutation_in _ (sorted_perm _ es)) in He.
    apply wf_dir in Hwf as (Hv & _ & Hw).
    rewrite Forall_forall in IH, Hv, Hw.
    assert (Hc : valid_name (fst e) = true) by (apply Hv; now apply in_map).
    rewrite join_arcname by assumption.
    apply IH; auto.
    rewrite forallb_app, Hrs. simpl. now rewrite Hc.
Qed.

End TarFacts.

(** ** Extraction of one member *)

Module ExtractFacts.
Import OsPath OsPathFacts Fs FsFacts FsSpecs OsFacts TarFacts.
Local Notation "a +++ b" := (String.append a b) (at level 60, right associativity).

Section WithCodec.
Context {codec : TarCodec}.

Lemma lands_set_fs t w ts n :
  Os.lands t w ts ->
  (forall q, stat q (fs w) = Some KDir -> stat q n = Some KDir) ->
  Os.lands t (Os.set_fs n w) ts.
Proof. intros H Hm. unfold Os.lands in *. simpl. eapply descend_mono; eauto. Qed.

Lemma valid_name_parts f :
  valid_name f = true -> has_sep f = false /\ nonempty f = true.
Proof. auto using valid_name_nosep, valid_name_nonempty. Qed.

(** No directory is made above a member whose parent exists. *)
Lemma upperdirs_kept x w (k : Py unit) :
  nonempty (dirname x) = false \/ Os.lstat (dirname x) w = Some KDir ->
  bind (Os.path_exists (dirname x))
       (fun present =>
          bind (if nonempty (dirname x) && negb present
                then Os.makedirs (dirname x) else ret tt)
               (fun _ => k)) w
  = k w.
Proof.
  intros [H|H]; unfold bind, Os.path_exists; simpl.
  - now rewrite H.
  - rewrite H. simpl. now rewrite andb_false_r.
Qed.

(** A regular member below an existing directory. *)
Lemma extract_reg t rs f d w ts :
  Os.lands t w ts ->
  forallb valid_name rs = true -> valid_name f = true ->
  stat (ts ++ rs) (fs w) = Some KDir ->
  stat ((ts ++ rs) ++ [f]) (fs w) <> Some KDir ->
  exists n',
    TarFile.extract (mkTarInfo (relpath (rs ++ [f])) REGTYPE d) t w
    = (Returned tt, Os.set_fs n' w)
    /\ forall q, stat q n'
         = if path_eq_dec q ((ts ++ rs) ++ [f]) then Some (KFile d)
           else stat q (fs w).
Proof.
  intros Hl Hrs Hf Hd Hp.
  destruct (valid_name_parts _ Hf) as [Hs Hn].
  destruct (member_place t rs f w ts Hl Hrs Hs Hn Hd) as (Hr & He & Hu).
  rewrite (step_valid _ _ Hf) in Hr.
  destruct (write_file_ok _ _ d _ Hd Hp) as [n' Hw].
  exists n'. split; [|now apply write_file_stat].
  unfold TarFile.extract. simpl name. simpl type. simpl payload.
  rewrite (upperdirs_kept _ _ _ Hu).
  unfold Os.open_wb, Os.at_path. now rewrite Hr, He, Hw.
Qed.

(** A directory member below an existing directory. *)
Lemma extract_dir t rs f d w ts :
  Os.lands t w ts ->
  forallb valid_name rs = true -> valid_name f = true ->
  stat (ts ++ rs) (fs w) = Some KDir ->
  stat ((ts ++ rs) ++ [f]) (fs w) = None ->
  exists n',
    TarFile.extract (mkTarInfo (relpath (rs ++ [f])) DIRTYPE d) t w
    = (Returned tt, Os.set_fs n' w)
    /\ forall q, stat q n'
         = if path_eq_dec q ((ts ++ rs) ++ [f]) then Some KDir
           else stat q (fs w).
Proof.
  intros Hl Hrs Hf Hd Hp.
  destruct (valid_name_parts _ Hf) as [Hs Hn].
  destruct (member_place t rs f w ts Hl Hrs Hs Hn Hd) as (Hr & He & Hu).
  rewrite (step_valid _ _ Hf) in Hr.
  destruct (mkdir_ok _ _ _ Hd Hp) as [n' Hw].
  exists n'. split; [|now apply mkdir_stat].
  unfold TarFile.extract. simpl name. simpl type.
  rewrite (upperdirs_kept _ _ _ Hu).
  unfold TarFile.makedir, Os.mkdir, Os.at_path. now rewrite Hr, Hw.
Qed.

(** The member of the artifact itself, named ["."], on a target that is a
    directory already. *)
Lemma extract_dot t d w ts :
  Os.lands t w ts ->
  stat ts (fs w) = Some KDir ->
  TarFile.extract (mkTarInfo "." DIRTYPE d) t w = (Returned tt, w).
Proof.
  intros Hl Hd.
  assert (Hd' : stat (ts ++ []) (fs w) = Some KDir) by now rewrite app_nil_r.
  destruct (member_place t [] "." w ts Hl eq_refl eq_refl eq_refl Hd')
    as (Hr & He & Hu).
  rewrite app_nil_r in Hr. change (step ts ".") with ts in Hr.
  unfold TarFile.extract. simpl name. simpl type.
  change (relpath ([] ++ ["."])) with "." in *.
  rewrite (upperdirs_kept _ _ _ Hu).
  unfold TarFile.makedir, Os.mkdir, Os.at_path.
  now rewrite Hr, (mkdir_exists _ _ _ Hd).
Qed.

(** The same member on a target that does not exist yet, below an existing
    directory: the target is made. *)
Lemma extract_dot_fresh t d w par c :
  nonempty t = true ->
  Os.lands t w (par ++ [c]) ->
  stat par (fs w) = Some KDir ->
  stat (par ++ [c]) (fs w) = None ->
  exists n',
    TarFile.extract (mkTarInfo "." DIRTYPE d) t w = (Returned tt, Os.set_fs n' w)
    /\ forall q, stat q n'
         = if path_eq_dec q (par ++ [c]) then Some KDir else stat q (fs w).
Proof.
  intros Hn Hl Hpar Hp.
  destruct (mkdir_ok _ _ _ Hpar Hp) as [n' Hw].
  pose proof (mkdir_stat _ _ _ Hw) as Hst.
  exists n'. split; [|assumption].
  unfold TarFile.extract. simpl name. simpl type.
  rewrite (join_prefix t ".") by reflexivity.
  destruct (prefix_cases t) as [[-> _]|(y & Hy & Hb & Hdy)]; [discriminate|].
  rewrite Hy, append_assoc. cbn [String.append].
  destruct (rstrip_child y "." eq_refl eq_refl) as [-> He].
  destruct (dirname_child y "." w eq_refl) as [Hdn Hdr].
  unfold Os.lands in Hl. rewrite Hb, Hdy, Hl in Hdr.
  (* the upper directory is the target, and it is missing *)
  assert (Habs : absolute (cwd w) (dirname (y +++ String sep ".")) = par ++ [c]).
  { unfold Os.resolve in Hdr. rewrite Hdn in Hdr.
    symmetry. apply (descend_walk _ _ _ _ Hdr). }
  unfold bind at 1. unfold Os.path_exists, Os.lstat. rewrite Hdr, Hp, Hdn.
  simpl andb. cbv iota.
  unfold bind at 1. unfold Os.makedirs. rewrite Hdn, Habs.
  rewrite (makedirs_mkdir _ _ _ Hpar Hp), Hw.
  (* then [os.mkdir] finds it *)
  unfold TarFile.makedir, Os.mkdir, Os.at_path.
  rewrite (resolve_child y "." _ eq_refl). simpl fs. simpl cwd.
  rewrite Hb, Hdy.
  assert (Hkeep : forall q, stat q (fs w) = Some KDir -> stat q n' = Some KDir).
  { intros q Hq. rewrite Hst. now destruct (path_eq_dec q (par ++ [c])). }
  rewrite (descend_mono _ _ _ _ _ Hkeep Hl).
  assert (Hts : stat (par ++ [c]) n' = Some KDir).
  { rewrite Hst. destruct (path_eq_dec (par ++ [c]) (par ++ [c])); congruence. }
  rewrite (descend_last _ _ "." eq_refl Hts).
  change (step (par ++ [c]) ".") with (par ++ [c]).
  now rewrite (mkdir_exists _ _ _ Hts).
Qed.

End WithCodec.
End ExtractFacts.

(** ** Extraction of a tree *)

Module ExtractTree.
Import OsPath OsPathFacts Fs FsFacts FsSpecs OsFacts TarFacts ExtractFacts.

Section WithCodec.
Context {codec : TarCodec}.
Variable t : string.

Lemma extract_all_cons m ms w :
  TarFile.extractall t (m :: ms) w
  = bind (TarFile.extract m t) (fun _ => TarFile.extractall t ms) w.
Proof. reflexivity. Qed.

Lemma extract_all_app ms1 ms2 w :
  TarFile.extractall t (ms1 ++ ms2) w
  = bind (TarFile.extractall t ms1) (fun _ => TarFile.extractall t ms2) w.
Proof. apply for_each_app. Qed.

Lemma relname_snoc rs f : Tar.relname (rs ++ [f]) = relpath (rs ++ [f]).
Proof. now destruct rs. Qed.

Lemma planted_file d : TarFile.planted t (File d).
Proof.
  intros _ rs f w ts Hl Hrs Hf Hd Hp.
  assert (Hp' : stat ((ts ++ rs) ++ [f]) (fs w) <> Some KDir) by congruence.
  destruct (extract_reg t rs f d w ts Hl Hrs Hf Hd Hp') as (n' & He & Hst).
  exists n'. split.
  - simpl. rewrite relname_snoc. unfold TarFile.extractall. simpl.
    unfold bind. now rewrite He.
  - intros q. rewrite Hst.
    destruct (path_eq_dec q ((ts ++ rs) ++ [f])) as [->|Hne].
    + now rewrite strip_prefix_refl.
    + destruct (strip_prefix ((ts ++ rs) ++ [f]) q) as [r|] eqn:E; auto.
      apply strip_prefix_Some in E. subst q.
      rewrite (stat_below_none _ r _ Hp).
      destruct r; [now rewrite app_nil_r in Hne|reflexivity].
Qed.

(** The entries of a directory, one after the other. *)
Lemma planted_entries l :
  Forall (fun e => TarFile.planted t (snd e)) l ->
  Forall (fun e => wf (snd e) = true) l ->
  Forall (fun c => valid_name c = true) (map fst l) ->
  NoDup (map fst l) ->
  forall rs w ts,
    Os.lands t w ts ->
    forallb valid_name rs = true ->
    stat (ts ++ rs) (fs w) = Some KDir ->
    (forall c, In c (map fst l) -> stat ((ts ++ rs) ++ [c]) (fs w) = None) ->
    exists n',
      TarFile.extractall t (flat_map (fun e => Tar.relmembers (rs ++ [fst e]) (snd e)) l) w
      = (Returned tt, Os.set_fs n' w)
      /\ forall q, stat q n'
           = match strip_prefix (ts ++ rs) q with
             | Some (c :: r) =>
                 match assoc c l with
                 | Some child => stat r child
                 | None => stat q (fs w)
                 end
             | _ => stat q (fs w)
             end.
Proof.
  induction l as [|[c T] l IH]; intros HP Hwf Hv Hnd rs w ts Hl Hrs Hd Hfree.
  - exists (fs w). split.
    + destruct w; reflexivity.
    + intros q. destruct (strip_prefix (ts ++ rs) q) as [[|? ?]|]; reflexivity.
  - inversion HP as [|? ? HPT HPl]; subst.
    inversion Hwf as [|? ? HwT Hwl]; subst.
    simpl in Hv, Hnd. inversion Hv as [|? ? Hc Hvl]; subst.
    inversion Hnd as [|? ? Hnotin Hndl]; subst.
    simpl in HPT, HwT.
    (* the first entry *)
    destruct (HPT HwT rs c w ts Hl Hrs Hc Hd (Hfree c (or_introl eq_refl)))
      as (n1 & He1 & Hst1).
    assert (Hkeep : forall q, stat q (fs w) = Some KDir -> stat q n1 = Some KDir).
    { intros q Hq. rewrite Hst1.
      destruct (strip_prefix ((ts ++ rs) ++ [c]) q) as [r|] eqn:E; auto.
      apply strip_prefix_Some in E. subst q.
      rewrite (stat_below_none _ r _ (Hfree c (or_introl eq_refl))) in Hq.
      discriminate. }
    assert (Hother : forall q, strip_prefix ((ts ++ rs) ++ [c]) q = None ->
                               stat q n1 = stat q (fs w)).
    { intros q E. now rewrite Hst1, E. }
    (* the others *)
    destruct (IH HPl Hwl Hvl Hndl rs (Os.set_fs n1 w) ts) as (n2 & He2 & Hst2).
    + now apply lands_set_fs.
    + assumption.
    + simpl. now apply Hkeep.
    + intros c' Hin. simpl. rewrite Hother.
      * apply Hfree. now right.
      * rewrite strip_prefix_snoc, strip_prefix_app.
        destruct (String.eqb_spec c c') as [->|_]; [contradiction|reflexivity].
    + exists n2. split.
      * simpl flat_map. rewrite extract_all_app. unfold bind.
        simpl fst in He1. simpl snd in He1. rewrite He1.
        rewrite He2. destruct w; reflexivity.
      * intros q. rewrite Hst2. simpl fs.
        destruct (strip_prefix (ts ++ rs) q) as [[|c' r]|] eqn:E.
        -- apply Hother. rewrite strip_prefix_snoc, E. reflexivity.
        -- simpl assoc. destruct (String.eqb_spec c' c) as [->|Hne].
           ++ assert (Hnone : assoc c l = None) by now apply assoc_None.
              rewrite Hnone, Hst1, strip_prefix_snoc, E, String.eqb_refl.
              reflexivity.
           ++ assert (Hq : stat q n1 = stat q (fs w)).
              { apply Hother. rewrite strip_prefix_snoc, E.
                destruct (String.eqb_spec c c'); congruence. }
              destruct (assoc c' l); auto.
        -- apply Hother. rewrite strip_prefix_snoc, E. reflexivity.
Qed.

Lemma sorted_entries (es : list (string * node)) :
  Forall (fun e => TarFile.planted t (snd e)) es ->
  wf (Dir es) = true ->
  Forall (fun e => TarFile.planted t (snd e)) (Tar.sorted es)
  /\ Forall (fun e => wf (snd e) = true) (Tar.sorted es)
  /\ Forall (fun c => valid_name c = true) (map fst (Tar.sorted es))
  /\ NoDup (map fst (Tar.sorted es))
  /\ (forall c, assoc c (Tar.sorted es) = assoc c es)
  /\ (forall c, In c (map fst (Tar.sorted es)) -> In c (map fst es)).
Proof.
  intros HP Hwf. apply wf_dir in Hwf as (Hv & Hnd & Hw).
  pose proof (sorted_perm _ es) as Hperm.
  pose proof (Permutation_map fst Hperm) as Hpermk.
  repeat split.
  - eapply Permutation_Forall; [symmetry; exact Hperm|assumption].
  - eapply Permutation_Forall; [symmetry; exact Hperm|assumption].
  - eapply Permutation_Forall; [symmetry; exact Hpermk|assumption].
  - eapply Permutation_NoDup; [symmetry; exact Hpermk|assumption].
  - intros c. symmetry. apply assoc_perm; [assumption|now symmetry].
  - intros c. apply Permutation_in. assumption.
Qed.

Lemma planted_dir es :
  Forall (fun e => TarFile.planted t (snd e)) es -> TarFile.planted t (Dir es).
Proof.
  intros HP Hwf rs f w ts Hl Hrs Hf Hd Hp.
  destruct (sorted_entries es HP Hwf) as (HP' & Hw' & Hv' & Hnd' & Hassoc & Hin).
  (* the directory itself *)
  destruct (extract_dir t rs f [] w ts Hl Hrs Hf Hd Hp) as (n1 & He1 & Hst1).
  (* its entries *)
  destruct (planted_entries _ HP' Hw' Hv' Hnd' (rs ++ [f]) (Os.set_fs n1 w) ts)
    as (n2 & He2 & Hst2).
  - apply lands_set_fs; auto. intros q Hq. rewrite Hst1.
    now destruct (path_eq_dec q ((ts ++ rs) ++ [f])).
  - rewrite forallb_app, Hrs. simpl. now rewrite Hf.
  - simpl. rewrite app_assoc, Hst1. apply path_eq_refl.
  - intros c _. simpl. rewrite app_assoc, Hst1.
    rewrite path_eq_longer. now apply stat_below_none.
  - exists n2. split.
    + rewrite relmembers_dir, relname_snoc, extract_all_cons. unfold bind.
      rewrite He1, He2. destruct w; reflexivity.
    + intros q. rewrite Hst2. simpl fs. rewrite app_assoc.
      destruct (strip_prefix ((ts ++ rs) ++ [f]) q) as [[|c r]|] eqn:E.
      * apply strip_prefix_Some in E. rewrite app_nil_r in E. subst q.
        rewrite Hst1. now rewrite path_eq_refl.
      * rewrite stat_cons_dir, Hassoc.
        destruct (assoc c es); auto.
        apply strip_prefix_Some in E. subst q. rewrite Hst1.
        rewrite path_eq_longer. now apply stat_below_none.
      * rewrite Hst1.
        destruct (path_eq_dec q ((ts ++ rs) ++ [f])) as [->|_]; auto.
        now rewrite strip_prefix_refl in E.
Qed.

(** Every well-formed tree is planted by the extraction of its members. *)
Lemma planted_all T : TarFile.planted t T.
Proof.
  induction T using node_rect'; auto using planted_file, planted_dir.
Qed.

End WithCodec.
End ExtractTree.

(** ** Paths of artifacts *)

Module ArtifactFacts.
Import OsPath OsPathFacts Fs FsFacts FsSpecs OsFacts TarFacts ExtractFacts ExtractTree.
Local Notation "a +++ b" := (String.append a b) (at level 60, right associativity).

Section WithCodec.
Context {codec : TarCodec}.

(** *** The working directory and back *)

Lemma split_render_rel l :
  forallb valid_name l = true -> l <> [] -> split (render_rel l) = "" :: l.
Proof.
  induction l as [|c l IH]; intros Hv Hne; [congruence|].
  simpl in Hv. apply andb_prop in Hv as [Hc Hl].
  change (render_rel (c :: l)) with ("" +++ String sep (c +++ render_rel l)).
  rewrite split_app_sep. simpl split at 1. simpl app. f_equal.
  destruct l as [|c' l].
  - simpl render_rel. rewrite append_empty_r.
    apply split_nosep. now apply valid_name_nosep.
  - change (render_rel (c' :: l)) with (String sep (c' +++ render_rel l)).
    rewrite split_app_sep, (split_nosep _ (valid_name_nosep _ Hc)).
    simpl app. f_equal.
    assert (E : split (render_rel (c' :: l)) = "" :: c' :: l)
      by (apply IH; [assumption|discriminate]).
    change (render_rel (c' :: l)) with ("" +++ String sep (c' +++ render_rel l)) in E.
    rewrite split_app_sep in E. simpl in E. now inversion E.
Qed.

Lemma resolve_render l w :
  forallb valid_name l = true ->
  stat l (fs w) = Some KDir ->
  Os.resolve (render l) w = Returned l.
Proof.
  intros Hv Hd. unfold Os.resolve, base.
  destruct l as [|c l].
  - reflexivity.
  - change (render (c :: l)) with (render_rel (c :: l)).
    rewrite split_render_rel by (auto; discriminate).
    change (nonempty (render_rel (c :: l))) with true.
    change (startswith_sep (render_rel (c :: l))) with true. cbv iota.
    change (Os.descend (fs w) [] ("" :: c :: l))
      with (Os.descend (fs w) [] (c :: l)).
    now apply (descend_dirs (fs w) (c :: l) []).
Qed.

(** [os.chdir(original_cwd)] brings the process back, wherever it is. *)
Lemma chdir_back l w :
  forallb valid_name l = true ->
  stat l (fs w) = Some KDir ->
  Os.chdir (render l) w = (Returned tt, Os.set_cwd l w).
Proof.
  intros Hv Hd. unfold Os.chdir. now rewrite (resolve_render _ _ Hv Hd), Hd.
Qed.

(** *** A path and its two parts *)

Lemma rcut_spec p :
  p = fst (rcut p) +++ snd (rcut p)
  /\ has_sep (snd (rcut p)) = false
  /\ (fst (rcut p) = "" \/ exists Y, fst (rcut p) = Y +++ String sep "").
Proof.
  induction p as [|c p (IH1 & IH2 & IH3)]; simpl.
  - auto.
  - destruct (rcut p) as [h t] eqn:E. simpl in *.
    destruct h as [|c' h].
    + simpl in IH1. subst t. destruct (is_sep c) eqn:Hc; simpl.
      * repeat split; auto. right. exists "". simpl.
        apply Ascii.eqb_eq in Hc. now subst.
      * rewrite Hc. auto.
    + simpl. repeat split; auto.
      * now rewrite IH1 at 1.
      * right. destruct IH3 as [H|[Y HY]]; [discriminate|].
        exists (String c Y). simpl. now rewrite HY.
Qed.

(** A path with a directory part and a final name resolves through its
    directory part. *)
Lemma resolve_parts p w q :
  Os.resolve p w = Returned q ->
  nonempty (dirname p) = true ->
  nonempty (basename p) = true ->
  exists D,
    Os.resolve (dirname p) w = Returned D
    /\ stat D (fs w) = Some KDir
    /\ Os.resolve (basename p) (Os.set_cwd D w) = Returned q.
Proof.
  intros Hr Hd Hb.
  destruct (rcut_spec p) as (Hp & Hs & [Hh|[Y HY]]).
  - unfold dirname in Hd. rewrite Hh in Hd. discriminate.
  - unfold basename in *. set (f := snd (rcut p)) in *.
    rewrite HY, append_assoc in Hp. simpl in Hp.
    destruct (dirname_child Y f w Hs) as [_ Hdr]. rewrite <- Hp in Hdr.
    rewrite Hp, (resolve_child _ _ _ Hs) in Hr.
    destruct (Os.descend (fs w) (base (cwd w) (Y +++ String sep "")) (split Y))
      as [D|e]; [|discriminate].
    exists D. split; [assumption|].
    simpl in Hr. destruct f as [|a f]; [discriminate|].
    change (String.eqb (String a f) "") with false in Hr. cbv iota in Hr.
    destruct (stat D (fs w)) as [[d|]|] eqn:HD; try discriminate.
    split; [reflexivity|].
    unfold Os.resolve, base. rewrite Hb, (nosep_starts _ Hs), (split_nosep _ Hs).
    simpl. now rewrite HD.
Qed.

End WithCodec.
End ArtifactFacts.

(** ** The two branches of [_copy_logic] *)

Module CopyLogic.
Import OsPath OsPathFacts Fs FsFacts FsSpecs OsFacts TarFacts ExtractFacts ExtractTree ArtifactFacts.
Import StoreFiles.

Section WithCodec.
Context {codec : TarCodec}.

(** *** The two branches *)

Lemma copy_logic_write pathname keys w :
  is_write_mode (STORAGE w) = true ->
  _copy_logic pathname keys w
  = try_finally (pack pathname keys) (Os.chdir (render (cwd w))) w.
Proof. intros H. unfold _copy_logic, bind, Os.getcwd. now rewrite H. Qed.

Lemma copy_logic_read pathname keys w :
  is_write_mode (STORAGE w) = false ->
  _copy_logic pathname keys w = unpack pathname keys w.
Proof. intros H. unfold _copy_logic, bind, Os.getcwd. now rewrite H. Qed.

(** *** The write branch *)

(** The body of the [try] leaves the filesystem, the flags and the storage
    file alone. *)
Lemma pack_frame pathname keys w r w' :
  pack pathname keys w = (r, w') ->
  fs w' = fs w /\ recording w' = recording w
  /\ is_write_mode (STORAGE w') = is_write_mode (STORAGE w)
  /\ storage_file (STORAGE w') = storage_file (STORAGE w).
Proof.
  assert (Hdone : forall r0 w0,
            (r0, w0) = (r, w') -> fs w0 = fs w -> recording w0 = recording w ->
            is_write_mode (STORAGE w0) = is_write_mode (STORAGE w) ->
            storage_file (STORAGE w0) = storage_file (STORAGE w) ->
            fs w' = fs w /\ recording w' = recording w
            /\ is_write_mode (STORAGE w') = is_write_mode (STORAGE w)
            /\ storage_file (STORAGE w') = storage_file (STORAGE w)).
  { intros r0 w0 E. inversion E; subst. auto. }
  unfold pack, bind, as_path.
  destruct pathname as [| | |p| |];
    try (intros H; now apply (Hdone _ _ H)).
  simpl. unfold Os.chdir.
  destruct (Os.resolve (dirname p) w) as [D|e];
    [|intros H; now apply (Hdone _ _ H)].
  destruct (stat D (fs w)) as [[d|]|];
    try (intros H; now apply (Hdone _ _ H)).
  unfold TarFile.add.
  destruct (Os.resolve (basename p) (Os.set_cwd D w)) as [q|e];
    [|intros H; now apply (Hdone _ _ H)].
  simpl fs. destruct (lookup q (fs w)) as [T|];
    [|intros H; now apply (Hdone _ _ H)].
  unfold Storage.store. simpl.
  destruct (is_write_mode (STORAGE w)) eqn:Em; intros H;
    apply (Hdone _ _ H); simpl; auto.
Qed.

(** The write branch ends in the working directory it started in, with the
    outcome of the body of the [try]. *)
Lemma copy_logic_write_restores pathname keys w :
  is_write_mode (STORAGE w) = true ->
  forallb valid_name (cwd w) = true ->
  stat (cwd w) (fs w) = Some KDir ->
  _copy_logic pathname keys w
  = (fst (pack pathname keys w), Os.set_cwd (cwd w) (snd (pack pathname keys w))).
Proof.
  intros Hm Hv Hd. rewrite (copy_logic_write _ _ _ Hm). unfold try_finally.
  destruct (pack pathname keys w) as [r w'] eqn:E.
  destruct (pack_frame _ _ _ _ _ E) as (Hfs & _).
  rewrite chdir_back; auto. now rewrite Hfs.
Qed.

(** Packing an artifact that is there. *)
Lemma pack_artifact p keys w q T :
  is_write_mode (STORAGE w) = true ->
  Os.resolve p w = Returned q ->
  lookup q (fs w) = Some T ->
  nonempty (dirname p) = true ->
  nonempty (basename p) = true ->
  exists D,
    pack (VStr p) keys w
    = Storage.store (basic_ps_keys ++ keys)
        (VBytes (tar_write (Tar.members (basename p) T))) (Os.set_cwd D w).
Proof.
  intros Hm Hr Hl Hd Hb.
  destruct (resolve_parts _ _ _ Hr Hd Hb) as (D & HD & HDd & Hq).
  exists D. unfold pack, bind, as_path, ret, Os.chdir.
  rewrite HD, HDd. unfold TarFile.add. rewrite Hq. simpl fs. now rewrite Hl.
Qed.

Lemma copy_logic_pack p keys w q T :
  is_write_mode (STORAGE w) = true ->
  forallb valid_name (cwd w) = true ->
  stat (cwd w) (fs w) = Some KDir ->
  Os.resolve p w = Returned q ->
  lookup q (fs w) = Some T ->
  nonempty (dirname p) = true ->
  nonempty (basename p) = true ->
  _copy_logic (VStr p) keys w
  = Storage.store (basic_ps_keys ++ keys)
      (VBytes (tar_write (Tar.members (basename p) T))) w.
Proof.
  intros Hm Hv Hd Hr Hl Hdn Hbn.
  rewrite copy_logic_write_restores by assumption.
  destruct (pack_artifact p keys w q T Hm Hr Hl Hdn Hbn) as [D ->].
  unfold Storage.store. simpl. rewrite Hm. destruct w; reflexivity.
Qed.

(** *** The read branch *)

Lemma for_each_map {A B} (g : A -> B) (body : B -> Py unit) l w :
  for_each (map g l) body w = for_each l (fun a => body (g a)) w.
Proof.
  revert w. induction l as [|a l IH]; intros w; simpl; [reflexivity|].
  unfold bind. destruct (body (g a) w) as [[[]|e] w1]; auto.
Qed.

Lemma getitem_first {A} (a : A) l : Py_.getitem (a :: l) 0 = Returned a.
Proof. reflexivity. Qed.

Lemma unpack_missing pathname keys w :
  storage_get (basic_ps_keys ++ keys) (storage_object (STORAGE w)) = None ->
  unpack pathname keys w = (Raised PersistentStorageException, Storage.heard (CallRead (basic_ps_keys ++ keys)) w).
Proof.
  intros H. unfold unpack, bind, Storage.read.
  cbn [Storage.record storage_object]. now rewrite H.
Qed.

Lemma unpack_members t keys w b ms :
  storage_get (basic_ps_keys ++ keys) (storage_object (STORAGE w))
    = Some (VBytes b) ->
  tar_read b = Some ms ->
  unpack (VStr t) keys w
  = match ms with
    | [] => (Raised IndexError, Storage.heard (CallRead (basic_ps_keys ++ keys)) w)
    | m :: _ =>
        if isfile m then Os.open_wb t (payload m) (Storage.heard (CallRead (basic_ps_keys ++ keys)) w)
        else TarFile.extractall t (map strip_topdir ms) (Storage.heard (CallRead (basic_ps_keys ++ keys)) w)
    end.
Proof.
  intros Hg Hr. unfold unpack, bind at 1, Storage.read.
  cbn [Storage.record storage_object]. rewrite Hg. fold (Storage.heard (CallRead (basic_ps_keys ++ keys)) w).
  unfold bind at 1, BytesIO, ret.
  unfold bind at 1, TarFile.open_r. rewrite Hr. unfold ret.
  unfold bind at 1. destruct ms as [|m ms]; [reflexivity|].
  rewrite getitem_first.
  destruct (isfile m); [reflexivity|].
  unfold TarFile.extractall. now rewrite for_each_map.
Qed.

End WithCodec.
End CopyLogic.

(** ** Pack, then unpack *)

Module RoundTrip.
Import OsPath OsPathFacts Fs FsFacts FsSpecs OsFacts TarFacts ExtractFacts ExtractTree ArtifactFacts CopyLogic.
Import StoreFiles.

Section WithCodec.
Context {codec : TarCodec}.

Lemma basename_nosep p : has_sep (basename p) = false.
Proof. apply rcut_spec. Qed.

Lemma resolve_heard c t w : Os.resolve t (Storage.heard c w) = Os.resolve t w.
Proof. reflexivity. Qed.

(** A single file comes back as a single file. *)
Lemma unpack_file t keys w b top d par c :
  storage_get (basic_ps_keys ++ keys) (storage_object (STORAGE w))
    = Some (VBytes b) ->
  tar_read b = Some (Tar.members top (File d)) ->
  Os.resolve t w = Returned (par ++ [c]) ->
  endswith_sep t = false ->
  stat par (fs w) = Some KDir ->
  stat (par ++ [c]) (fs w) = None ->
  exists n',
    unpack (VStr t) keys w
    = (Returned tt, Os.set_fs n' (Storage.heard (CallRead (basic_ps_keys ++ keys)) w))
    /\ forall x, stat x n'
         = match strip_prefix (par ++ [c]) x with
           | Some r => stat r (File d)
           | None => stat x (fs w)
           end.
Proof.
  intros Hg Hr Ht He Hpar Hp.
  assert (Hp' : stat (par ++ [c]) (fs w) <> Some KDir) by congruence.
  destruct (write_file_ok _ _ d _ Hpar Hp') as [n' Hw].
  exists n'. split.
  - rewrite (unpack_members _ _ _ _ _ Hg Hr). simpl.
    unfold Os.open_wb, Os.at_path. rewrite resolve_heard, Ht, He.
    simpl fs. now rewrite Hw.
  - intros x. rewrite (write_file_stat _ _ _ _ Hw).
    destruct (path_eq_dec x (par ++ [c])) as [->|Hne].
    + now rewrite strip_prefix_refl.
    + destruct (strip_prefix (par ++ [c]) x) as [r|] eqn:E; auto.
      apply strip_prefix_Some in E. subst x.
      rewrite (stat_below_none _ r _ Hp).
      destruct r; [now rewrite app_nil_r in Hne|reflexivity].
Qed.

(** A directory comes back as a directory, without its own name. *)
Lemma unpack_dir t keys w b top es par c :
  storage_get (basic_ps_keys ++ keys) (storage_object (STORAGE w))
    = Some (VBytes b) ->
  tar_read b = Some (Tar.members top (Dir es)) ->
  has_sep top = false -> nonempty top = true ->
  wf (Dir es) = true ->
  Os.resolve t w = Returned (par ++ [c]) ->
  stat par (fs w) = Some KDir ->
  stat (par ++ [c]) (fs w) = None ->
  exists n',
    unpack (VStr t) keys w
    = (Returned tt, Os.set_fs n' (Storage.heard (CallRead (basic_ps_keys ++ keys)) w))
    /\ forall x, stat x n'
         = match strip_prefix (par ++ [c]) x with
           | Some r => stat r (Dir es)
           | None => stat x (fs w)
           end.
Proof.
  intros Hg Hr Htop Hntop Hwf Ht Hpar Hp.
  set (w1 := Storage.heard (CallRead (basic_ps_keys ++ keys)) w).
  assert (Hnt : nonempty t = true).
  { unfold Os.resolve in Ht. destruct (nonempty t); [reflexivity|discriminate]. }
  assert (Hl : Os.lands t w1 (par ++ [c])).
  { unfold Os.resolve in Ht. rewrite Hnt in Ht. exact Ht. }
  (* the renamed members *)
  rewrite (unpack_members _ _ _ _ _ Hg Hr).
  rewrite members_dir. cbn [isfile type]. fold w1.
  rewrite <- members_dir.
  pose proof (strip_members top Htop Hntop (Dir es) Hwf [] eq_refl) as Hs.
  cbn [Tar.arcname] in Hs. rewrite Hs. clear Hs.
  rewrite relmembers_dir. cbn [Tar.relname].
  (* the target is made *)
  destruct (extract_dot_fresh t [] w1 par c Hnt Hl Hpar Hp) as (n1 & He1 & Hst1).
  (* the entries go below it *)
  assert (HP : Forall (fun e => TarFile.planted t (snd e)) es).
  { apply Forall_forall. intros e _. apply planted_all. }
  destruct (sorted_entries t es HP Hwf) as (HP' & Hw' & Hv' & Hnd' & Hassoc & Hin).
  destruct (planted_entries t _ HP' Hw' Hv' Hnd' [] (Os.set_fs n1 w1) (par ++ [c]))
    as (n2 & He2 & Hst2).
  - apply lands_set_fs; auto. intros x Hx. rewrite Hst1.
    now destruct (path_eq_dec x (par ++ [c])).
  - reflexivity.
  - simpl. rewrite app_nil_r, Hst1. apply path_eq_refl.
  - intros c' _. simpl. rewrite app_nil_r, Hst1, path_eq_longer.
    now apply stat_below_none.
  - exists n2. split.
    + rewrite extract_all_cons. unfold bind. rewrite He1.
      rewrite He2. reflexivity.
    + intros x. rewrite Hst2. simpl fs. rewrite app_nil_r.
      destruct (strip_prefix (par ++ [c]) x) as [[|c' r]|] eqn:E.
      * apply strip_prefix_Some in E. rewrite app_nil_r in E. subst x.
        rewrite Hst1. apply path_eq_refl.
      * rewrite stat_cons_dir, Hassoc.
        destruct (assoc c' es); auto.
        apply strip_prefix_Some in E. subst x.
        rewrite Hst1, path_eq_longer. now apply stat_below_none.
      * rewrite Hst1.
        destruct (path_eq_dec x (par ++ [c])) as [->|_]; auto.
        now rewrite strip_prefix_refl in E.
Qed.

(** A directory unpacked into a directory that exists and is empty (the
    working directory, for an empty target path). *)
Lemma unpack_dir_into_empty t keys w b top es ts :
  storage_get (basic_ps_keys ++ keys) (storage_object (STORAGE w))
    = Some (VBytes b) ->
  tar_read b = Some (Tar.members top (Dir es)) ->
  has_sep top = false -> nonempty top = true ->
  wf (Dir es) = true ->
  Os.lands t w ts ->
  stat ts (fs w) = Some KDir ->
  (forall c, stat (ts ++ [c]) (fs w) = None) ->
  exists n',
    unpack (VStr t) keys w
    = (Returned tt, Os.set_fs n' (Storage.heard (CallRead (basic_ps_keys ++ keys)) w))
    /\ forall x, stat x n'
         = match strip_prefix ts x with
           | Some r => stat r (Dir es)
           | None => stat x (fs w)
           end.
Proof.
  intros Hg Hr Htop Hntop Hwf Hl Hd Hempty.
  set (w1 := Storage.heard (CallRead (basic_ps_keys ++ keys)) w).
  rewrite (unpack_members _ _ _ _ _ Hg Hr).
  rewrite members_dir. cbn [isfile type]. fold w1.
  rewrite <- members_dir.
  pose proof (strip_members top Htop Hntop (Dir es) Hwf [] eq_refl) as Hs.
  cbn [Tar.arcname] in Hs. rewrite Hs. clear Hs.
  rewrite relmembers_dir. cbn [Tar.relname].
  assert (HP : Forall (fun e => TarFile.planted t (snd e)) es).
  { apply Forall_forall. intros e _. apply planted_all. }
  destruct (sorted_entries t es HP Hwf) as (HP' & Hw' & Hv' & Hnd' & Hassoc & Hin).
  destruct (planted_entries t _ HP' Hw' Hv' Hnd' [] w1 ts)
    as (n2 & He2 & Hst2); auto.
  - simpl. now rewrite app_nil_r.
  - intros c _. simpl. rewrite app_nil_r. apply Hempty.
  - exists n2. split.
    + rewrite extract_all_cons. unfold bind.
      rewrite (extract_dot t [] w1 ts Hl Hd). rewrite He2.
      destruct w; reflexivity.
    + intros x. rewrite Hst2. simpl fs. rewrite app_nil_r.
      destruct (strip_prefix ts x) as [[|c' r]|] eqn:E; auto.
      * apply strip_prefix_Some in E. rewrite app_nil_r in E. now subst x.
      * rewrite stat_cons_dir, Hassoc.
        destruct (assoc c' es); auto.
        apply strip_prefix_Some in E. subst x.
        change (c' :: r) with ([c'] ++ r). rewrite app_assoc.
        apply stat_below_none, Hempty.
Qed.

(** Packing the artifact that [p] names, and unpacking the stored value at
    a fresh target: the artifact appears at the target, nothing else
    changes.  [p] has a directory part and ends with a name. *)
Lemma pack_unpack p keys w q T :
  lossless codec ->
  World_ok w ->
  is_write_mode (STORAGE w) = true ->
  Os.resolve p w = Returned q ->
  lookup q (fs w) = Some T ->
  nonempty (dirname p) = true ->
  nonempty (basename p) = true ->
  let values := VBytes (tar_write (Tar.members (basename p) T)) in
  _copy_logic (VStr p) keys w = Storage.store (basic_ps_keys ++ keys) values w
  /\ forall w' t par c,
       is_write_mode (STORAGE w') = false ->
       storage_get (basic_ps_keys ++ keys) (storage_object (STORAGE w'))
         = Some values ->
       Os.resolve t w' = Returned (par ++ [c]) ->
       stat par (fs w') = Some KDir ->
       stat (par ++ [c]) (fs w') = None ->
       kind_of T = KDir \/ endswith_sep t = false ->
       exists n',
         _copy_logic (VStr t) keys w'
         = (Returned tt,
            Os.set_fs n' (Storage.heard (CallRead (basic_ps_keys ++ keys)) w'))
         /\ forall x, stat x n'
              = match strip_prefix (par ++ [c]) x with
                | Some r => stat r T
                | None => stat x (fs w')
                end.
Proof.
  intros Hloss (Hwf & Hv & Hd) Hm Hr Hl Hdn Hbn values. split.
  - now apply copy_logic_pack with (q := q).
  - intros w' t par c Hm' Hg Ht Hpar Hp Hkind.
    rewrite (copy_logic_read _ _ _ Hm').
    pose proof (Hloss (Tar.members (basename p) T)) as Hrd.
    destruct T as [d|es].
    + destruct Hkind as [Hk|He]; [discriminate|].
      now apply unpack_file with (b := tar_write (Tar.members (basename p) (File d)))
                                 (top := basename p).
    + apply unpack_dir with (b := tar_write (Tar.members (basename p) (Dir es)))
                            (top := basename p); auto using basename_nosep.
      now apply (wf_lookup q (fs w)).
Qed.

End WithCodec.
End RoundTrip.

(** ** What the read branch leaves alone *)

Module Frames.
Import OsPath OsPathFacts Fs FsFacts FsSpecs OsFacts ArtifactFacts CopyLogic.
Import StoreFiles.

Section WithCodec.
Context {codec : TarCodec}.

Lemma same_process_refl w : Os.same_process w w.
Proof. repeat split. Qed.

Lemma same_process_trans w1 w2 w3 :
  Os.same_process w1 w2 -> Os.same_process w2 w3 -> Os.same_process w1 w3.
Proof.
  intros (H1 & H2 & H3) (H4 & H5 & H6). repeat split; congruence.
Qed.

Lemma same_process_set_fs n w : Os.same_process w (Os.set_fs n w).
Proof. repeat split. Qed.

Lemma fs_only_pure {A} (r : outcome A) : Os.fs_only (fun w => (r, w)).
Proof. intros w. apply same_process_refl. Qed.

Lemma fs_only_ret {A} (a : A) : Os.fs_only (ret a).
Proof. apply fs_only_pure. Qed.

Lemma fs_only_raise {A} e : Os.fs_only (@raise _ A e).
Proof. apply fs_only_pure. Qed.

Lemma fs_only_bind {A B} (m : Py A) (k : A -> Py B) :
  Os.fs_only m -> (forall a, Os.fs_only (k a)) -> Os.fs_only (bind m k).
Proof.
  intros Hm Hk w. unfold bind. specialize (Hm w).
  destruct (m w) as [[a|e] w1]; simpl in *; auto.
  eapply same_process_trans; [exact Hm|apply Hk].
Qed.

Lemma fs_only_for_each {A} (l : list A) (body : A -> Py unit) :
  (forall a, Os.fs_only (body a)) -> Os.fs_only (for_each l body).
Proof.
  intros Hb. induction l as [|a l IH]; simpl.
  - apply fs_only_ret.
  - apply fs_only_bind; auto.
Qed.

Lemma fs_only_path_exists p : Os.fs_only (Os.path_exists p).
Proof. intros w. apply same_process_refl. Qed.

Lemma fs_only_at_path p op : Os.fs_only (Os.at_path p op).
Proof.
  intros w. unfold Os.at_path. destruct (Os.resolve p w) as [q|e].
  - destruct (op q (fs w)); simpl;
      auto using same_process_refl, same_process_set_fs.
  - apply same_process_refl.
Qed.

Lemma fs_only_makedirs p : Os.fs_only (Os.makedirs p).
Proof.
  intros w. unfold Os.makedirs. destruct (nonempty p).
  - destruct (makedirs _ _); simpl;
      auto using same_process_refl, same_process_set_fs.
  - apply same_process_refl.
Qed.

Lemma fs_only_makedir p : Os.fs_only (TarFile.makedir p).
Proof.
  intros w. unfold TarFile.makedir.
  pose proof (fs_only_at_path p mkdir w) as H. unfold Os.mkdir.
  destruct (Os.at_path p mkdir w) as [[[]|e] w1]; simpl in *; auto.
  destruct e; auto.
Qed.

End WithCodec.

(** The frame of a piece of code, from the frames of its parts. *)
Ltac frame :=
  repeat first
    [ apply fs_only_ret | apply fs_only_raise | apply fs_only_pure
    | apply fs_only_path_exists | apply fs_only_at_path
    | apply fs_only_makedirs | apply fs_only_makedir
    | apply fs_only_bind; [|intro]
    | apply fs_only_for_each; intro
    | match goal with
      | |- Os.fs_only (match ?x with _ => _ end) => destruct x
      end ].

Section ReadBranch.
Context {codec : TarCodec}.

Lemma fs_only_extract m t : Os.fs_only (TarFile.extract m t).
Proof. unfold TarFile.extract, Os.open_wb. frame. Qed.

(** The read branch asks the storage once and then works on the
    filesystem. *)
Lemma unpack_frame pathname keys w :
  Os.same_process (Storage.heard (CallRead (basic_ps_keys ++ keys)) w)
                  (snd (unpack pathname keys w)).
Proof.
  unfold unpack, bind at 1, Storage.read.
  cbn [Storage.record storage_object].
  fold (Storage.heard (CallRead (basic_ps_keys ++ keys)) w).
  destruct (storage_get _ _) as [v|]; [|apply same_process_refl].
  generalize (Storage.heard (CallRead (basic_ps_keys ++ keys)) w).
  change (Os.fs_only
    (bind (BytesIO v) (fun fileobj =>
     bind (TarFile.open_r fileobj) (fun members =>
     bind (fun w => (Py_.getitem members 0, w)) (fun tarinfo_1st_member =>
       if isfile tarinfo_1st_member
       then bind (as_path pathname)
                 (fun p => Os.open_wb p (payload tarinfo_1st_member))
       else for_each members (fun tar_item =>
              bind (as_path pathname)
                   (fun p => TarFile.extract (strip_topdir tar_item) p))))))).
  unfold BytesIO, TarFile.open_r, as_path, Os.open_wb.
  frame; apply fs_only_extract.
Qed.

Lemma read_branch_frame pathname keys w :
  is_write_mode (STORAGE w) = false ->
  let w' := snd (_copy_logic pathname keys w) in
  cwd w' = cwd w /\ recording w' = recording w
  /\ STORAGE w' = Storage.record (CallRead (basic_ps_keys ++ keys)) (STORAGE w).
Proof.
  intros Hm. rewrite (copy_logic_read _ _ _ Hm).
  destruct (unpack_frame pathname keys w) as (H1 & H2 & H3). auto.
Qed.

End ReadBranch.
End Frames.

(** ** Code that does not look at the calls received *)

Module Blind.
Import OsPath OsPathFacts Fs FsFacts FsSpecs OsFacts ArtifactFacts CopyLogic Frames.
Import StoreFiles Storage.

Section WithCodec.
Context {codec : TarCodec}.

Lemma alike_refl w : alike w w.
Proof. repeat split. Qed.

Lemma alike_set_fs n w w' :
  alike w w' -> alike (Os.set_fs n w) (Os.set_fs n w').
Proof. intros (H1 & H2 & H3). repeat split; tauto. Qed.

Lemma alike_resolve p w w' : alike w w' -> Os.resolve p w = Os.resolve p w'.
Proof. intros (H1 & H2 & _). unfold Os.resolve. now rewrite H1, H2. Qed.

Lemma blind_pure {A} (r : outcome A) : blind (fun w => (r, w)).
Proof. intros w w' H. split; [reflexivity|exact H]. Qed.

Lemma blind_bind {A B} (m : Py A) (k : A -> Py B) :
  blind m -> (forall a, blind (k a)) -> blind (bind m k).
Proof.
  intros Hm Hk w w' H. unfold bind. destruct (Hm w w' H) as [E1 E2].
  destruct (m w) as [[a|e] w1], (m w') as [[a'|e'] w1']; simpl in *;
    try discriminate.
  - inversion E1; subst a'. now apply Hk.
  - inversion E1; subst e'. now split.
Qed.

Lemma blind_for_each {A} (l : list A) (body : A -> Py unit) :
  (forall a, blind (body a)) -> blind (for_each l body).
Proof.
  intros Hb. induction l as [|a l IH]; simpl.
  - apply blind_pure.
  - apply blind_bind; auto.
Qed.

Lemma blind_try_except_pass body : blind body -> blind (try_except_pass body).
Proof.
  intros Hb w w' H. unfold try_except_pass. destruct (Hb w w' H) as [E1 E2].
  destruct (body w) as [[[]|e] w1], (body w') as [[[]|e'] w1']; simpl in *;
    try discriminate.
  - now split.
  - inversion E1; subst e'. destruct e; now split.
Qed.

Lemma blind_path_exists p : blind (Os.path_exists p).
Proof.
  intros w w' H. unfold Os.path_exists, Os.lstat. simpl.
  rewrite (alike_resolve p w w' H). pose proof H as (H1 & _). rewrite H1.
  split; [reflexivity|exact H].
Qed.

Lemma blind_at_path p op : blind (Os.at_path p op).
Proof.
  intros w w' H. unfold Os.at_path. rewrite (alike_resolve p w w' H).
  destruct (Os.resolve p w') as [q|e]; [|now split].
  pose proof H as (H1 & _). rewrite H1.
  destruct (op q (fs w')); simpl; split; auto using alike_set_fs.
Qed.

Lemma blind_makedirs p : blind (Os.makedirs p).
Proof.
  intros w w' H. unfold Os.makedirs. destruct (nonempty p); [|now split].
  pose proof H as (H1 & H2 & _). rewrite H1, H2.
  destruct (makedirs _ _); simpl; split; auto using alike_set_fs.
Qed.

Lemma blind_makedir p : blind (TarFile.makedir p).
Proof.
  intros w w' H. unfold TarFile.makedir, Os.mkdir.
  destruct (blind_at_path p mkdir w w' H) as [E1 E2].
  destruct (Os.at_path p mkdir w) as [[[]|e] w1],
           (Os.at_path p mkdir w') as [[[]|e'] w1']; simpl in *;
    try discriminate.
  - now split.
  - inversion E1; subst e'. destruct e; now split.
Qed.

Lemma blind_read keys : blind (Storage.read keys).
Proof.
  intros w w' H. unfold Storage.read. cbn [Storage.record storage_object].
  pose proof H as (_ & _ & _ & _ & _ & H6). rewrite H6.
  destruct (storage_get keys _); split; auto.
Qed.

End WithCodec.

Ltac blind :=
  repeat first
    [ apply blind_pure | apply blind_path_exists | apply blind_at_path
    | apply blind_makedirs | apply blind_makedir | apply blind_read
    | apply blind_bind; [|intro]
    | apply blind_for_each; intro
    | apply blind_try_except_pass
    | match goal with
      | |- Storage.blind (match ?x with _ => _ end) => destruct x
      end ].

Section ReadBranch.
Context {codec : TarCodec}.

Lemma blind_extract m t : blind (TarFile.extract m t).
Proof. unfold TarFile.extract, Os.open_wb, ret. blind. Qed.

Lemma blind_unpack pathname keys : blind (unpack pathname keys).
Proof.
  unfold unpack, BytesIO, TarFile.open_r, as_path, Os.open_wb, ret, raise.
  blind; apply blind_extract.
Qed.

End ReadBranch.
End Blind.

(** ** The decorators while recording *)

Module Decorators.
Import OsPath OsPathFacts Fs FsFacts FsSpecs OsFacts ArtifactFacts CopyLogic Frames.
Import StoreFiles Storage Blind.

Section WithCollaborators.
Context {codec : TarCodec}.
Variable store_function_output : callable -> callable.

(** *** Loops *)

Lemma bind_ret_tt (m : Py unit) w : bind m (fun _ => ret tt) w = m w.
Proof. unfold bind, ret. now destruct (m w) as [[[]|e] w']. Qed.

Lemma for_each_ext {A} (l : list A) (f g : A -> Py unit) :
  (forall a w, f a w = g a w) -> forall w, for_each l f w = for_each l g w.
Proof.
  intros H. induction l as [|a l IH]; intros w; simpl; [reflexivity|].
  unfold bind. rewrite H. destruct (g a w) as [[[]|e] w']; auto.
Qed.

Lemma for_each_flat_map {A B} (g : A -> list B) (body : B -> Py unit) l :
  forall w, for_each (flat_map g l) body w
            = for_each l (fun a => for_each (g a) body) w.
Proof.
  induction l as [|a l IH]; intros w; simpl; [reflexivity|].
  rewrite for_each_app. unfold bind.
  destruct (for_each (g a) body w) as [[[]|e] w']; auto.
Qed.

(** The two loops of [guess_args] visit the candidates in order. *)
Lemma guess_loops ctl args kwargs (k : Py value) w :
  bind (for_each (Py_.enumerate args) (fun '(position, arg) =>
          match arg with
          | VStr s => guess_one s (ctl ++ [KInt position])
          | _ => ret tt
          end))
       (fun _ =>
          bind (for_each kwargs (fun '(name, v) =>
                  match v with
                  | VStr s => guess_one s (ctl ++ [KStr name])
                  | _ => ret tt
                  end))
               (fun _ => k)) w
  = bind (for_each (candidates args kwargs)
            (fun '(key, s) => guess_one s (ctl ++ [key])))
         (fun _ => k) w.
Proof.
  unfold candidates.
  assert (H1 : forall w0,
    for_each (Py_.enumerate args) (fun '(position, arg) =>
      match arg with
      | VStr s => guess_one s (ctl ++ [KInt position])
      | _ => ret tt
      end) w0
    = for_each (flat_map (fun '(position, arg) =>
          match arg with VStr s => [(KInt position, s)] | _ => [] end)
        (Py_.enumerate args))
        (fun '(key, s) => guess_one s (ctl ++ [key])) w0).
  { intros w0. rewrite for_each_flat_map. apply for_each_ext.
    intros [position arg] w1. destruct arg; try reflexivity.
    simpl. now rewrite bind_ret_tt. }
  assert (H2 : forall w0,
    for_each kwargs (fun '(name, v) =>
      match v with
      | VStr s => guess_one s (ctl ++ [KStr name])
      | _ => ret tt
      end) w0
    = for_each (flat_map (fun '(name, v) =>
          match v with VStr s => [(KStr name, s)] | _ => [] end) kwargs)
        (fun '(key, s) => guess_one s (ctl ++ [key])) w0).
  { intros w0. rewrite for_each_flat_map. apply for_each_ext.
    intros [name v] w1. destruct v; try reflexivity.
    simpl. now rewrite bind_ret_tt. }
  unfold bind at 1 3. rewrite for_each_app, H1. unfold bind at 2.
  destruct (for_each (flat_map _ (Py_.enumerate args)) _ w) as [[[]|e] w1]; auto.
  unfold bind. now rewrite H2.
Qed.

(** A recording call of [guess_args]: the capture primitive, then the
    candidates. *)
Lemma guess_args_recording func args kwargs w output w1 :
  recording w = true ->
  store_function_output func args kwargs w = (Returned output, w1) ->
  guess_args store_function_output func args kwargs w
  = bind (for_each (candidates args kwargs)
            (fun '(key, s) =>
               guess_one s ([KStr __name__;
                             KStr (basename (storage_file (STORAGE w)))]
                            ++ [key])))
         (fun _ => ret output) w1.
Proof.
  intros Hrec Hout. unfold guess_args.
  unfold bind at 1, _test_identifier. unfold bind at 1, get_if_recording.
  rewrite Hrec. cbn [negb]. unfold bind at 1. rewrite Hout.
  apply guess_loops.
Qed.

(** *** Replay with [guess_args] *)

Lemma guess_one_read s keys w :
  is_write_mode (STORAGE w) = false ->
  guess_one s keys w = try_except_pass (_copy_logic (VStr s) keys) w.
Proof. intros H. unfold guess_one. now rewrite H. Qed.

Lemma guess_one_missing s keys w :
  is_write_mode (STORAGE w) = false ->
  storage_get (basic_ps_keys ++ keys) (storage_object (STORAGE w)) = None ->
  guess_one s keys w
  = (Returned tt, Storage.heard (CallRead (basic_ps_keys ++ keys)) w).
Proof.
  intros Hm Hg. rewrite (guess_one_read _ _ _ Hm). unfold try_except_pass.
  now rewrite (copy_logic_read _ _ _ Hm), (unpack_missing _ _ _ Hg).
Qed.

Lemma guess_one_read_frame s keys w :
  is_write_mode (STORAGE w) = false ->
  fst (guess_one s keys w) <> Raised PersistentStorageException
  /\ is_write_mode (STORAGE (snd (guess_one s keys w))) = false
  /\ storage_object (STORAGE (snd (guess_one s keys w)))
     = storage_object (STORAGE w).
Proof.
  intros Hm. rewrite (guess_one_read _ _ _ Hm).
  destruct (read_branch_frame (VStr s) keys w Hm) as (_ & _ & HS).
  unfold try_except_pass.
  destruct (_copy_logic (VStr s) keys w) as [[[]|e] w']; simpl in *;
    try (destruct e); simpl; rewrite HS; repeat split; auto; discriminate.
Qed.

Lemma guess_loop_read ctl cs : forall w,
  is_write_mode (STORAGE w) = false ->
  let r := for_each cs (fun '(key, s) => guess_one s (ctl ++ [key])) w in
  fst r <> Raised PersistentStorageException
  /\ ((forall key s, In (key, s) cs ->
         storage_get (basic_ps_keys ++ ctl ++ [key])
                     (storage_object (STORAGE w)) = None) ->
      fst r = Returned tt /\ fs (snd r) = fs w).
Proof.
  induction cs as [|[key s] cs IH]; intros w Hm; simpl.
  - split; [discriminate|auto].
  - destruct (guess_one_read_frame s (ctl ++ [key]) w Hm) as (Hne & Hm' & Hso).
    unfold bind.
    destruct (guess_one s (ctl ++ [key]) w) as [[[]|e] w'] eqn:E; simpl in *.
    + destruct (IH w' Hm') as [IH1 IH2]. split; [assumption|].
      intros Habs.
      assert (E' : guess_one s (ctl ++ [key]) w
                   = (Returned tt,
                      Storage.heard (CallRead (basic_ps_keys ++ ctl ++ [key])) w))
        by (apply guess_one_missing; [assumption|apply (Habs key s); now left]).
      rewrite E in E'. inversion E'; subst w'.
      destruct IH2 as [IH2 IH3].
      * intros key' s' Hin. simpl. apply (Habs key' s'). now right.
      * split; [assumption|]. rewrite IH3. reflexivity.
    + split; [assumption|].
      intros Habs.
      rewrite guess_one_missing in E;
        [discriminate|assumption|apply (Habs key s); now left].
Qed.

(** A candidate in read mode does not look at the calls received. *)
Lemma blind_guess_one_read s keys w w' :
  alike w w' -> is_write_mode (STORAGE w) = false ->
  fst (guess_one s keys w) = fst (guess_one s keys w')
  /\ alike (snd (guess_one s keys w)) (snd (guess_one s keys w')).
Proof.
  intros H Hm.
  assert (Hm' : is_write_mode (STORAGE w') = false)
    by (destruct H as (_ & _ & _ & H4 & _); congruence).
  rewrite (guess_one_read _ _ _ Hm), (guess_one_read _ _ _ Hm').
  unfold try_except_pass.
  rewrite (copy_logic_read _ _ _ Hm), (copy_logic_read _ _ _ Hm').
  exact (blind_try_except_pass _ (blind_unpack (VStr s) keys) w w' H).
Qed.

(** In read mode the candidates without an artifact can be left out: the
    loop ends with the same outcome in a world that differs in the calls
    received at most. *)
Lemma guess_loop_skips_missing ctl so cs : forall w w',
  alike w w' -> is_write_mode (STORAGE w) = false ->
  storage_object (STORAGE w) = so ->
  let body := fun '(key, s) => guess_one s (ctl ++ [key]) in
  fst (for_each cs body w)
  = fst (for_each (recorded_candidates ctl so cs) body w')
  /\ alike (snd (for_each cs body w))
           (snd (for_each (recorded_candidates ctl so cs) body w')).
Proof.
  induction cs as [|[key s] cs IH]; intros w w' Hal Hm Hso body.
  - simpl. now split.
  - destruct (guess_one_read_frame s (ctl ++ [key]) w Hm) as (_ & Hm1 & Hso1).
    cbn [recorded_candidates filter for_each].
    fold (recorded_candidates ctl so cs).
    destruct (storage_get (basic_ps_keys ++ ctl ++ [key]) so) as [v|] eqn:Hg.
    + (* recorded: both loops run the candidate *)
      cbn [for_each]. unfold bind. fold body.
      destruct (blind_guess_one_read s (ctl ++ [key]) w w' Hal Hm) as [E1 E2].
      change (body (key, s)) with (guess_one s (ctl ++ [key])).
      destruct (guess_one s (ctl ++ [key]) w) as [[[]|e] w1],
               (guess_one s (ctl ++ [key]) w') as [[[]|e'] w1'];
        simpl in *; try discriminate.
      * apply IH; [assumption|assumption|congruence].
      * now split.
    + (* missing: one read, and on *)
      cbn [for_each]. unfold bind. fold body.
      change (body (key, s)) with (guess_one s (ctl ++ [key])).
      rewrite guess_one_missing; [|assumption|now rewrite Hso].
      apply IH; [exact Hal|exact Hm|exact Hso].
Qed.

(** C5.  Replay with [guess_args] (recording on, storage in read mode, the
    capture primitive has returned [output]).  A string argument without a
    recorded artifact costs one [read] and nothing else: the
    [PersistentStorageException] is caught.  The decorated call never raises
    that exception.  Its outcome, filesystem and working directory are those
    of the same loop over the string arguments that do have a recorded
    artifact; and when none has one it returns [output] with the filesystem
    as the capture primitive left it. *)
Theorem guess_args_tolerates_missing
  (func : callable) (args : list value) (kwargs : list (string * value))
  (w : World) (output : value) (w1 : World) :
  recording w = true ->
  store_function_output func args kwargs w = (Returned output, w1) ->
  is_write_mode (STORAGE w1) = false ->
  let class_test_id_list :=
    [KStr __name__; KStr (basename (storage_file (STORAGE w)))] in
  let r := guess_args store_function_output func args kwargs w in
  let kept :=
    recorded_candidates class_test_id_list (storage_object (STORAGE w1))
                        (candidates args kwargs) in
  let r' :=
    bind (for_each kept
            (fun '(key, s) => guess_one s (class_test_id_list ++ [key])))
         (fun _ => ret output) w1 in
  (forall s keys w2,
     is_write_mode (STORAGE w2) = false ->
     storage_get (basic_ps_keys ++ keys) (storage_object (STORAGE w2)) = None ->
     guess_one s keys w2
     = (Returned tt, Storage.heard (CallRead (basic_ps_keys ++ keys)) w2))
  /\ fst r <> Raised PersistentStorageException
  /\ (fst r = fst r' /\ fs (snd r) = fs (snd r') /\ cwd (snd r) = cwd (snd r'))
  /\ ((forall key s, In (key, s) (candidates args kwargs) ->
         storage_get (basic_ps_keys ++ class_test_id_list ++ [key])
                     (storage_object (STORAGE w1)) = None) ->
      fst r = Returned output /\ fs (snd r) = fs w1).
Proof.
  intros Hrec Hout Hm ctl r kept r'. split; [|split; [|split]].
  - intros s keys w2. apply guess_one_missing.
  - subst r. rewrite (guess_args_recording _ _ _ _ _ _ Hrec Hout).
    destruct (guess_loop_read ctl (candidates args kwargs) w1 Hm) as [Hne _].
    unfold bind. fold ctl. revert Hne.
    destruct (for_each (candidates args kwargs) _ w1) as [[[]|e] w'];
      simpl; intros Hne; [discriminate|].
    intros E. apply Hne. inversion E. reflexivity.
  - subst r r' kept. rewrite (guess_args_recording _ _ _ _ _ _ Hrec Hout).
    destruct (guess_loop_skips_missing ctl (storage_object (STORAGE w1))
                (candidates args kwargs) w1 w1 (alike_refl w1) Hm eq_refl)
      as [E1 E2].
    unfold bind. fold ctl. revert E1 E2.
    destruct (for_each (candidates args kwargs) _ w1) as [[[]|e] w2],
             (for_each (recorded_candidates _ _ _) _ w1) as [[[]|e'] w2'];
      simpl; intros E1 E2; try discriminate;
      destruct E2 as (F1 & F2 & _); repeat split; auto.
    inversion E1. reflexivity.
  - intros Habs. subst r.
    rewrite (guess_args_recording _ _ _ _ _ _ Hrec Hout).
    destruct (guess_loop_read ctl (candidates args kwargs) w1 Hm) as [_ Hall].
    destruct (Hall Habs) as [Hr Hfs].
    unfold bind. fold ctl. revert Hr Hfs.
    destruct (for_each (candidates args kwargs) _ w1) as [[[]|e] w'];
      simpl; intros Hr Hfs; [auto|discriminate].
Qed.

End WithCollaborators.
End Decorators.

Module References.
Import OsPath OsPathFacts Fs FsFacts FsSpecs OsFacts ArtifactFacts CopyLogic Frames.
Import StoreFiles.

Section WithCollaborators.
Context {codec : TarCodec}.
Variable store_function_output : callable -> callable.

(** A recording call of [arg_references]: the capture primitive, then the
    declared entries. *)
Lemma arg_references_recording files_params func args kwargs w output w1 :
  recording w = true ->
  store_function_output func args kwargs w = (Returned output, w1) ->
  arg_references store_function_output files_params func args kwargs w
  = bind (for_each files_params (fun '(key, position) =>
            reference_one args kwargs
              [KStr __name__; KStr (basename (storage_file (STORAGE w)))]
              key position))
         (fun _ => ret output) w1.
Proof.
  intros Hrec Hout. unfold arg_references.
  unfold bind at 1, _test_identifier. unfold bind at 1, get_if_recording.
  rewrite Hrec. cbn [negb]. unfold bind at 1. now rewrite Hout.
Qed.

Lemma param_of_frame args kwargs key position w :
  snd (param_of args kwargs key position w) = w.
Proof. unfold param_of. now destruct (assoc key kwargs). Qed.

(** In read mode an entry leaves the storage as it is, one [read] apart. *)
Lemma reference_one_read_frame args kwargs ctl key position w :
  is_write_mode (STORAGE w) = false ->
  let w' := snd (reference_one args kwargs ctl key position w) in
  is_write_mode (STORAGE w') = false
  /\ storage_object (STORAGE w') = storage_object (STORAGE w).
Proof.
  intros Hm. unfold reference_one, bind.
  pose proof (param_of_frame args kwargs key position w) as Hp.
  destruct (param_of args kwargs key position w) as [[param|e] w0];
    simpl in Hp; subst w0; simpl; [|auto].
  destruct (read_branch_frame param (ctl ++ [KStr key]) w Hm) as (_ & _ & HS).
  rewrite HS. auto.
Qed.

(** An entry without a recorded artifact raises, whatever its argument. *)
Lemma reference_one_missing args kwargs ctl key position w :
  is_write_mode (STORAGE w) = false ->
  storage_get (basic_ps_keys ++ ctl ++ [KStr key]) (storage_object (STORAGE w))
    = None ->
  exists e, fst (reference_one args kwargs ctl key position w) = Raised e.
Proof.
  intros Hm Hg. unfold reference_one, bind.
  pose proof (param_of_frame args kwargs key position w) as Hp.
  destruct (param_of args kwargs key position w) as [[param|e] w0];
    simpl in Hp; subst w0; simpl; [|eauto].
  rewrite (copy_logic_read _ _ _ Hm), (unpack_missing _ _ _ Hg).
  exists PersistentStorageException. reflexivity.
Qed.

Lemma reference_loop_frame args kwargs ctl fp : forall w,
  is_write_mode (STORAGE w) = false ->
  let w' := snd (for_each fp (fun '(key, position) =>
                   reference_one args kwargs ctl key position) w) in
  is_write_mode (STORAGE w') = false
  /\ storage_object (STORAGE w') = storage_object (STORAGE w).
Proof.
  induction fp as [|[k0 p0] fp IH]; intros w Hm; simpl; [auto|].
  unfold bind.
  destruct (reference_one_read_frame args kwargs ctl k0 p0 w Hm) as [Hm' Hso].
  destruct (reference_one args kwargs ctl k0 p0 w) as [[[]|e] w'];
    simpl in *; [|auto].
  destruct (IH w' Hm') as [H1 H2]. split; congruence.
Qed.

Lemma reference_loop_raises args kwargs ctl key position fp : forall w,
  is_write_mode (STORAGE w) = false ->
  In (key, position) fp ->
  storage_get (basic_ps_keys ++ ctl ++ [KStr key]) (storage_object (STORAGE w))
    = None ->
  exists e,
    fst (for_each fp (fun '(key, position) =>
           reference_one args kwargs ctl key position) w) = Raised e.
Proof.
  induction fp as [|[k0 p0] fp IH]; intros w Hm Hin Hg; [contradiction|].
  simpl. unfold bind.
  destruct (reference_one_read_frame args kwargs ctl k0 p0 w Hm) as [Hm' Hso].
  destruct Hin as [E|Hin].
  - inversion E; subst k0 p0.
    destruct (reference_one_missing args kwargs ctl key position w Hm Hg)
      as [e He].
    destruct (reference_one args kwargs ctl key position w) as [[[]|e'] w'];
      simpl in *; [discriminate|eauto].
  - destruct (reference_one args kwargs ctl k0 p0 w) as [[[]|e'] w'];
      simpl in *; [|eauto].
    apply IH; auto. now rewrite Hso.
Qed.

(** C6.  Replay with [arg_references] (recording on, storage in read mode,
    the capture primitive has returned).  When the artifact of a declared
    argument is not in the storage the decorated call raises: it never
    returns normally.  What it raises is the storage's
    [PersistentStorageException], with one [read] received for that key
    sequence, once the call gets to that entry: the entries declared before
    it were restored, and the argument is there, by keyword or at its
    position. *)
Theorem arg_references_raises_on_missing
  (files_params : list (string * Z)) (func : callable)
  (args : list value) (kwargs : list (string * value))
  (w : World) (output : value) (w1 : World) (key : string) (position : Z) :
  recording w = true ->
  store_function_output func args kwargs w = (Returned output, w1) ->
  is_write_mode (STORAGE w1) = false ->
  let class_test_id_list :=
    [KStr __name__; KStr (basename (storage_file (STORAGE w)))] in
  let keys := class_test_id_list ++ [KStr key] in
  storage_get (basic_ps_keys ++ keys) (storage_object (STORAGE w1)) = None ->
  let r := arg_references store_function_output files_params func
             args kwargs w in
  (In (key, position) files_params -> exists e, fst r = Raised e)
  /\ (forall before after w2 param,
        files_params = before ++ (key, position) :: after ->
        for_each before (fun '(key, position) =>
          reference_one args kwargs class_test_id_list key position) w1
          = (Returned tt, w2) ->
        param_of args kwargs key position w2 = (Returned param, w2) ->
        r = (Raised PersistentStorageException,
             Storage.heard (CallRead (basic_ps_keys ++ keys)) w2)).
Proof.
  intros Hrec Hout Hm ctl keys Hg r. subst r.
  rewrite (arg_references_recording _ _ _ _ _ _ _ Hrec Hout). fold ctl.
  split.
  - intros Hin.
    destruct (reference_loop_raises args kwargs ctl key position files_params
                w1 Hm Hin Hg) as [e He].
    unfold bind. revert He.
    destruct (for_each files_params _ w1) as [[[]|e'] w']; simpl;
      intros He; [discriminate|eauto].
  - intros before after w2 param -> Hbefore Hparam.
    assert (Hinv : is_write_mode (STORAGE w2) = false
                   /\ storage_object (STORAGE w2) = storage_object (STORAGE w1)).
    { pose proof (reference_loop_frame args kwargs ctl before w1 Hm) as H.
      simpl in H. rewrite Hbefore in H. exact H. }
    destruct Hinv as [Hm2 Hso2].
    unfold bind at 1. rewrite for_each_app. unfold bind at 1. rewrite Hbefore.
    simpl for_each. unfold bind at 1. unfold reference_one at 1.
    unfold bind at 1. rewrite Hparam.
    rewrite (copy_logic_read _ _ _ Hm2).
    rewrite unpack_missing by (now rewrite Hso2).
    reflexivity.
Qed.

End WithCollaborators.
End References.

Module Recording.
Import OsPath OsPathFacts Fs FsFacts FsSpecs OsFacts ArtifactFacts CopyLogic Frames Decorators RoundTrip.
Import StoreFiles.

Section WithCollaborators.
Context {codec : TarCodec}.
Variable store_function_output : callable -> callable.

(** *** The record pass of [guess_args] *)

Lemma guess_one_write s keys w :
  is_write_mode (STORAGE w) = true ->
  guess_one s keys w
  = match Os.lstat s w with
    | Some _ => _copy_logic (VStr s) keys w
    | None => (Returned tt, w)
    end.
Proof.
  intros Hm. unfold guess_one, bind, Os.path_exists. rewrite Hm.
  now destruct (Os.lstat s w).
Qed.

(** The body of the [try] calls the storage once at most, with a [store]
    under the key sequence. *)
Lemma pack_calls pathname keys w :
  let w' := snd (pack pathname keys w) in
  calls (STORAGE w') = calls (STORAGE w)
  \/ exists v, calls (STORAGE w')
               = calls (STORAGE w) ++ [CallStore (basic_ps_keys ++ keys) v].
Proof.
  unfold pack, bind, as_path.
  destruct pathname as [| | |p| |]; simpl; auto.
  unfold Os.chdir.
  destruct (Os.resolve (dirname p) w) as [D|e]; simpl; auto.
  destruct (stat D (fs w)) as [[d|]|]; simpl; auto.
  unfold TarFile.add.
  destruct (Os.resolve (basename p) (Os.set_cwd D w)) as [q|e]; simpl; auto.
  destruct (lookup q (fs w)) as [T|]; simpl; auto.
  right. unfold Storage.store. simpl.
  destruct (is_write_mode (STORAGE w)); simpl; eauto.
Qed.

Lemma lstat_same s w w' :
  fs w' = fs w -> cwd w' = cwd w -> Os.lstat s w' = Os.lstat s w.
Proof.
  intros Hf Hc. unfold Os.lstat, Os.resolve. now rewrite Hf, Hc.
Qed.

(** What one candidate does in write mode. *)
Lemma guess_one_write_frame s keys w :
  is_write_mode (STORAGE w) = true ->
  forallb valid_name (cwd w) = true ->
  stat (cwd w) (fs w) = Some KDir ->
  let w' := snd (guess_one s keys w) in
  fs w' = fs w /\ cwd w' = cwd w
  /\ is_write_mode (STORAGE w') = true
  /\ (calls (STORAGE w') = calls (STORAGE w)
      \/ exists v, Os.lstat s w <> None
           /\ calls (STORAGE w')
              = calls (STORAGE w) ++ [CallStore (basic_ps_keys ++ keys) v]).
Proof.
  intros Hm Hv Hd. rewrite (guess_one_write _ _ _ Hm).
  destruct (Os.lstat s w) as [k|] eqn:El; simpl; [|auto].
  rewrite (copy_logic_write_restores _ _ _ Hm Hv Hd). simpl.
  destruct (pack (VStr s) keys w) as [r w'] eqn:E.
  destruct (pack_frame _ _ _ _ _ E) as (Hfs & _ & Hw & _).
  pose proof (pack_calls (VStr s) keys w) as Hc. rewrite E in Hc. simpl in *.
  repeat split; auto; try congruence.
  destruct Hc as [Hc|[v Hc]]; [auto|right].
  exists v. split; [discriminate|assumption].
Qed.

Lemma guess_loop_write ctl w1 cs0 cs : forall w,
  (forall e, In e cs -> In e cs0) ->
  is_write_mode (STORAGE w) = true ->
  forallb valid_name (cwd w) = true ->
  stat (cwd w) (fs w) = Some KDir ->
  fs w = fs w1 -> cwd w = cwd w1 ->
  let r := for_each cs (fun '(key, s) => guess_one s (ctl ++ [key])) w in
  exists new,
    calls (STORAGE (snd r)) = calls (STORAGE w) ++ new
    /\ Forall (stores_of ctl cs0 w1) new.
Proof.
  induction cs as [|[key s] cs IH]; intros w Hin Hm Hv Hd Hfs Hcwd; simpl.
  - exists []. split; [now rewrite app_nil_r|constructor].
  - destruct (guess_one_write_frame s (ctl ++ [key]) w Hm Hv Hd)
      as (Hfs' & Hcwd' & Hm' & Hc).
    unfold bind.
    destruct (guess_one s (ctl ++ [key]) w) as [[[]|e] w'] eqn:E; simpl in *.
    + destruct (IH w') as (new & Hnew & Hall); auto; try congruence.
      destruct Hc as [Hc|(v & Hex & Hc)].
      * exists new. split; [congruence|assumption].
      * exists (CallStore (basic_ps_keys ++ ctl ++ [key]) v :: new). split.
        -- rewrite Hnew, Hc, <- app_assoc. reflexivity.
        -- constructor; [|assumption].
           exists key, s, v. split; [apply Hin; now left|split; [|reflexivity]].
           rewrite (lstat_same s w w1) by congruence. assumption.
    + destruct Hc as [Hc|(v & Hex & Hc)].
      * exists []. split; [now rewrite app_nil_r|constructor].
      * exists [CallStore (basic_ps_keys ++ ctl ++ [key]) v]. split; [assumption|].
        constructor; [|constructor].
        exists key, s, v. split; [apply Hin; now left|split; [|reflexivity]].
        rewrite (lstat_same s w w1) by congruence. assumption.
Qed.

Lemma guess_loop_skips ctl cs : forall w,
  is_write_mode (STORAGE w) = true ->
  (forall key s, In (key, s) cs -> Os.lstat s w = None) ->
  for_each cs (fun '(key, s) => guess_one s (ctl ++ [key])) w = (Returned tt, w).
Proof.
  induction cs as [|[key s] cs IH]; intros w Hm Habs; simpl; [reflexivity|].
  unfold bind. rewrite (guess_one_write _ _ _ Hm).
  rewrite (Habs key s) by now left.
  apply IH; auto. intros key' s' Hin. apply (Habs key' s'). now right.
Qed.

(** C9.  The record pass of [guess_args] (recording on, storage in write
    mode, the capture primitive has returned [output] and left the process
    in a working directory that exists).  A string argument at which nothing
    exists is passed over: no call to the storage, no exception.  When that
    holds for every string argument the decorated call returns [output] and
    changes nothing.  In any case every call the storage receives from the
    decorator is a [store] under the key sequence of a string argument whose
    path exists. *)
Theorem guess_args_packs_existing_paths_only
  (func : callable) (args : list value) (kwargs : list (string * value))
  (w : World) (output : value) (w1 : World) :
  recording w = true ->
  store_function_output func args kwargs w = (Returned output, w1) ->
  is_write_mode (STORAGE w1) = true ->
  forallb valid_name (cwd w1) = true ->
  stat (cwd w1) (fs w1) = Some KDir ->
  let class_test_id_list :=
    [KStr __name__; KStr (basename (storage_file (STORAGE w)))] in
  let r := guess_args store_function_output func args kwargs w in
  (forall s keys w2,
     is_write_mode (STORAGE w2) = true -> Os.lstat s w2 = None ->
     guess_one s keys w2 = (Returned tt, w2))
  /\ ((forall key s, In (key, s) (candidates args kwargs) ->
         Os.lstat s w1 = None) ->
      r = (Returned output, w1))
  /\ exists new,
       calls (STORAGE (snd r)) = calls (STORAGE w1) ++ new
       /\ Forall (fun c =>
            exists key s v,
              In (key, s) (candidates args kwargs)
              /\ Os.lstat s w1 <> None
              /\ c = CallStore
                       (basic_ps_keys ++ class_test_id_list ++ [key]) v) new.
Proof.
  intros Hrec Hout Hm Hv Hd ctl r. subst r.
  rewrite (guess_args_recording _ _ _ _ _ _ _ Hrec Hout). fold ctl.
  split; [|split].
  - intros s keys w2 Hm2 Hl. rewrite (guess_one_write _ _ _ Hm2). now rewrite Hl.
  - intros Habs. unfold bind.
    now rewrite (guess_loop_skips ctl _ w1 Hm Habs).
  - destruct (guess_loop_write ctl w1 (candidates args kwargs)
                (candidates args kwargs) w1) as (new & Hnew & Hall); auto.
    exists new. split; [|exact Hall].
    unfold bind. revert Hnew.
    destruct (for_each (candidates args kwargs) _ w1) as [[[]|e] w']; auto.
Qed.

End WithCollaborators.
End Recording.

Module Replay.
Import OsPath OsPathFacts Fs FsFacts FsSpecs OsFacts ArtifactFacts CopyLogic Frames Decorators RoundTrip Recording.
Import StoreFiles.

Section WithCollaborators.
Context {codec : TarCodec}.
Variable store_function_output : callable -> callable.

Lemma return_value_recording func args kwargs w output w1 :
  recording w = true ->
  store_function_output func args kwargs w = (Returned output, w1) ->
  return_value store_function_output func args kwargs w
  = bind (_copy_logic output
            [KStr __name__; KStr (basename (storage_file (STORAGE w1)))])
         (fun _ => ret output) w1.
Proof.
  intros Hrec Hout. unfold return_value.
  unfold bind at 1, get_if_recording. rewrite Hrec. cbn [negb].
  unfold bind at 1. rewrite Hout. reflexivity.
Qed.

(** C4, as amended.  Replay with [return_value] (recording on, storage in
    read mode, the capture primitive has returned [output]): the decorator
    runs the read branch of [_copy_logic] on the returned path.  The storage
    receives one [read], under the three base keys, the class name and the
    test identifier; a stored archive whose first member is a regular file is
    written to the returned path; whatever the read branch raises is raised
    by the decorated call. *)
Theorem return_value_unpacks_on_replay
  (func : callable) (args : list value) (kwargs : list (string * value))
  (w : World) (output : value) (w1 : World) :
  recording w = true ->
  store_function_output func args kwargs w = (Returned output, w1) ->
  is_write_mode (STORAGE w1) = false ->
  let keys := [KStr __name__; KStr (basename (storage_file (STORAGE w1)))] in
  let r := return_value store_function_output func args kwargs w in
  r = match unpack output keys w1 with
      | (Returned _, w2) => (Returned output, w2)
      | (Raised e, w2) => (Raised e, w2)
      end
  /\ STORAGE (snd r)
     = Storage.record (CallRead (basic_ps_keys ++ keys)) (STORAGE w1)
  /\ (forall p b m ms,
        output = VStr p ->
        storage_get (basic_ps_keys ++ keys) (storage_object (STORAGE w1))
          = Some (VBytes b) ->
        tar_read b = Some (m :: ms) ->
        isfile m = true ->
        r = bind (Os.open_wb p (payload m)) (fun _ => ret output)
                 (Storage.heard (CallRead (basic_ps_keys ++ keys)) w1)).
Proof.
  intros Hrec Hout Hm keys r. subst r.
  rewrite (return_value_recording _ _ _ _ _ _ Hrec Hout). fold keys.
  unfold bind at 1 2. rewrite (copy_logic_read _ _ _ Hm).
  split; [|split].
  - now destruct (unpack output keys w1) as [[[]|e] w2].
  - destruct (unpack_frame output keys w1) as (_ & _ & HS).
    destruct (unpack output keys w1) as [[[]|e] w2]; simpl in *; exact HS.
  - intros p b m ms -> Hg Hr Hf. unfold bind.
    rewrite (copy_logic_read _ _ _ Hm).
    rewrite (unpack_members _ _ _ _ _ Hg Hr), Hf. reflexivity.
Qed.

(** C3, as amended.  The record pass of the scenario, for a path [p] with a
    directory part: [p] ends in the name [src_dir] and names the directory
    with [a.txt] and [b/c.txt].  The decorated call returns what the
    function returned.  The storage receives one call, a [store] under the
    three base keys, the class name, the test identifier [test1] and the
    position [0] of the argument; its content changes at that key sequence
    only.  Unpacked at a fresh target, the stored value restores [a.txt] and
    [b/c.txt] with their bytes right below the target: there is no entry
    [src_dir] between. *)
Theorem record_pass_stores_under_position
  (func : callable) (p : string) (a c : bytes)
  (w : World) (output : value) (w1 : World) (q : list string) :
  lossless codec ->
  recording w = true ->
  store_function_output func [VStr p] [] w = (Returned output, w1) ->
  World_ok w1 ->
  is_write_mode (STORAGE w1) = true ->
  basename (storage_file (STORAGE w)) = "test1" ->
  Os.resolve p w1 = Returned q ->
  lookup q (fs w1) = Some (Scenario.src_dir a c) ->
  nonempty (dirname p) = true ->
  basename p = "src_dir" ->
  let keys := [KStr "StoreFiles"; KStr "test1"; KInt 0] in
  let values :=
    VBytes (tar_write (Tar.members "src_dir" (Scenario.src_dir a c))) in
  guess_args store_function_output func [VStr p] [] w
  = (Returned output,
     snd (Storage.store ([KStr "X"; KStr "file"; KStr "tar"] ++ keys) values w1))
  /\ forall w' t par d,
       is_write_mode (STORAGE w') = false ->
       storage_get ([KStr "X"; KStr "file"; KStr "tar"] ++ keys)
                   (storage_object (STORAGE w')) = Some values ->
       Os.resolve t w' = Returned (par ++ [d]) ->
       stat par (fs w') = Some KDir ->
       stat (par ++ [d]) (fs w') = None ->
       exists n',
         _copy_logic (VStr t) keys w'
         = (Returned tt,
            Os.set_fs n' (Storage.heard
              (CallRead ([KStr "X"; KStr "file"; KStr "tar"] ++ keys)) w'))
         /\ stat (par ++ [d; "a.txt"]) n' = Some (KFile a)
         /\ stat (par ++ [d; "b"; "c.txt"]) n' = Some (KFile c)
         /\ stat (par ++ [d; "src_dir"]) n' = None.
Proof.
  intros Hloss Hrec Hout Hok Hm Htid Hr Hl Hdn Hbn keys values.
  assert (Hbne : nonempty (basename p) = true) by now rewrite Hbn.
  destruct (pack_unpack p keys w1 q _ Hloss Hok Hm Hr Hl Hdn Hbne)
    as [Hpack Hunpack].
  rewrite Hbn in Hpack, Hunpack. fold values in Hpack, Hunpack.
  split.
  - rewrite (guess_args_recording _ _ _ _ _ _ _ Hrec Hout), Htid.
    change (candidates [VStr p] []) with [(KInt 0%Z, p)].
    simpl for_each. unfold bind.
    rewrite (guess_one_write _ _ _ Hm).
    assert (Hls : Os.lstat p w1 = Some KDir).
    { unfold Os.lstat. rewrite Hr. unfold stat. now rewrite Hl. }
    rewrite Hls. change [KStr __name__; KStr "test1"; KInt 0] with keys.
    rewrite Hpack. unfold Storage.store. simpl. now rewrite Hm.
  - intros w' t par d Hm' Hg Ht Hpar Hfresh.
    destruct (Hunpack w' t par d Hm' Hg Ht Hpar Hfresh (or_introl eq_refl))
      as (n' & He & Hst).
    exists n'. split; [exact He|].
    change (par ++ [d; "a.txt"]) with (par ++ [d] ++ ["a.txt"]).
    change (par ++ [d; "b"; "c.txt"]) with (par ++ [d] ++ ["b"; "c.txt"]).
    change (par ++ [d; "src_dir"]) with (par ++ [d] ++ ["src_dir"]).
    rewrite !app_assoc, !Hst, !strip_prefix_app. repeat split.
Qed.

End WithCollaborators.
End Replay.

(** ** The branches of [_copy_logic] *)

Section Branches.
Import OsPath OsPathFacts Fs FsFacts FsSpecs OsFacts ArtifactFacts CopyLogic RoundTrip.
Import StoreFiles.
Context {codec : TarCodec}.


(** C10.  In the read branch, a stored value that decodes to an archive
    without members makes [_copy_logic] raise [IndexError]; the filesystem
    and the working directory are as before, the storage has received the
    one [read]. *)
Theorem empty_archive_raises
  (pathname : string) (keys : list key) (w : World) (b : blob) :
  is_write_mode (STORAGE w) = false ->
  storage_get (basic_ps_keys ++ keys) (storage_object (STORAGE w))
    = Some (VBytes b) ->
  tar_read b = Some [] ->
  _copy_logic (VStr pathname) keys w
  = (Raised IndexError, Storage.heard (CallRead (basic_ps_keys ++ keys)) w)
  /\ fs (snd (_copy_logic (VStr pathname) keys w)) = fs w.
Proof.
  intros Hm Hg Hr.
  rewrite (copy_logic_read _ _ _ Hm), (unpack_members _ _ _ _ _ Hg Hr).
  split; reflexivity.
Qed.


End Branches.

(** ** Mode gating *)

Section ModeGating.
Context {codec : TarCodec}.
Variable store_function_output : callable -> callable.


End ModeGating.


(** ** Paths without a directory part *)

Section BareNames.
Import OsPath OsPathFacts Fs FsFacts FsSpecs OsFacts ArtifactFacts CopyLogic.
Import StoreFiles.
Context {codec : TarCodec}.

(** C1, where the code falls short.  A path without a directory part, such
    as the name of a file in the working directory, is not packed:
    [os.path.dirname] gives the empty string, [os.chdir] refuses it, and the
    write branch of [_copy_logic] raises [FileNotFoundError] with nothing
    stored, whether or not the artifact exists. *)
Theorem bare_name_is_not_packed
  (p : string) (keys : list key) (w : World) :
  is_write_mode (STORAGE w) = true ->
  forallb valid_name (cwd w) = true ->
  stat (cwd w) (fs w) = Some KDir ->
  dirname p = "" ->
  _copy_logic (VStr p) keys w = (Raised FileNotFoundError, w).
Proof.
  intros Hm Hv Hd Hp.
  rewrite (copy_logic_write_restores _ _ _ Hm Hv Hd).
  unfold pack, bind, as_path, ret, Os.chdir. rewrite Hp. simpl.
  destruct w; reflexivity.
Qed.

End BareNames.

(** ** The theorems on concrete processes *)

Import StoreFiles.

Lemma bare_name_is_not_packed_witness :
  Os.lstat "note.txt" (Scenario.world true true [])
    = Some (KFile (Scenario.text "hello"))
  /\ _copy_logic (VStr "note.txt") [KStr "StoreFiles"; KStr "test1"; KInt 0]
       (Scenario.world true true [])
     = (Raised FileNotFoundError, Scenario.world true true []).
Proof.
  split; [reflexivity|].
  apply (bare_name_is_not_packed "note.txt" _ (Scenario.world true true []));
    reflexivity.
Defined.

(** C3, as the scenario states it, fails: after [f("src_dir")] the storage
    holds no entry under [StoreFiles], [test1], [src_dir].  With the bare
    name nothing is stored at all; with [./src_dir] the entry is stored
    under the base keys and the position. *)
Lemma record_pass_not_under_argument :
  ~ recorded_under_argument
      (snd (guess_args Scenario.passthrough (Scenario.returns VNone)
              [VStr "src_dir"] [] (Scenario.world true true [])))
  /\ ~ recorded_under_argument
         (snd (guess_args Scenario.passthrough (Scenario.returns VNone)
                 [VStr "./src_dir"] [] (Scenario.world true true []))).
Proof.
  split; intros [v H]; vm_compute in H; discriminate H.
Defined.

Lemma record_pass_stores_under_position_witness :
  guess_args Scenario.passthrough (Scenario.returns VNone)
    [VStr "./src_dir"] [] (Scenario.world true true [])
  = (Returned VNone,
     snd (Storage.store
            ([KStr "X"; KStr "file"; KStr "tar"]
             ++ [KStr "StoreFiles"; KStr "test1"; KInt 0])
            (VBytes (tar_write (Tar.members "src_dir"
               (Scenario.src_dir (Scenario.text "alpha") (Scenario.text "gamma")))))
            (Scenario.world true true []))).
Proof.
  apply (Replay.record_pass_stores_under_position Scenario.passthrough
           (Scenario.returns VNone) "./src_dir"
           (Scenario.text "alpha") (Scenario.text "gamma")
           (Scenario.world true true []) VNone (Scenario.world true true [])
           ["w"; "src_dir"]).
  - intros members. reflexivity.
  - reflexivity.
  - reflexivity.
  - repeat split.
  - reflexivity.
  - reflexivity.
  - reflexivity.
  - reflexivity.
  - reflexivity.
  - reflexivity.
Defined.

(** C4, as stated, fails: on replay the decorator reads the archive and
    writes it at the returned path. *)
Lemma replay_with_return_value_unpacks :
  ~ replay_without_unpack Scenario.passthrough
      (Scenario.returns (VStr "/w/out.txt")) [] []
      (Scenario.world true false
         [([KStr "X"; KStr "file"; KStr "tar"; KStr "StoreFiles"; KStr "test1"],
           Scenario.note_archive)]).
Proof.
  intros [Hcalls _]. vm_compute in Hcalls. discriminate Hcalls.
Defined.

Lemma return_value_unpacks_on_replay_witness :
  Os.lstat "/w/out.txt"
    (snd (return_value Scenario.passthrough
            (Scenario.returns (VStr "/w/out.txt")) [] []
            (Scenario.world true false
               [([KStr "X"; KStr "file"; KStr "tar"; KStr "StoreFiles"; KStr "test1"],
                 Scenario.note_archive)])))
  = Some (KFile (Scenario.text "hello")).
Proof.
  pose proof (Replay.return_value_unpacks_on_replay Scenario.passthrough
    (Scenario.returns (VStr "/w/out.txt")) [] []
    (Scenario.world true false
       [([KStr "X"; KStr "file"; KStr "tar"; KStr "StoreFiles"; KStr "test1"],
         Scenario.note_archive)])
    (VStr "/w/out.txt")
    (Scenario.world true false
       [([KStr "X"; KStr "file"; KStr "tar"; KStr "StoreFiles"; KStr "test1"],
         Scenario.note_archive)])
    eq_refl eq_refl eq_refl) as (_ & _ & H).
  rewrite (H "/w/out.txt" _ _ [] eq_refl eq_refl eq_refl eq_refl).
  reflexivity.
Defined.



Lemma empty_archive_raises_witness :
  fst (_copy_logic (VStr "/w/out.txt") Scenario.note_keys
         (Scenario.world true false
            [(basic_ps_keys ++ Scenario.note_keys, VBytes (@tar_write plain_codec []))]))
  = Raised IndexError.
Proof.
  rewrite (proj1 (empty_archive_raises "/w/out.txt" Scenario.note_keys
             (Scenario.world true false
                [(basic_ps_keys ++ Scenario.note_keys, VBytes (@tar_write plain_codec []))])
             (@tar_write plain_codec []) eq_refl eq_refl eq_refl)).
  reflexivity.
Defined.

Lemma guess_args_tolerates_missing_witness :
  fst (guess_args Scenario.passthrough (Scenario.returns VNone)
         [VStr "/w/dst"; VInt 3] [("k", VStr "nope")]
         (Scenario.world true false []))
  = Returned VNone.
Proof.
  refine (proj1 (proj2 (proj2 (proj2 (Decorators.guess_args_tolerates_missing Scenario.passthrough
           (Scenario.returns VNone) [VStr "/w/dst"; VInt 3] [("k", VStr "nope")]
           (Scenario.world true false []) VNone (Scenario.world true false [])
           eq_refl eq_refl eq_refl))) (fun key s _ => eq_refl))).
Defined.

Lemma arg_references_raises_on_missing_witness :
  arg_references Scenario.passthrough [("target_dir", 1%Z)]
    (Scenario.returns VNone) [VNone; VStr "/w/dst"] []
    (Scenario.world true false [])
  = (Raised PersistentStorageException,
     Storage.heard
       (CallRead (basic_ps_keys ++ Scenario.note_keys ++ [KStr "target_dir"]))
       (Scenario.world true false [])).
Proof.
  apply (References.arg_references_raises_on_missing Scenario.passthrough
           [("target_dir", 1%Z)] (Scenario.returns VNone)
           [VNone; VStr "/w/dst"] [] (Scenario.world true false []) VNone
           (Scenario.world true false []) "target_dir" 1%Z
           eq_refl eq_refl eq_refl eq_refl)
    with (before := []) (after := []) (param := VStr "/w/dst");
    reflexivity.
Defined.

Lemma guess_args_packs_existing_paths_only_witness :
  guess_args Scenario.passthrough (Scenario.returns VNone)
    [VStr "missing"; VInt 3] [("k", VStr "also/missing")]
    (Scenario.world true true [])
  = (Returned VNone, Scenario.world true true []).
Proof.
  apply (Recording.guess_args_packs_existing_paths_only Scenario.passthrough
           (Scenario.returns VNone) [VStr "missing"; VInt 3]
           [("k", VStr "also/missing")] (Scenario.world true true []) VNone
           (Scenario.world true true []) eq_refl eq_refl eq_refl eq_refl eq_refl).
  intros key s [E|[E|[]]]; inversion E; reflexivity.
Defined.

(* ================================================================== *)
(** * Further properties of [StoreFiles] *)
(* ================================================================== *)

(** ** The write branch, outcome by outcome *)

Module WriteBranch.
Import OsPath OsPathFacts Fs FsFacts FsSpecs OsFacts ArtifactFacts CopyLogic.
Import StoreFiles.
Local Notation "a +++ b" := (String.append a b) (at level 60, right associativity).

Section WithCodec.
Context {codec : TarCodec}.

(** *** What path resolution raises *)

Lemma descend_raises n l : forall cur e,
  Os.descend n cur l = Raised e ->
  e = FileNotFoundError \/ e = NotADirectoryError.
Proof.
  induction l as [|c l IH]; intros cur e; simpl; [discriminate|].
  destruct (String.eqb c ""); [apply IH|].
  destruct (stat cur n) as [[d|]|].
  - intros H. inversion H. now right.
  - apply IH.
  - intros H. inversion H. now left.
Qed.

Lemma resolve_raises p w e :
  Os.resolve p w = Raised e ->
  e = FileNotFoundError \/ e = NotADirectoryError.
Proof.
  unfold Os.resolve. destruct (nonempty p).
  - apply descend_raises.
  - intros H. inversion H. now left.
Qed.

(** *** A path through its two parts *)

(** A name resolved from directory [D]. *)
Lemma resolve_name f D w :
  has_sep f = false -> nonempty f = true ->
  Os.resolve f (Os.set_cwd D w) = Os.descend (fs w) D [f].
Proof.
  intros Hs Hn. unfold Os.resolve. rewrite Hn. simpl fs. simpl cwd.
  unfold base. now rewrite (nosep_starts _ Hs), (split_nosep _ Hs).
Qed.

(** [os.chdir(dirname(p))] and then [basename(p)] is [p]: the same place,
    or the same refusal. *)
Lemma resolve_through_parts p w :
  nonempty (dirname p) = true ->
  nonempty (basename p) = true ->
  Os.resolve p w
  = match Os.resolve (dirname p) w with
    | Returned D => Os.resolve (basename p) (Os.set_cwd D w)
    | Raised e => Raised e
    end.
Proof.
  intros Hd Hb.
  destruct (rcut_spec p) as (Hp & Hs & Hh).
  fold (basename p) in Hp, Hs.
  destruct Hh as [Hh|[Y Hh]].
  { unfold dirname in Hd. rewrite Hh in Hd. discriminate. }
  rewrite Hh, append_assoc in Hp. simpl in Hp.
  destruct (dirname_child Y (basename p) w Hs) as [_ Hdir].
  rewrite <- Hp in Hdir. rewrite Hdir.
  rewrite Hp at 1. rewrite (resolve_child _ _ _ Hs).
  destruct (Os.descend _ _ (split Y)) as [D|e]; [|reflexivity].
  now rewrite resolve_name.
Qed.

(** *** The body of the [try], case by case *)

Lemma set_cwd_same w : Os.set_cwd (cwd w) w = w.
Proof. now destruct w. Qed.

Lemma set_cwd_back D w : Os.set_cwd (cwd w) (Os.set_cwd D w) = w.
Proof. now destruct w. Qed.

Lemma resolve_nonempty p w q : Os.resolve p w = Returned q -> nonempty p = true.
Proof. unfold Os.resolve. now destruct (nonempty p). Qed.

(** In write mode the body either raises before the storage is called, at
    the path, at [os.chdir] or at [tar_store.add], or it stores the archive
    of the artifact that the path names. *)
Lemma pack_cases pathname keys w :
  is_write_mode (STORAGE w) = true ->
  (exists e D,
      pack pathname keys w = (Raised e, Os.set_cwd D w)
      /\ (e = TypeError /\ (forall p, pathname <> VStr p)
          \/ e = FileNotFoundError \/ e = NotADirectoryError))
  \/ (exists p q T D,
        pathname = VStr p
        /\ nonempty (dirname p) = true /\ nonempty (basename p) = true
        /\ Os.resolve p w = Returned q /\ lookup q (fs w) = Some T
        /\ pack pathname keys w
           = (Returned tt,
              Os.set_cwd D
                (snd (Storage.store (basic_ps_keys ++ keys)
                        (VBytes (tar_write (Tar.members (basename p) T))) w)))).
Proof.
  intros Hm.
  destruct pathname as [| | |p| |];
    try solve [left; exists TypeError, (cwd w); rewrite set_cwd_same;
               split; [reflexivity|left; split; [reflexivity|discriminate]]].
  assert (E : pack (VStr p) keys w
    = match Os.resolve (dirname p) w with
      | Returned D =>
          match stat D (fs w) with
          | Some KDir =>
              match Os.resolve (basename p) (Os.set_cwd D w) with
              | Returned q =>
                  match lookup q (fs w) with
                  | Some T =>
                      Storage.store (basic_ps_keys ++ keys)
                        (VBytes (tar_write (Tar.members (basename p) T)))
                        (Os.set_cwd D w)
                  | None => (Raised FileNotFoundError, Os.set_cwd D w)
                  end
              | Raised e => (Raised e, Os.set_cwd D w)
              end
          | Some (KFile _) => (Raised NotADirectoryError, w)
          | None => (Raised FileNotFoundError, w)
          end
      | Raised e => (Raised e, w)
      end).
  { unfold pack, bind, as_path, ret, Os.chdir, TarFile.add.
    destruct (Os.resolve (dirname p) w) as [D|e]; [|reflexivity].
    destruct (stat D (fs w)) as [[d|]|]; try reflexivity.
    destruct (Os.resolve (basename p) (Os.set_cwd D w)) as [q|e];
      [|reflexivity].
    simpl fs. now destruct (lookup q (fs w)). }
  rewrite E. clear E.
  destruct (Os.resolve (dirname p) w) as [D|e] eqn:HD.
  2:{ left. exists e, (cwd w). rewrite set_cwd_same. split; [reflexivity|].
      right. now apply (resolve_raises _ _ _ HD). }
  destruct (stat D (fs w)) as [[d|]|] eqn:HsD.
  1:{ left. exists NotADirectoryError, (cwd w). rewrite set_cwd_same. auto. }
  2:{ left. exists FileNotFoundError, (cwd w). rewrite set_cwd_same. auto. }
  destruct (Os.resolve (basename p) (Os.set_cwd D w)) as [q|e] eqn:Hq.
  2:{ left. exists e, D. split; [reflexivity|].
      right. now apply (resolve_raises _ _ _ Hq). }
  destruct (lookup q (fs w)) as [T|] eqn:HT.
  2:{ left. exists FileNotFoundError, D. auto. }
  right. exists p, q, T, D.
  pose proof (resolve_nonempty _ _ _ HD) as Hdn.
  pose proof (resolve_nonempty _ _ _ Hq) as Hbn.
  split; [reflexivity|]. split; [assumption|]. split; [assumption|].
  split; [now rewrite (resolve_through_parts p w Hdn Hbn), HD|].
  split; [assumption|].
  unfold Storage.store. cbn [Storage.record is_write_mode STORAGE Os.set_cwd].
  rewrite Hm. reflexivity.
Qed.

(** The write branch as a whole: it raises and leaves the process as it
    was, or it returns with the archive of the artifact stored. *)
Lemma copy_logic_write_cases pathname keys w :
  is_write_mode (STORAGE w) = true ->
  forallb valid_name (cwd w) = true ->
  stat (cwd w) (fs w) = Some KDir ->
  (exists e,
      _copy_logic pathname keys w = (Raised e, w)
      /\ (e = TypeError /\ (forall p, pathname <> VStr p)
          \/ e = FileNotFoundError \/ e = NotADirectoryError))
  \/ (exists p q T,
        pathname = VStr p
        /\ nonempty (dirname p) = true /\ nonempty (basename p) = true
        /\ Os.resolve p w = Returned q /\ lookup q (fs w) = Some T
        /\ _copy_logic pathname keys w
           = (Returned tt,
              snd (Storage.store (basic_ps_keys ++ keys)
                     (VBytes (tar_write (Tar.members (basename p) T))) w))).
Proof.
  intros Hm Hv Hc. rewrite (copy_logic_write_restores _ _ _ Hm Hv Hc).
  destruct (pack_cases pathname keys w Hm)
    as [(e & D & E & He)|(p & q & T & D & Hp & Hd & Hb & Hq & HT & E)].
  - left. exists e. rewrite E. simpl. rewrite set_cwd_back. now split.
  - right. exists p, q, T. repeat (split; [assumption|]).
    rewrite E. unfold Storage.store.
    cbn [Storage.record is_write_mode]. rewrite Hm. now destruct w.
Qed.

Lemma basename_ends p : nonempty (basename p) = true -> endswith_sep p = false.
Proof.
  intros Hb. destruct (rcut_spec p) as (Hp & Hs & _).
  fold (basename p) in Hp, Hs. rewrite Hp.
  now rewrite (endswith_app _ _ Hb), (nosep_ends _ Hs).
Qed.


(** X2.  The write branch returns exactly for a path that has a directory part,
    ends with a name and names something that exists; then the storage has
    received one [store], of the archive of what the path names, and
    nothing else has changed. *)
Theorem write_branch_returns_iff_artifact
  (p : string) (keys : list key) (w : World) :
  is_write_mode (STORAGE w) = true ->
  forallb valid_name (cwd w) = true ->
  stat (cwd w) (fs w) = Some KDir ->
  (fst (_copy_logic (VStr p) keys w) = Returned tt
   <-> nonempty (dirname p) = true /\ nonempty (basename p) = true
       /\ Os.lstat p w <> None)
  /\ (fst (_copy_logic (VStr p) keys w) = Returned tt ->
      exists q T,
        Os.resolve p w = Returned q /\ lookup q (fs w) = Some T
        /\ snd (_copy_logic (VStr p) keys w)
           = snd (Storage.store (basic_ps_keys ++ keys)
                    (VBytes (tar_write (Tar.members (basename p) T))) w)).
Proof.
  intros Hm Hv Hc.
  destruct (copy_logic_write_cases (VStr p) keys w Hm Hv Hc)
    as [(e0 & E0 & He)|(p' & q & T & Hp & Hd & Hb & Hq & HT & E0)].
  - split; [split|].
    + rewrite E0. discriminate.
    + intros (Hd & Hb & Hl). exfalso.
      unfold Os.lstat in Hl.
      destruct (Os.resolve p w) as [q|] eqn:Hq; [|congruence].
      destruct (lookup q (fs w)) as [T|] eqn:HT.
      * rewrite (copy_logic_pack _ keys _ _ _ Hm Hv Hc Hq HT Hd Hb) in E0.
        unfold Storage.store in E0. simpl in E0. rewrite Hm in E0.
        discriminate.
      * unfold stat in Hl. rewrite HT in Hl. simpl in Hl. congruence.
    + rewrite E0. discriminate.
  - inversion Hp; subst p'. split; [split|].
    + intros _. split; [assumption|]. split; [assumption|].
      unfold Os.lstat, stat. rewrite Hq, HT. simpl.
      destruct T; simpl; [|discriminate].
      rewrite (basename_ends _ Hb). discriminate.
    + intros _. now rewrite E0.
    + intros _. exists q, T. rewrite E0. auto.
Qed.

End WithCodec.
End WriteBranch.

(** ** What the decorators do with the call *)

Module DecoratorFacts.
Import OsPath OsPathFacts Fs FsFacts FsSpecs OsFacts ArtifactFacts CopyLogic Frames.
Import Decorators References Recording Replay WriteBranch.
Import StoreFiles.
Local Notation "a +++ b" := (String.append a b) (at level 60, right associativity).

Section WithCollaborators.
Context {codec : TarCodec}.
Variable store_function_output : callable -> callable.

(** *** When the capture primitive raises *)

Lemma return_value_capture_raises func args kwargs w e w1 :
  recording w = true ->
  store_function_output func args kwargs w = (Raised e, w1) ->
  return_value store_function_output func args kwargs w = (Raised e, w1).
Proof.
  intros Hrec Hout. unfold return_value, bind, get_if_recording.
  rewrite Hrec. cbn [negb]. now rewrite Hout.
Qed.

Lemma guess_args_capture_raises func args kwargs w e w1 :
  recording w = true ->
  store_function_output func args kwargs w = (Raised e, w1) ->
  guess_args store_function_output func args kwargs w = (Raised e, w1).
Proof.
  intros Hrec Hout. unfold guess_args, bind, _test_identifier, get_if_recording.
  rewrite Hrec. cbn [negb]. now rewrite Hout.
Qed.

Lemma arg_references_capture_raises files_params func args kwargs w e w1 :
  recording w = true ->
  store_function_output func args kwargs w = (Raised e, w1) ->
  arg_references store_function_output files_params func args kwargs w
  = (Raised e, w1).
Proof.
  intros Hrec Hout.
  unfold arg_references, bind, _test_identifier, get_if_recording.
  rewrite Hrec. cbn [negb]. now rewrite Hout.
Qed.

Lemma bind_ret_value (m : Py unit) (output : value) w :
  bind m (fun _ => ret output) w
  = match m w with
    | (Returned _, w') => (Returned output, w')
    | (Raised e, w') => (Raised e, w')
    end.
Proof. reflexivity. Qed.

(** X3.  The decorators hand the outcome of the capture primitive through: an
    exception of the wrapped call is raised as it is, with nothing packed or
    unpacked; and a decorated call that returns, returns the captured
    output. *)
Theorem decorators_hand_the_result_through
  (files_params : list (string * Z)) (func : callable)
  (args : list value) (kwargs : list (string * value)) (w : World) :
  recording w = true ->
  let captured := store_function_output func args kwargs w in
  let r1 := return_value store_function_output func args kwargs w in
  let r2 := guess_args store_function_output func args kwargs w in
  let r3 := arg_references store_function_output files_params func
              args kwargs w in
  (forall e, fst captured = Raised e ->
     r1 = captured /\ r2 = captured /\ r3 = captured)
  /\ (forall v, fst r1 = Returned v \/ fst r2 = Returned v
                \/ fst r3 = Returned v ->
        fst captured = Returned v).
Proof.
  intros Hrec captured r1 r2 r3.
  destruct (store_function_output func args kwargs w) as [[output|e] w1] eqn:E;
    subst captured; simpl.
  - split; [discriminate|].
    subst r1 r2 r3.
    rewrite (return_value_recording _ _ _ _ _ _ _ Hrec E),
            (guess_args_recording _ _ _ _ _ _ _ Hrec E),
            (arg_references_recording _ _ _ _ _ _ _ _ Hrec E),
            !bind_ret_value.
    intros v [H|[H|H]]; revert H;
      match goal with
      | |- context [match ?m with _ => _ end] =>
          destruct m as [[[]|e'] w']
      end; simpl; intros H; congruence.
  - subst r1 r2 r3.
    rewrite (return_value_capture_raises _ _ _ _ _ _ Hrec E),
            (guess_args_capture_raises _ _ _ _ _ _ Hrec E),
            (arg_references_capture_raises _ _ _ _ _ _ _ Hrec E).
    split; [auto|]. simpl. intros v [H|[H|H]]; discriminate.
Qed.

(** *** Arguments that are not strings *)

Lemma flat_map_nil {A B} (g : A -> list B) l :
  (forall a, In a l -> g a = []) -> flat_map g l = [].
Proof.
  induction l as [|a l IH]; intros H; simpl; [reflexivity|].
  rewrite (H a (or_introl eq_refl)). apply IH. intros b Hb. apply H. now right.
Qed.

Lemma enumerate_from_In {A} (l : list A) : forall i k a,
  In (k, a) (Py_.enumerate_from i l) -> In a l.
Proof.
  induction l as [|x l IH]; intros i k a; simpl; [auto|].
  intros [H|H]; [inversion H; now left|right; eapply IH; eauto].
Qed.

Lemma candidates_nil args kwargs :
  forallb (fun v => negb (is_str v)) args = true ->
  forallb (fun kv => negb (is_str (snd kv))) kwargs = true ->
  candidates args kwargs = [].
Proof.
  intros Ha Hk. unfold candidates.
  rewrite forallb_forall in Ha, Hk.
  rewrite !flat_map_nil; [reflexivity| |].
  - intros [k v] Hin. specialize (Hk _ Hin). now destruct v.
  - intros [i v] Hin. apply enumerate_from_In in Hin.
    specialize (Ha _ Hin). now destruct v.
Qed.

(** X4.  [guess_args] looks at strings only: a call without a string among its
    positional and keyword arguments is the call of the capture primitive,
    in write mode and in read mode alike. *)
Theorem guess_args_ignores_non_strings
  (func : callable) (args : list value) (kwargs : list (string * value))
  (w : World) :
  recording w = true ->
  forallb (fun v => negb (is_str v)) args = true ->
  forallb (fun kv => negb (is_str (snd kv))) kwargs = true ->
  guess_args store_function_output func args kwargs w
  = store_function_output func args kwargs w.
Proof.
  intros Hrec Ha Hk.
  destruct (store_function_output func args kwargs w) as [[output|e] w1] eqn:E.
  - rewrite (guess_args_recording _ _ _ _ _ _ _ Hrec E).
    now rewrite (candidates_nil _ _ Ha Hk).
  - now apply guess_args_capture_raises.
Qed.

(** *** How [arg_references] finds its arguments *)

Lemma getitem_out_of_range {A} (l : list A) (i : Z) :
  (i < - Z.of_nat (length l) \/ Z.of_nat (length l) <= i)%Z ->
  Py_.getitem l i = Raised IndexError.
Proof.
  intros H. unfold Py_.getitem.
  destruct (i <? 0)%Z eqn:Hi.
  - apply Z.ltb_lt in Hi.
    destruct ((0 <=? Z.of_nat (length l) + i)%Z) eqn:H0; [|reflexivity].
    apply Z.leb_le in H0. lia.
  - apply Z.ltb_ge in Hi.
    destruct ((i <? Z.of_nat (length l))%Z) eqn:H1.
    + apply Z.ltb_lt in H1. lia.
    + now rewrite andb_false_r.
Qed.

Lemma reference_one_keyword args kwargs ctl key position position' v :
  assoc key kwargs = Some v ->
  reference_one args kwargs ctl key position
  = reference_one args kwargs ctl key position'.
Proof. intros H. unfold reference_one, param_of. now rewrite H. Qed.

Lemma reference_loop_keyword args kwargs ctl before after key
  position position' v w :
  assoc key kwargs = Some v ->
  for_each (before ++ (key, position) :: after) (fun '(key, position) =>
    reference_one args kwargs ctl key position) w
  = for_each (before ++ (key, position') :: after) (fun '(key, position) =>
      reference_one args kwargs ctl key position) w.
Proof.
  intros Hv. rewrite !for_each_app. unfold bind.
  destruct (for_each before _ w) as [[[]|e] w2]; [|reflexivity].
  cbn [for_each]. unfold bind.
  now rewrite (reference_one_keyword _ _ _ _ position position' _ Hv).
Qed.

(** X5.  An argument declared in [files_params] is taken from the keyword
    arguments when it is passed by keyword, and the declared position is
    not looked at: any other position, in or out of range, gives the same
    call. *)
Theorem arg_references_keyword_first
  (before after : list (string * Z)) (key : string) (position position' : Z)
  (func : callable) (args : list value) (kwargs : list (string * value))
  (w : World) (v : value) :
  assoc key kwargs = Some v ->
  arg_references store_function_output
    (before ++ (key, position) :: after) func args kwargs w
  = arg_references store_function_output
      (before ++ (key, position') :: after) func args kwargs w.
Proof.
  intros Hv.
  unfold arg_references, bind, _test_identifier, get_if_recording.
  destruct (negb (recording w)); [reflexivity|].
  destruct (store_function_output func args kwargs w) as [[output|e] w1];
    [|reflexivity].
  now rewrite (reference_loop_keyword _ _ _ before after _ position position'
                 _ w1 Hv).
Qed.

(** X6.  An argument that is declared but passed neither by keyword nor at its
    position makes the decorated call raise [IndexError] when the loop
    gets to it, after the wrapped call was captured; the storage is not
    called for it. *)
Theorem arg_references_position_out_of_range
  (before after : list (string * Z)) (key : string) (position : Z)
  (func : callable) (args : list value) (kwargs : list (string * value))
  (w : World) (output : value) (w1 w2 : World) :
  recording w = true ->
  store_function_output func args kwargs w = (Returned output, w1) ->
  for_each before (fun '(key, position) =>
    reference_one args kwargs
      [KStr __name__; KStr (basename (storage_file (STORAGE w)))]
      key position) w1 = (Returned tt, w2) ->
  assoc key kwargs = None ->
  (position < - Z.of_nat (length args)
   \/ Z.of_nat (length args) <= position)%Z ->
  arg_references store_function_output
    (before ++ (key, position) :: after) func args kwargs w
  = (Raised IndexError, w2).
Proof.
  intros Hrec Hout Hbefore Hk Hpos.
  rewrite (arg_references_recording _ _ _ _ _ _ _ _ Hrec Hout).
  unfold bind at 1. rewrite for_each_app. unfold bind at 1. rewrite Hbefore.
  cbn [for_each]. unfold bind at 1. unfold reference_one at 1.
  unfold bind at 1, param_of. rewrite Hk.
  now rewrite (getitem_out_of_range _ _ Hpos).
Qed.

(** *** The record pass and paths that cannot be packed *)

(** X7.  [return_value] in the record pass takes the captured output for a
    path: when the wrapped function returned [None], a boolean or a number,
    the decorated call raises [TypeError]; nothing is stored and the
    process is as the capture primitive left it. *)
Theorem return_value_needs_a_path
  (func : callable) (args : list value) (kwargs : list (string * value))
  (w : World) (output : value) (w1 : World) :
  recording w = true ->
  store_function_output func args kwargs w = (Returned output, w1) ->
  is_write_mode (STORAGE w1) = true ->
  forallb valid_name (cwd w1) = true ->
  stat (cwd w1) (fs w1) = Some KDir ->
  output = VNone \/ (exists b, output = VBool b) \/ (exists z, output = VInt z) ->
  return_value store_function_output func args kwargs w
  = (Raised TypeError, w1).
Proof.
  intros Hrec Hout Hm Hv Hc Hty.
  rewrite (return_value_recording _ _ _ _ _ _ _ Hrec Hout). unfold bind.
  rewrite (copy_logic_write_restores _ _ _ Hm Hv Hc).
  destruct Hty as [->|[[b ->]|[z ->]]]; simpl; now rewrite set_cwd_same.
Qed.

Lemma trailing_separator_parts s w q :
  endswith_sep s = true ->
  Os.resolve s w = Returned q ->
  basename s = "" /\ Os.resolve (dirname s) w = Returned q.
Proof.
  intros He Hq. destruct (endswith_cut _ He) as [Y ->].
  assert (Hs : has_sep "" = false) by reflexivity.
  split.
  - unfold basename. now rewrite (rcut_sep Y "" Hs).
  - destruct (dirname_child Y "" w Hs) as [_ ->].
    rewrite (resolve_child Y "" w Hs) in Hq.
    now destruct (Os.descend _ _ (split Y)).
Qed.

(** X8.  A directory named with a trailing separator is not packed although it
    exists: [os.path.exists] holds, [os.path.basename] gives the empty
    name, [tar_store.add] refuses it, and the decorated call raises
    [FileNotFoundError] with nothing stored. *)
Theorem guess_args_trailing_separator
  (func : callable) (s : string) (rest : list value)
  (kwargs : list (string * value)) (w : World) (output : value) (w1 : World) :
  recording w = true ->
  store_function_output func (VStr s :: rest) kwargs w = (Returned output, w1) ->
  is_write_mode (STORAGE w1) = true ->
  forallb valid_name (cwd w1) = true ->
  stat (cwd w1) (fs w1) = Some KDir ->
  endswith_sep s = true ->
  Os.lstat s w1 = Some KDir ->
  guess_args store_function_output func (VStr s :: rest) kwargs w
  = (Raised FileNotFoundError, w1).
Proof.
  intros Hrec Hout Hm Hv Hc He Hl.
  rewrite (guess_args_recording _ _ _ _ _ _ _ Hrec Hout).
  unfold candidates. cbn [Py_.enumerate Py_.enumerate_from flat_map app].
  cbn [for_each]. unfold bind.
  rewrite (guess_one_write _ _ _ Hm), Hl.
  rewrite (copy_logic_write_restores _ _ _ Hm Hv Hc).
  unfold Os.lstat in Hl.
  destruct (Os.resolve s w1) as [q|] eqn:Hq; [|discriminate].
  destruct (trailing_separator_parts s w1 q He Hq) as [Hb Hd].
  assert (Hsq : stat q (fs w1) = Some KDir)
    by (destruct (stat q (fs w1)) as [[d|]|]; [rewrite He in Hl| |];
        congruence).
  match goal with
  | |- context [pack (VStr s) ?k w1] =>
      assert (E : pack (VStr s) k w1
                  = (Raised FileNotFoundError, Os.set_cwd q w1))
  end.
  { unfold pack, bind, as_path, ret, Os.chdir, TarFile.add.
    now rewrite Hd, Hsq, Hb. }
  rewrite E. simpl. now rewrite set_cwd_back.
Qed.


End WithCollaborators.
End DecoratorFacts.

(** ** Replay and the storage *)

Module ReplayFacts.
Import OsPath OsPathFacts Fs FsFacts FsSpecs OsFacts ArtifactFacts CopyLogic Frames.
Import Decorators References Recording Replay WriteBranch DecoratorFacts.
Import StoreFiles Storage.

Section WithCollaborators.
Context {codec : TarCodec}.
Variable store_function_output : callable -> callable.

Lemma reads_only_refl w : reads_only w w.
Proof.
  repeat (split; [reflexivity|]). exists []. now rewrite app_nil_r.
Qed.

Lemma reads_only_trans w1 w2 w3 :
  reads_only w1 w2 -> reads_only w2 w3 -> reads_only w1 w3.
Proof.
  intros (A1 & A2 & A3 & A4 & A5 & n1 & A6 & A7)
         (B1 & B2 & B3 & B4 & B5 & n2 & B6 & B7).
  repeat (split; [congruence|]). exists (n1 ++ n2).
  rewrite B6, A6, app_assoc, forallb_app, A7, B7. now split.
Qed.

(** The read branch asks the storage once and tells it nothing. *)
Lemma copy_logic_reads_only pathname keys w :
  is_write_mode (STORAGE w) = false ->
  reads_only w (snd (_copy_logic pathname keys w)).
Proof.
  intros Hm. destruct (read_branch_frame pathname keys w Hm) as (H1 & H2 & H3).
  unfold reads_only. rewrite H1, H2, H3. simpl.
  repeat (split; [reflexivity|]).
  exists [CallRead (basic_ps_keys ++ keys)]. now split.
Qed.

Lemma for_each_reads_only {A} (body : A -> Py unit) l :
  (forall a w, is_write_mode (STORAGE w) = false ->
     reads_only w (snd (body a w))) ->
  forall w, is_write_mode (STORAGE w) = false ->
    reads_only w (snd (for_each l body w)).
Proof.
  intros Hb. induction l as [|a l IH]; intros w Hm; simpl.
  - apply reads_only_refl.
  - unfold bind. specialize (Hb a w Hm).
    destruct (body a w) as [[[]|e] w1]; simpl in *; [|exact Hb].
    eapply reads_only_trans; [exact Hb|]. apply IH.
    destruct Hb as (_ & _ & H3 & _). congruence.
Qed.

Lemma guess_one_reads_only s keys w :
  is_write_mode (STORAGE w) = false ->
  reads_only w (snd (guess_one s keys w)).
Proof.
  intros Hm. rewrite (guess_one_read _ _ _ Hm). unfold try_except_pass.
  pose proof (copy_logic_reads_only (VStr s) keys w Hm) as H.
  destruct (_copy_logic (VStr s) keys w) as [[[]|e] w1]; simpl in *;
    [exact H|now destruct e].
Qed.

Lemma reference_one_reads_only args kwargs ctl key position w :
  is_write_mode (STORAGE w) = false ->
  reads_only w (snd (reference_one args kwargs ctl key position w)).
Proof.
  intros Hm. unfold reference_one, bind.
  pose proof (param_of_frame args kwargs key position w) as Hp.
  destruct (param_of args kwargs key position w) as [[v|e] w1];
    simpl in Hp; subst w1.
  - now apply copy_logic_reads_only.
  - apply reads_only_refl.
Qed.

Lemma reads_only_calls w w' :
  reads_only w w' ->
  cwd w' = cwd w
  /\ exists new, calls (STORAGE w') = calls (STORAGE w) ++ new
                 /\ forallb is_read new = true.
Proof. intros (H1 & _ & _ & _ & _ & H6). now split. Qed.

(** X10.  Replay asks the storage and tells it nothing: the calls the storage
    receives from a decorated call in read mode are [read]s, whatever the
    arguments are and however the call ends; and the decorated call ends in
    the working directory the capture primitive left. *)
Theorem replay_only_reads_the_storage
  (files_params : list (string * Z)) (func : callable)
  (args : list value) (kwargs : list (string * value))
  (w : World) (output : value) (w1 : World) :
  recording w = true ->
  store_function_output func args kwargs w = (Returned output, w1) ->
  is_write_mode (STORAGE w1) = false ->
  let only_reads (w' : World) :=
    cwd w' = cwd w1
    /\ exists new, calls (STORAGE w') = calls (STORAGE w1) ++ new
                   /\ forallb is_read new = true in
  only_reads (snd (return_value store_function_output func args kwargs w))
  /\ only_reads (snd (guess_args store_function_output func args kwargs w))
  /\ only_reads (snd (arg_references store_function_output files_params func
                        args kwargs w)).
Proof.
  intros Hrec Hout Hm only_reads. subst only_reads. cbv beta.
  rewrite (return_value_recording _ _ _ _ _ _ _ Hrec Hout),
          (guess_args_recording _ _ _ _ _ _ _ Hrec Hout),
          (arg_references_recording _ _ _ _ _ _ _ _ Hrec Hout),
          !bind_ret_value.
  split; [|split]; apply reads_only_calls.
  - pose proof (copy_logic_reads_only output
      [KStr __name__; KStr (basename (storage_file (STORAGE w1)))] w1 Hm) as H.
    now destruct (_copy_logic output _ w1) as [[[]|e] w2].
  - assert (H : reads_only w1
      (snd (for_each (candidates args kwargs)
              (fun '(key, s) => guess_one s
                 ([KStr __name__; KStr (basename (storage_file (STORAGE w)))]
                  ++ [key])) w1))).
    { apply for_each_reads_only; [|exact Hm].
      intros [key s] w0 Hw. now apply guess_one_reads_only. }
    now destruct (for_each (candidates args kwargs) _ w1) as [[[]|e] w2].
  - assert (H : reads_only w1
      (snd (for_each files_params
              (fun '(key, position) => reference_one args kwargs
                 [KStr __name__; KStr (basename (storage_file (STORAGE w)))]
                 key position) w1))).
    { apply for_each_reads_only; [|exact Hm].
      intros [key position] w0 Hw. now apply reference_one_reads_only. }
    now destruct (for_each files_params _ w1) as [[[]|e] w2].
Qed.

End WithCollaborators.
End ReplayFacts.

(** ** The read branch at a target of the other kind *)

Module TargetKinds.
Import OsPath OsPathFacts Fs FsFacts FsSpecs OsFacts TarFacts ExtractFacts.
Import ArtifactFacts CopyLogic RoundTrip.
Import StoreFiles.
Local Notation "a +++ b" := (String.append a b) (at level 60, right associativity).

Section WithCodec.
Context {codec : TarCodec}.

(** *** A target of the other kind *)

(** X11.  An archive of a single file replayed at a path that names a directory:
    [open] refuses it, nothing is written. *)
Theorem file_artifact_onto_directory
  (pathname : string) (keys : list key) (w : World) (b : blob)
  (m : TarInfo) (ms : list TarInfo) :
  is_write_mode (STORAGE w) = false ->
  storage_get (basic_ps_keys ++ keys) (storage_object (STORAGE w))
    = Some (VBytes b) ->
  tar_read b = Some (m :: ms) ->
  isfile m = true ->
  Os.lstat pathname w = Some KDir ->
  _copy_logic (VStr pathname) keys w
  = (Raised IsADirectoryError,
     Storage.heard (CallRead (basic_ps_keys ++ keys)) w).
Proof.
  intros Hm Hg Hr Hf Hl.
  rewrite (copy_logic_read _ _ _ Hm), (unpack_members _ _ _ _ _ Hg Hr), Hf.
  unfold Os.open_wb, Os.at_path. rewrite resolve_heard.
  unfold Os.lstat in Hl.
  destruct (Os.resolve pathname w) as [q|] eqn:Hq; [|discriminate].
  destruct (endswith_sep pathname) eqn:He; [reflexivity|].
  unfold stat in Hl. simpl fs.
  destruct (lookup q (fs w)) as [[d|es]|] eqn:HT; simpl in Hl;
    try discriminate.
  unfold write_file. now rewrite (alter_raised _ _ IsADirectoryError _ _ HT).
Qed.

Lemma not_all_sep t :
  nonempty t = true -> endswith_sep t = false -> all_sep t = false.
Proof.
  induction t as [|c t IH]; [discriminate|]. intros _ He. simpl.
  destruct t as [|c' t'].
  - simpl in He. now rewrite He.
  - rewrite IH; [apply andb_false_r|reflexivity|exact He].
Qed.

(** The member ["."] at a target that is a regular file. *)
Lemma extract_dot_onto_file t d d0 w :
  Os.lstat t w = Some (KFile d0) ->
  TarFile.extract (mkTarInfo "." DIRTYPE d) t w = (Raised NotADirectoryError, w).
Proof.
  intros Hl. unfold Os.lstat in Hl.
  destruct (Os.resolve t w) as [q|] eqn:Hq; [|discriminate].
  destruct (stat q (fs w)) as [[d1|]|] eqn:Hs; try discriminate.
  destruct (endswith_sep t) eqn:He; [discriminate|]. clear Hl.
  assert (Hn : nonempty t = true) by (unfold Os.resolve in Hq; now destruct (nonempty t)).
  unfold TarFile.extract. simpl name. simpl type.
  rewrite (join_prefix t ".") by reflexivity.
  unfold prefix. rewrite Hn, He. cbn [negb orb].
  rewrite append_assoc. cbn [String.append].
  destruct (rstrip_child t "." eq_refl eq_refl) as [-> _].
  assert (Hdir : dirname (t +++ String sep ".") = t).
  { unfold dirname. rewrite (rcut_sep t "." eq_refl). cbn [fst].
    rewrite (nonempty_app_l _ _ Hn), all_sep_app, (not_all_sep _ Hn He).
    cbn [andb negb]. now rewrite rstrip_app_sep, (rstrip_id _ He). }
  rewrite Hdir.
  unfold bind at 1. unfold Os.path_exists, Os.lstat. rewrite Hq, Hs, He, Hn.
  cbn [negb andb]. unfold bind at 1, ret.
  unfold TarFile.makedir, Os.mkdir, Os.at_path.
  rewrite (resolve_child t "." _ eq_refl).
  unfold Os.resolve in Hq. rewrite Hn in Hq.
  assert (Hb : base (cwd w) (t +++ String sep "") = base (cwd w) t)
    by (unfold base; now rewrite (startswith_app _ _ Hn)).
  rewrite Hb, Hq. simpl. now rewrite Hs.
Qed.

(** X12.  An archive of a directory replayed at a path that names a regular
    file: the first member cannot be made, [NotADirectoryError], and the
    file is as it was. *)
Theorem directory_artifact_onto_file
  (pathname : string) (keys : list key) (w : World) (b : blob)
  (m : TarInfo) (ms : list TarInfo) (d0 : bytes) :
  is_write_mode (STORAGE w) = false ->
  storage_get (basic_ps_keys ++ keys) (storage_object (STORAGE w))
    = Some (VBytes b) ->
  tar_read b = Some (m :: ms) ->
  isfile m = false ->
  has_sep (name m) = false ->
  Os.lstat pathname w = Some (KFile d0) ->
  _copy_logic (VStr pathname) keys w
  = (Raised NotADirectoryError,
     Storage.heard (CallRead (basic_ps_keys ++ keys)) w).
Proof.
  intros Hm Hg Hr Hf Hs Hl.
  rewrite (copy_logic_read _ _ _ Hm), (unpack_members _ _ _ _ _ Hg Hr), Hf.
  unfold TarFile.extractall. cbn [map for_each]. unfold bind.
  assert (E : strip_topdir m = mkTarInfo "." DIRTYPE (payload m)).
  { unfold strip_topdir, split1. rewrite (partition_nosep _ Hs).
    unfold isfile in Hf. now destruct (type m). }
  rewrite E.
  now rewrite (extract_dot_onto_file pathname (payload m) d0
                 (Storage.heard (CallRead (basic_ps_keys ++ keys)) w) Hl).
Qed.

(** *** A stored value that is no archive *)

(** X13.  Stored bytes that [tarfile.open] rejects make the read branch raise
    [ReadError] before the target is looked at: whatever the path is, the
    filesystem and the working directory are as before, the storage has
    received the one [read]. *)
Theorem undecodable_artifact_raises
  (pathname : value) (keys : list key) (w : World) (b : blob) :
  is_write_mode (STORAGE w) = false ->
  storage_get (basic_ps_keys ++ keys) (storage_object (STORAGE w))
    = Some (VBytes b) ->
  tar_read b = None ->
  _copy_logic pathname keys w
  = (Raised ReadError, Storage.heard (CallRead (basic_ps_keys ++ keys)) w).
Proof.
  intros Hm Hg Hr. rewrite (copy_logic_read _ _ _ Hm).
  unfold unpack, bind at 1, Storage.read.
  cbn [Storage.record storage_object]. rewrite Hg.
  unfold bind at 1, BytesIO, ret. unfold bind at 1, TarFile.open_r.
  now rewrite Hr.
Qed.

End WithCodec.
End TargetKinds.

(** ** Record, then replay *)

Module RecordReplay.
Import OsPath OsPathFacts Fs FsFacts FsSpecs OsFacts TarFacts ExtractFacts.
Import ArtifactFacts CopyLogic RoundTrip Decorators References Recording Replay.
Import StoreFiles.

Section WithCollaborators.
Context {codec : TarCodec}.
Variable store_function_output : callable -> callable.

Lemma store_outcome keys v w :
  is_write_mode (STORAGE w) = true ->
  fst (Storage.store keys v w) = Returned tt
  /\ calls (STORAGE (snd (Storage.store keys v w)))
     = calls (STORAGE w) ++ [CallStore keys v].
Proof.
  intros Hm. unfold Storage.store. cbn [Storage.record is_write_mode].
  now rewrite Hm.
Qed.

(** X14.  Record, then replay: the write branch hands the storage one value, the
    archive of the artifact that [p] names; and the read branch, run on a
    storage that answers the key sequence with that value, puts the
    artifact at a fresh target [t], file for file and byte for byte,
    without the artifact's own name.  Nothing else on the filesystem
    changes. *)
Theorem record_then_replay_restores
  (p : string) (keys : list key) (w : World) (q : list string) (T : node) :
  lossless codec ->
  World_ok w ->
  is_write_mode (STORAGE w) = true ->
  Os.resolve p w = Returned q ->
  lookup q (fs w) = Some T ->
  nonempty (dirname p) = true ->
  nonempty (basename p) = true ->
  let values := VBytes (tar_write (Tar.members (basename p) T)) in
  let recorded := _copy_logic (VStr p) keys w in
  fst recorded = Returned tt
  /\ calls (STORAGE (snd recorded))
     = calls (STORAGE w) ++ [CallStore (basic_ps_keys ++ keys) values]
  /\ forall w' t par c,
       is_write_mode (STORAGE w') = false ->
       storage_get (basic_ps_keys ++ keys) (storage_object (STORAGE w'))
         = Some values ->
       Os.resolve t w' = Returned (par ++ [c]) ->
       stat par (fs w') = Some KDir ->
       stat (par ++ [c]) (fs w') = None ->
       kind_of T = KDir \/ endswith_sep t = false ->
       exists n',
         _copy_logic (VStr t) keys w'
         = (Returned tt,
            Os.set_fs n' (Storage.heard (CallRead (basic_ps_keys ++ keys)) w'))
         /\ forall x, stat x n'
              = match strip_prefix (par ++ [c]) x with
                | Some r => stat r T
                | None => stat x (fs w')
                end.
Proof.
  intros Hloss Hok Hm Hr Hl Hdn Hbn values recorded.
  destruct (pack_unpack p keys w q T Hloss Hok Hm Hr Hl Hdn Hbn)
    as [Hpack Hunpack].
  subst recorded. rewrite Hpack. fold values.
  destruct (store_outcome (basic_ps_keys ++ keys) values w Hm) as [H1 H2].
  split; [exact H1|]. split; [exact H2|]. exact Hunpack.
Qed.

(** X15.  Record, then replay into a directory that exists and is empty:
    the write branch hands the storage the archive of the directory that
    [p] names; the read branch, run on a storage that answers with that
    value, finds the target made already and puts the entries into it. *)
Theorem record_then_replay_into_empty_directory
  (p : string) (keys : list key) (w : World) (q : list string)
  (es : list (string * node)) :
  lossless codec ->
  World_ok w ->
  is_write_mode (STORAGE w) = true ->
  Os.resolve p w = Returned q ->
  lookup q (fs w) = Some (Dir es) ->
  nonempty (dirname p) = true ->
  nonempty (basename p) = true ->
  let values := VBytes (tar_write (Tar.members (basename p) (Dir es))) in
  let recorded := _copy_logic (VStr p) keys w in
  calls (STORAGE (snd recorded))
  = calls (STORAGE w) ++ [CallStore (basic_ps_keys ++ keys) values]
  /\ forall w' t ts,
       is_write_mode (STORAGE w') = false ->
       storage_get (basic_ps_keys ++ keys) (storage_object (STORAGE w'))
         = Some values ->
       Os.lands t w' ts ->
       stat ts (fs w') = Some KDir ->
       (forall c, stat (ts ++ [c]) (fs w') = None) ->
       exists n',
         _copy_logic (VStr t) keys w'
         = (Returned tt,
            Os.set_fs n' (Storage.heard (CallRead (basic_ps_keys ++ keys)) w'))
         /\ forall x, stat x n'
              = match strip_prefix ts x with
                | Some r => stat r (Dir es)
                | None => stat x (fs w')
                end.
Proof.
  intros Hloss Hok Hm Hr Hl Hdn Hbn values recorded.
  destruct Hok as (Hwf & Hv & Hc). subst recorded.
  rewrite (copy_logic_pack _ keys _ _ _ Hm Hv Hc Hr Hl Hdn Hbn). fold values.
  split; [apply (store_outcome _ _ _ Hm)|].
  intros w' t ts Hm' Hg Ht Hts Hempty.
  rewrite (copy_logic_read _ _ _ Hm').
  apply (unpack_dir_into_empty t keys w'
           (tar_write (Tar.members (basename p) (Dir es))) (basename p) es ts);
    try assumption.
  - apply Hloss.
  - apply basename_nosep.
  - apply (wf_lookup _ _ _ Hwf Hl).
Qed.

(** *** Through the decorators *)

(** X16.  [arg_references] with one declared argument, recorded with the
    argument [p] and replayed with the argument [t] on a storage that
    answers with the recorded value: the record pass returns what the
    function returned and hands the storage the archive of the artifact; the
    replay pass returns the replayed output and has the artifact at [t]. *)
Theorem arg_references_round_trip
  (key : string) (position : Z) (func : callable)
  (args : list value) (kwargs : list (string * value))
  (w : World) (output : value) (w1 : World)
  (p : string) (q : list string) (T : node)
  (func' : callable) (args' : list value) (kwargs' : list (string * value))
  (v : World) (output' : value) (v1 : World)
  (t : string) (par : list string) (c : string) :
  lossless codec ->
  (* the record pass *)
  recording w = true ->
  store_function_output func args kwargs w = (Returned output, w1) ->
  World_ok w1 ->
  is_write_mode (STORAGE w1) = true ->
  param_of args kwargs key position w1 = (Returned (VStr p), w1) ->
  Os.resolve p w1 = Returned q ->
  lookup q (fs w1) = Some T ->
  nonempty (dirname p) = true ->
  nonempty (basename p) = true ->
  let keys := [KStr __name__; KStr (basename (storage_file (STORAGE w)))]
              ++ [KStr key] in
  let values := VBytes (tar_write (Tar.members (basename p) T)) in
  let recorded :=
    arg_references store_function_output [(key, position)] func
      args kwargs w in
  (* the replay pass, for the same test *)
  recording v = true ->
  store_function_output func' args' kwargs' v = (Returned output', v1) ->
  is_write_mode (STORAGE v1) = false ->
  storage_get (basic_ps_keys ++ keys) (storage_object (STORAGE v1))
    = Some values ->
  basename (storage_file (STORAGE v)) = basename (storage_file (STORAGE w)) ->
  param_of args' kwargs' key position v1 = (Returned (VStr t), v1) ->
  Os.resolve t v1 = Returned (par ++ [c]) ->
  stat par (fs v1) = Some KDir ->
  stat (par ++ [c]) (fs v1) = None ->
  kind_of T = KDir \/ endswith_sep t = false ->
  fst recorded = Returned output
  /\ calls (STORAGE (snd recorded))
     = calls (STORAGE w1) ++ [CallStore (basic_ps_keys ++ keys) values]
  /\ exists n',
       arg_references store_function_output [(key, position)] func'
         args' kwargs' v
       = (Returned output',
          Os.set_fs n'
            (Storage.heard (CallRead (basic_ps_keys ++ keys)) v1))
       /\ forall x, stat x n'
            = match strip_prefix (par ++ [c]) x with
              | Some r => stat r T
              | None => stat x (fs v1)
              end.
Proof.
  intros Hloss Hrec Hout Hok Hm Hpar Hr Hl Hdn Hbn keys values recorded
         Hrec' Hout' Hm' Hg Htid Hpar' Ht Hp Hfresh Hk.
  destruct (pack_unpack p keys w1 q T Hloss Hok Hm Hr Hl Hdn Hbn)
    as [Hpack Hunpack].
  fold values in Hpack, Hunpack.
  destruct (store_outcome (basic_ps_keys ++ keys) values w1 Hm) as [H1 H2].
  assert (E : recorded
              = (Returned output,
                 snd (Storage.store (basic_ps_keys ++ keys) values w1))).
  { subst recorded.
    rewrite (arg_references_recording _ _ _ _ _ _ _ _ Hrec Hout).
    cbn [for_each]. unfold bind at 1 2. unfold reference_one, bind at 1.
    rewrite Hpar. fold keys. rewrite Hpack.
    now destruct (Storage.store (basic_ps_keys ++ keys) values w1)
      as [[[]|e] w2]. }
  rewrite E. split; [reflexivity|]. split; [exact H2|].
  destruct (Hunpack v1 t par c Hm' Hg Ht Hp Hfresh Hk) as (n' & He & Hst).
  exists n'. split; [|exact Hst].
  rewrite (arg_references_recording _ _ _ _ _ _ _ _ Hrec' Hout').
  cbn [for_each]. unfold bind at 1 2. unfold reference_one, bind at 1.
  rewrite Hpar', Htid. fold keys. now rewrite He.
Qed.

(** X17.  [return_value], recorded with a function that returned the path [p]
    of something it had made, and replayed with the output [t] on a storage
    that answers with the recorded value: the replay pass has the artifact
    at [t]. *)
Theorem return_value_round_trip
  (func : callable) (args : list value) (kwargs : list (string * value))
  (w : World) (w1 : World) (p : string) (q : list string) (T : node)
  (func' : callable) (args' : list value) (kwargs' : list (string * value))
  (v : World) (v1 : World)
  (t : string) (par : list string) (c : string) :
  lossless codec ->
  (* the record pass *)
  recording w = true ->
  store_function_output func args kwargs w = (Returned (VStr p), w1) ->
  World_ok w1 ->
  is_write_mode (STORAGE w1) = true ->
  Os.resolve p w1 = Returned q ->
  lookup q (fs w1) = Some T ->
  nonempty (dirname p) = true ->
  nonempty (basename p) = true ->
  let keys := [KStr __name__; KStr (basename (storage_file (STORAGE w1)))] in
  let values := VBytes (tar_write (Tar.members (basename p) T)) in
  let recorded := return_value store_function_output func args kwargs w in
  (* the replay pass, for the same test *)
  recording v = true ->
  store_function_output func' args' kwargs' v = (Returned (VStr t), v1) ->
  is_write_mode (STORAGE v1) = false ->
  storage_get (basic_ps_keys ++ keys) (storage_object (STORAGE v1))
    = Some values ->
  basename (storage_file (STORAGE v1)) = basename (storage_file (STORAGE w1)) ->
  Os.resolve t v1 = Returned (par ++ [c]) ->
  stat par (fs v1) = Some KDir ->
  stat (par ++ [c]) (fs v1) = None ->
  kind_of T = KDir \/ endswith_sep t = false ->
  fst recorded = Returned (VStr p)
  /\ calls (STORAGE (snd recorded))
     = calls (STORAGE w1) ++ [CallStore (basic_ps_keys ++ keys) values]
  /\ exists n',
       return_value store_function_output func' args' kwargs' v
       = (Returned (VStr t),
          Os.set_fs n'
            (Storage.heard (CallRead (basic_ps_keys ++ keys)) v1))
       /\ forall x, stat x n'
            = match strip_prefix (par ++ [c]) x with
              | Some r => stat r T
              | None => stat x (fs v1)
              end.
Proof.
  intros Hloss Hrec Hout Hok Hm Hr Hl Hdn Hbn keys values recorded
         Hrec' Hout' Hm' Hg Htid Ht Hp Hfresh Hk.
  destruct (pack_unpack p keys w1 q T Hloss Hok Hm Hr Hl Hdn Hbn)
    as [Hpack Hunpack].
  fold values in Hpack, Hunpack.
  destruct (store_outcome (basic_ps_keys ++ keys) values w1 Hm) as [H1 H2].
  assert (E : recorded
              = (Returned (VStr p),
                 snd (Storage.store (basic_ps_keys ++ keys) values w1))).
  { subst recorded.
    rewrite (return_value_recording _ _ _ _ _ _ _ Hrec Hout).
    unfold bind at 1. fold keys. rewrite Hpack.
    now destruct (Storage.store (basic_ps_keys ++ keys) values w1)
      as [[[]|e] w2]. }
  rewrite E. split; [reflexivity|]. split; [exact H2|].
  destruct (Hunpack v1 t par c Hm' Hg Ht Hp Hfresh Hk) as (n' & He & Hst).
  exists n'. split; [|exact Hst].
  rewrite (return_value_recording _ _ _ _ _ _ _ Hrec' Hout').
  unfold bind at 1. rewrite Htid. fold keys. now rewrite He.
Qed.

End WithCollaborators.
End RecordReplay.

(** ** The arguments of [guess_args] *)

Module Candidates.
Import OsPath Fs Decorators.
Import CopyLogic.
Import StoreFiles.

Section WithCollaborators.
Context {codec : TarCodec}.
Variable store_function_output : callable -> callable.

Lemma enumerate_from_spec {A} (l : list A) : forall k i a,
  In (i, a) (Py_.enumerate_from k l)
  <-> (k <= i)%Z /\ nth_error l (Z.to_nat (i - k)) = Some a.
Proof.
  induction l as [|x l IH]; intros k i a; simpl.
  - split; [tauto|]. intros [_ H]. now destruct (Z.to_nat (i - k)).
  - rewrite IH. split.
    + intros [H|[H1 H2]].
      * inversion H; subst. split; [lia|]. now rewrite Z.sub_diag.
      * split; [lia|].
        replace (Z.to_nat (i - k)) with (S (Z.to_nat (i - (k + 1)))) by lia.
        exact H2.
    + intros [H1 H2]. destruct (Z.eq_dec i k) as [->|Hne].
      * left. rewrite Z.sub_diag in H2. simpl in H2. congruence.
      * right. split; [lia|].
        replace (Z.to_nat (i - k)) with (S (Z.to_nat (i - (k + 1)))) in H2
          by lia.
        exact H2.
Qed.

Lemma positional_candidates (l : list (Z * value)) (key : key) (s : string) :
  In (key, s)
     (flat_map (fun '(position, arg) =>
                  match arg with VStr s => [(KInt position, s)] | _ => [] end) l)
  <-> exists i, key = KInt i /\ In (i, VStr s) l.
Proof.
  rewrite in_flat_map. split.
  - intros [[i v] [Hin H]]. destruct v; simpl in H; try tauto.
    destruct H as [H|[]]. inversion H; subst. eauto.
  - intros [i [-> Hin]]. exists (i, VStr s). split; [assumption|now left].
Qed.

Lemma keyword_candidates (l : list (string * value)) (key : key) (s : string) :
  In (key, s)
     (flat_map (fun '(k, v) =>
                  match v with VStr s => [(KStr k, s)] | _ => [] end) l)
  <-> exists k, key = KStr k /\ In (k, VStr s) l.
Proof.
  rewrite in_flat_map. split.
  - intros [[k v] [Hin H]]. destruct v; simpl in H; try tauto.
    destruct H as [H|[]]. inversion H; subst. eauto.
  - intros [k [-> Hin]]. exists (k, VStr s). split; [assumption|now left].
Qed.

Lemma positional_keys_NoDup (l : list value) : forall k,
  NoDup (map fst
    (flat_map (fun '(position, arg) =>
                 match arg with VStr s => [(KInt position, s)] | _ => [] end)
              (Py_.enumerate_from k l))).
Proof.
  induction l as [|x l IH]; intros k; simpl; [constructor|].
  assert (Hfresh : ~ In (KInt k)
    (map fst (flat_map (fun '(position, arg) =>
                 match arg with VStr s => [(KInt position, s)] | _ => [] end)
              (Py_.enumerate_from (k + 1) l)))).
  { intros Hin. apply in_map_iff in Hin. destruct Hin as [[key s] [Hk Hin]].
    simpl in Hk. subst key.
    apply positional_candidates in Hin.
    destruct Hin as [i [Hi Hin]]. inversion Hi; subst i.
    apply enumerate_from_spec in Hin. lia. }
  destruct x; simpl; try apply IH.
  constructor; [exact Hfresh|apply IH].
Qed.

Lemma keyword_keys_NoDup (l : list (string * value)) :
  NoDup (map fst l) ->
  NoDup (map fst
    (flat_map (fun '(k, v) =>
                 match v with VStr s => [(KStr k, s)] | _ => [] end) l)).
Proof.
  induction l as [|[k v] l IH]; simpl; intros H; [constructor|].
  inversion H as [|? ? Hk Hl]; subst.
  destruct v; simpl; try (apply IH; assumption).
  constructor; [|apply IH; assumption].
  intros Hin. apply in_map_iff in Hin. destruct Hin as [[key s'] [Hkey Hin]].
  simpl in Hkey. subst key. apply keyword_candidates in Hin.
  destruct Hin as [k' [Hk' Hin]]. inversion Hk'; subst k'.
  apply Hk. apply in_map_iff. now exists (k, VStr s').
Qed.

(** X18.  What [guess_args] takes for paths, and under which keys.  A recording
    call runs the capture primitive and then one step for every string
    argument: a positional string under its index among all positional
    arguments, a keyword string under its name.  No two arguments of a call
    share a key: one artifact of a call never replaces another. *)
Theorem guess_args_keys_are_positions_and_names
  (func : callable) (args : list value) (kwargs : list (string * value))
  (w : World) (output : value) (w1 : World) :
  recording w = true ->
  store_function_output func args kwargs w = (Returned output, w1) ->
  let class_test_id_list :=
    [KStr __name__; KStr (basename (storage_file (STORAGE w)))] in
  guess_args store_function_output func args kwargs w
  = bind (for_each (candidates args kwargs)
            (fun '(key, s) => guess_one s (class_test_id_list ++ [key])))
         (fun _ => ret output) w1
  /\ (forall i s, In (KInt i, s) (candidates args kwargs)
        <-> (0 <= i)%Z /\ nth_error args (Z.to_nat i) = Some (VStr s))
  /\ (forall k s, In (KStr k, s) (candidates args kwargs)
        <-> In (k, VStr s) kwargs)
  /\ (NoDup (map fst kwargs) -> NoDup (map fst (candidates args kwargs))).
Proof.
  intros Hrec Hout ctl. split.
  { apply (guess_args_recording _ _ _ _ _ _ _ Hrec Hout). }
  unfold candidates. split; [|split].
  - intros i s. rewrite in_app_iff, positional_candidates,
      keyword_candidates.
    unfold Py_.enumerate. split.
    + intros [[j [Hj Hin]]|[k [Hk _]]]; [|discriminate].
      inversion Hj; subst j. apply enumerate_from_spec in Hin.
      now rewrite Z.sub_0_r in Hin.
    + intros [H0 Hn]. left. exists i. split; [reflexivity|].
      apply enumerate_from_spec. now rewrite Z.sub_0_r.
  - intros k s. rewrite in_app_iff, positional_candidates,
      keyword_candidates.
    split.
    + intros [[j [Hj _]]|[k' [Hk Hin]]]; [discriminate|].
      now inversion Hk; subst k'.
    + intros Hin. right. eauto.
  - intros Hnd. rewrite map_app. apply NoDup_app.
    + apply positional_keys_NoDup.
    + now apply keyword_keys_NoDup.
    + intros key H1 H2.
      apply in_map_iff in H1. destruct H1 as [[key1 s1] [E1 H1]].
      apply in_map_iff in H2. destruct H2 as [[key2 s2] [E2 H2]].
      simpl in E1, E2. subst key1 key2.
      apply positional_candidates in H1.
      apply keyword_candidates in H2.
      destruct H1 as [i [-> _]], H2 as [k [Hk _]]. discriminate.
Qed.

End WithCollaborators.
End Candidates.

(** ** The further properties on concrete processes *)


Lemma write_branch_returns_iff_artifact_witness :
  fst (_copy_logic (VStr "./src_dir") Scenario.note_keys
         (Scenario.world true true [])) = Returned tt
  <-> OsPath.nonempty (OsPath.dirname "./src_dir") = true
      /\ OsPath.nonempty (OsPath.basename "./src_dir") = true
      /\ Os.lstat "./src_dir" (Scenario.world true true []) <> None.
Proof.
  exact (proj1 (WriteBranch.write_branch_returns_iff_artifact
                  "./src_dir" Scenario.note_keys (Scenario.world true true [])
                  eq_refl eq_refl eq_refl)).
Defined.

Lemma decorators_hand_the_result_through_witness :
  guess_args Scenario.passthrough (fun _ _ => raise (UserError "boom"))
    [VStr "./src_dir"] [] (Scenario.world true true [])
  = (Raised (UserError "boom"), Scenario.world true true []).
Proof.
  exact (proj1 (proj2 (proj1
    (DecoratorFacts.decorators_hand_the_result_through Scenario.passthrough
       [] (fun _ _ => raise (UserError "boom")) [VStr "./src_dir"] []
       (Scenario.world true true []) eq_refl)
    (UserError "boom") eq_refl))).
Defined.

Lemma guess_args_ignores_non_strings_witness :
  guess_args Scenario.passthrough (Scenario.returns VNone)
    [VInt 3; VNone] [("k", VBool true)] (Scenario.world true true [])
  = (Returned VNone, Scenario.world true true []).
Proof.
  exact (DecoratorFacts.guess_args_ignores_non_strings Scenario.passthrough
           (Scenario.returns VNone) [VInt 3; VNone] [("k", VBool true)]
           (Scenario.world true true []) eq_refl eq_refl eq_refl).
Defined.

Lemma arg_references_keyword_first_witness :
  arg_references Scenario.passthrough ([] ++ [("target", 0%Z)])
    (Scenario.returns VNone) [] [("target", VStr "./src_dir")]
    (Scenario.world true true [])
  = arg_references Scenario.passthrough ([] ++ [("target", 7%Z)])
      (Scenario.returns VNone) [] [("target", VStr "./src_dir")]
      (Scenario.world true true []).
Proof.
  exact (DecoratorFacts.arg_references_keyword_first Scenario.passthrough
           [] [] "target" 0%Z 7%Z (Scenario.returns VNone) []
           [("target", VStr "./src_dir")] (Scenario.world true true [])
           (VStr "./src_dir") eq_refl).
Defined.

Lemma arg_references_position_out_of_range_witness :
  arg_references Scenario.passthrough ([] ++ [("target", 2%Z)])
    (Scenario.returns VNone) [VStr "./src_dir"] []
    (Scenario.world true true [])
  = (Raised IndexError, Scenario.world true true []).
Proof.
  apply (DecoratorFacts.arg_references_position_out_of_range
           Scenario.passthrough [] [] "target" 2%Z (Scenario.returns VNone)
           [VStr "./src_dir"] [] (Scenario.world true true []) VNone
           (Scenario.world true true []) (Scenario.world true true []));
    try reflexivity.
  right. simpl. lia.
Defined.

Lemma return_value_needs_a_path_witness :
  return_value Scenario.passthrough (Scenario.returns VNone) [] []
    (Scenario.world true true [])
  = (Raised TypeError, Scenario.world true true []).
Proof.
  exact (DecoratorFacts.return_value_needs_a_path Scenario.passthrough
           (Scenario.returns VNone) [] [] (Scenario.world true true []) VNone
           (Scenario.world true true []) eq_refl eq_refl eq_refl eq_refl
           eq_refl (or_introl eq_refl)).
Defined.

Lemma guess_args_trailing_separator_witness :
  guess_args Scenario.passthrough (Scenario.returns VNone)
    [VStr "./src_dir/"] [] (Scenario.world true true [])
  = (Raised FileNotFoundError, Scenario.world true true []).
Proof.
  exact (DecoratorFacts.guess_args_trailing_separator Scenario.passthrough
           (Scenario.returns VNone) "./src_dir/" [] []
           (Scenario.world true true []) VNone (Scenario.world true true [])
           eq_refl eq_refl eq_refl eq_refl eq_refl eq_refl eq_refl).
Defined.


Lemma replay_only_reads_the_storage_witness :
  cwd (snd (guess_args Scenario.passthrough (Scenario.returns VNone)
              [VStr "dst"] [] Scenario.replay_world)) = ["w"].
Proof.
  exact (proj1 (proj1 (proj2
    (ReplayFacts.replay_only_reads_the_storage Scenario.passthrough []
       (Scenario.returns VNone) [VStr "dst"] [] Scenario.replay_world VNone
       Scenario.replay_world eq_refl eq_refl eq_refl)))).
Defined.

Lemma file_artifact_onto_directory_witness :
  _copy_logic (VStr "/w/src_dir") Scenario.note_keys Scenario.replay_world
  = (Raised IsADirectoryError,
     Storage.heard (CallRead (basic_ps_keys ++ Scenario.note_keys))
       Scenario.replay_world).
Proof.
  exact (TargetKinds.file_artifact_onto_directory "/w/src_dir"
           Scenario.note_keys Scenario.replay_world
           (@tar_write plain_codec
              [mkTarInfo "note.txt" REGTYPE (Scenario.text "hello")])
           (mkTarInfo "note.txt" REGTYPE (Scenario.text "hello")) []
           eq_refl eq_refl eq_refl eq_refl eq_refl).
Defined.

Lemma directory_artifact_onto_file_witness :
  _copy_logic (VStr "/w/note.txt") Scenario.note_keys
    (Scenario.replay_with Scenario.note_keys Scenario.src_archive)
  = (Raised NotADirectoryError,
     Storage.heard (CallRead (basic_ps_keys ++ Scenario.note_keys))
       (Scenario.replay_with Scenario.note_keys Scenario.src_archive)).
Proof.
  exact (TargetKinds.directory_artifact_onto_file "/w/note.txt"
           Scenario.note_keys
           (Scenario.replay_with Scenario.note_keys Scenario.src_archive)
           (@tar_write plain_codec
              (Tar.members "src_dir"
                 (Scenario.src_dir (Scenario.text "alpha")
                                   (Scenario.text "gamma"))))
           (mkTarInfo "src_dir" DIRTYPE [])
           (tl (Tar.members "src_dir"
                  (Scenario.src_dir (Scenario.text "alpha")
                                    (Scenario.text "gamma"))))
           (Scenario.text "hello")
           eq_refl eq_refl eq_refl eq_refl eq_refl eq_refl).
Defined.

Lemma record_then_replay_restores_witness :
  exists n',
    _copy_logic (VStr "dst") Scenario.note_keys
      (Scenario.replay_with Scenario.note_keys Scenario.src_archive)
    = (Returned tt,
       Os.set_fs n'
         (Storage.heard (CallRead (basic_ps_keys ++ Scenario.note_keys))
            (Scenario.replay_with Scenario.note_keys Scenario.src_archive)))
    /\ Fs.stat ["w"; "dst"; "b"; "c.txt"] n'
       = Some (KFile (Scenario.text "gamma")).
Proof.
  destruct (proj2 (proj2
    (RecordReplay.record_then_replay_restores "./src_dir" Scenario.note_keys
       (Scenario.world true true []) ["w"; "src_dir"]
       (Scenario.src_dir (Scenario.text "alpha") (Scenario.text "gamma"))
       (fun members => eq_refl) (conj eq_refl (conj eq_refl eq_refl))
       eq_refl eq_refl eq_refl eq_refl eq_refl))
    (Scenario.replay_with Scenario.note_keys Scenario.src_archive)
    "dst" ["w"] "dst" eq_refl eq_refl eq_refl eq_refl eq_refl
    (or_introl eq_refl)) as (n' & He & Hst).
  exists n'. split; [exact He|]. rewrite Hst. reflexivity.
Defined.

Lemma record_then_replay_into_empty_directory_witness :
  exists n',
    _copy_logic (VStr "/data") Scenario.note_keys
      (Scenario.replay_with Scenario.note_keys Scenario.src_archive)
    = (Returned tt,
       Os.set_fs n'
         (Storage.heard (CallRead (basic_ps_keys ++ Scenario.note_keys))
            (Scenario.replay_with Scenario.note_keys Scenario.src_archive)))
    /\ Fs.stat ["data"; "a.txt"] n' = Some (KFile (Scenario.text "alpha")).
Proof.
  destruct (proj2
    (RecordReplay.record_then_replay_into_empty_directory "./src_dir"
       Scenario.note_keys (Scenario.world true true []) ["w"; "src_dir"]
       [("b", Dir [("c.txt", File (Scenario.text "gamma"))]);
        ("a.txt", File (Scenario.text "alpha"))]
       (fun members => eq_refl) (conj eq_refl (conj eq_refl eq_refl))
       eq_refl eq_refl eq_refl eq_refl eq_refl)
    (Scenario.replay_with Scenario.note_keys Scenario.src_archive)
    "/data" ["data"] eq_refl eq_refl eq_refl eq_refl (fun c => eq_refl))
    as (n' & He & Hst).
  exists n'. split; [exact He|]. rewrite Hst. reflexivity.
Defined.

Lemma arg_references_round_trip_witness :
  exists n',
    arg_references Scenario.passthrough [("target", 0%Z)]
      (Scenario.returns VNone) [VStr "dst"] []
      (Scenario.replay_with (Scenario.note_keys ++ [KStr "target"])
         Scenario.src_archive)
    = (Returned VNone,
       Os.set_fs n'
         (Storage.heard
            (CallRead (basic_ps_keys ++ Scenario.note_keys ++ [KStr "target"]))
            (Scenario.replay_with (Scenario.note_keys ++ [KStr "target"])
               Scenario.src_archive)))
    /\ Fs.stat ["w"; "dst"; "a.txt"] n' = Some (KFile (Scenario.text "alpha")).
Proof.
  destruct (proj2 (proj2
    (RecordReplay.arg_references_round_trip Scenario.passthrough
       "target" 0%Z (Scenario.returns VNone) [VStr "./src_dir"] []
       (Scenario.world true true []) VNone (Scenario.world true true [])
       "./src_dir" ["w"; "src_dir"]
       (Scenario.src_dir (Scenario.text "alpha") (Scenario.text "gamma"))
       (Scenario.returns VNone) [VStr "dst"] []
       (Scenario.replay_with (Scenario.note_keys ++ [KStr "target"])
          Scenario.src_archive)
       VNone
       (Scenario.replay_with (Scenario.note_keys ++ [KStr "target"])
          Scenario.src_archive)
       "dst" ["w"] "dst"
       (fun members => eq_refl) eq_refl eq_refl
       (conj eq_refl (conj eq_refl eq_refl))
       eq_refl eq_refl eq_refl eq_refl eq_refl eq_refl
       eq_refl eq_refl eq_refl eq_refl eq_refl eq_refl eq_refl eq_refl eq_refl
       (or_introl eq_refl)))) as (n' & He & Hst).
  exists n'. split; [exact He|]. rewrite Hst. reflexivity.
Defined.

Lemma return_value_round_trip_witness :
  exists n',
    return_value Scenario.passthrough (Scenario.returns (VStr "out.txt")) [] []
      Scenario.replay_world
    = (Returned (VStr "out.txt"),
       Os.set_fs n'
         (Storage.heard (CallRead (basic_ps_keys ++ Scenario.note_keys))
            Scenario.replay_world))
    /\ Fs.stat ["w"; "out.txt"] n' = Some (KFile (Scenario.text "hello")).
Proof.
  destruct (proj2 (proj2
    (RecordReplay.return_value_round_trip Scenario.passthrough
       (Scenario.returns (VStr "./note.txt")) [] []
       (Scenario.world true true []) (Scenario.world true true [])
       "./note.txt" ["w"; "note.txt"] (File (Scenario.text "hello"))
       (Scenario.returns (VStr "out.txt")) [] []
       Scenario.replay_world Scenario.replay_world
       "out.txt" ["w"] "out.txt"
       (fun members => eq_refl) eq_refl eq_refl
       (conj eq_refl (conj eq_refl eq_refl))
       eq_refl eq_refl eq_refl eq_refl eq_refl
       eq_refl eq_refl eq_refl eq_refl eq_refl eq_refl eq_refl eq_refl
       (or_intror eq_refl)))) as (n' & He & Hst).
  exists n'. split; [exact He|]. rewrite Hst. reflexivity.
Defined.

Lemma guess_args_keys_are_positions_and_names_witness :
  In (KInt 2, "b")
     (@candidates plain_codec [VStr "a"; VInt 1; VStr "b"] [("k", VStr "c")])
  <-> (0 <= 2)%Z
      /\ nth_error [VStr "a"; VInt 1; VStr "b"] (Z.to_nat 2)
         = Some (@VStr plain_codec "b").
Proof.
  exact (proj1 (proj2
    (Candidates.guess_args_keys_are_positions_and_names Scenario.passthrough
       (Scenario.returns VNone) [VStr "a"; VInt 1; VStr "b"] [("k", VStr "c")]
       (Scenario.world true true []) VNone (Scenario.world true true [])
       eq_refl eq_refl)) 2%Z "b").
Defined.

Lemma undecodable_artifact_raises_witness :
  _copy_logic (VStr "out.txt") Scenario.note_keys Scenario.garbage_world
  = (Raised ReadError,
     Storage.heard (CallRead (basic_ps_keys ++ Scenario.note_keys))
       Scenario.garbage_world).
Proof.
  exact (TargetKinds.undecodable_artifact_raises (VStr "out.txt")
           Scenario.note_keys Scenario.garbage_world None
           eq_refl eq_refl eq_refl).
Defined.
